(** * trendfit: bootstrap engine and change-point trend model

    A shallow embedding of [trendfit/bootstrap/_bootstrap.py] and
    [trendfit/models/_models.py], with the statements of the specification
    that concern them.

    Conventions.
    - numpy [float64] values are idealised as real numbers ([R]); a 1-d array
      is a [list R], a 2-d array a list of rows.
    - A Python exception is a value of [exn]; a call that may raise returns a
      [result].  A method that mutates its object takes the object and
      returns it next to the result, so that the state reached when an
      exception is raised stays visible.
    - A Python [dict] with string keys is a [gmap string _]. *)

From Stdlib Require Import Reals Lra Lia ZArith Permutation Sorted.
From stdpp Require Import base list gmap strings.

Set Warnings "-clear-no-such-hyp".

(** ** Exceptions and results *)

Inductive exn : Type :=
| ValueError
| TypeError
| IndexError
| ZeroDivisionError
| LinAlgError
| NotImplementedError.

Inductive result (A : Type) : Type :=
| Ok (a : A)
| Raise (e : exn).
Arguments Ok {A} a.
Arguments Raise {A} e.

#[global] Instance result_ret : MRet result := fun _ a => Ok a.
#[global] Instance result_bind : MBind result := fun _ _ k r =>
  match r with
  | Ok a => k a
  | Raise e => Raise e
  end.
#[global] Instance result_fmap : FMap result := fun _ _ f r =>
  match r with
  | Ok a => Ok (f a)
  | Raise e => Raise e
  end.

(** A method of an object whose state has type [S]: the state comes back
    whether the call returns or raises. *)
Definition action (S A : Type) : Type := S -> result A * S.

#[global] Instance action_ret {S} : MRet (action S) := fun _ a s => (Ok a, s).
#[global] Instance action_bind {S} : MBind (action S) := fun _ _ k c s =>
  match c s with
  | (Ok a, s') => k a s'
  | (Raise e, s') => (Raise e, s')
  end.

Definition get {S} : action S S := fun s => (Ok s, s).
Definition put {S} (s : S) : action S unit := fun _ => (Ok tt, s).
Definition modify {S} (f : S -> S) : action S unit := fun s => (Ok tt, f s).
Definition raise {S A} (e : exn) : action S A := fun s => (Raise e, s).
Definition lift {S A} (r : result A) : action S A := fun s => (r, s).

(** ** Python values held in parameter dictionaries *)

Inductive pyvalue : Type :=
| VNone
| VFloat (x : R)
| VArray (xs : list R).

(** [np.inf] or a finite float *)
Inductive float_ext : Type :=
| Finite (x : R)
| Infinity.

(** ** The numpy functions the code calls *)

Module Numpy.

(** *** [numpy.array_split(ary, Nsections)], integer [Nsections] *)

(** [[0] + extras * [Neach_section+1] + (Nsections-extras) * [Neach_section]] *)
Definition section_sizes (Ntotal Nsections : nat) : list nat :=
  let Neach_section := (Ntotal / Nsections)%nat in
  let extras := (Ntotal mod Nsections)%nat in
  0%nat :: replicate extras (S Neach_section)
        ++ replicate (Nsections - extras) Neach_section.

Fixpoint cumsum_from (acc : nat) (l : list nat) : list nat :=
  match l with
  | [] => []
  | x :: l' => (acc + x)%nat :: cumsum_from (acc + x) l'
  end.

Definition cumsum (l : list nat) : list nat := cumsum_from 0 l.

(** [ary[st:end]] for [0 <= st], [0 <= end] *)
Definition slice {A} (ary : list A) (st en : nat) : list A :=
  take (en - st) (drop st ary).

Definition array_split {A} (ary : list A) (Nsections : Z)
  : result (list (list A)) :=
  if (Nsections <=? 0)%Z then Raise ValueError
  else
    let Ntotal := length ary in
    let div_points := cumsum (section_sizes Ntotal (Z.to_nat Nsections)) in
    Ok (map (fun i => slice ary (nth i div_points 0%nat)
                                (nth (i + 1) div_points 0%nat))
            (seq 0 (Z.to_nat Nsections))).

(** *** [numpy.random.RandomState]

    A generator is the stream of its future raw outputs and a cursor; every
    sequence of outcomes is the behaviour of some generator. *)
Record RandomState : Type := mkRandomState {
  words : nat -> nat;
  gauss : nat -> R;
  cursor : nat;
}.

Definition advance (rs : RandomState) : RandomState :=
  {| words := words rs; gauss := gauss rs; cursor := S (cursor rs) |}.

(** [random_interval(max)]: an integer in [[0, max]] *)
Definition random_interval (max : nat) : action RandomState nat :=
  fun rs => (Ok (words rs (cursor rs) mod S max)%nat, advance rs).

(** [x[i], x[j] = x[j], x[i]] *)
Definition swap {A} (x : list A) (i j : nat) : list A :=
  match x !! i, x !! j with
  | Some xi, Some xj => <[j:=xi]> (<[i:=xj]> x)
  | _, _ => x
  end.

(** [for i in reversed(range(1, n)): j = random_interval(i); swap x[i], x[j]] *)
Fixpoint shuffle_loop {A} (i : nat) (x : list A) : action RandomState (list A) :=
  match i with
  | O => mret x
  | S i' => j ← random_interval i; shuffle_loop i' (swap x i j)
  end.

(** [random_state.shuffle(x)]; the shuffled array is returned instead of
    being written in place. *)
Definition shuffle {A} (x : list A) : action RandomState (list A) :=
  shuffle_loop (length x - 1) x.

Definition standard_normal : action RandomState R :=
  fun rs => (Ok (gauss rs (cursor rs)), advance rs).

(** [random_state.normal(loc=0., scale=1., size=size)] *)
Fixpoint normal (size : nat) : action RandomState (list R) :=
  match size with
  | O => mret []
  | S size' => z ← standard_normal; zs ← normal size'; mret (z :: zs)
  end.

(** *** Arrays *)

Definition vadd (u v : list R) : list R := zip_with Rplus u v.
Definition vmul (u v : list R) : list R := zip_with Rmult u v.
Definition dot (u v : list R) : R := foldr Rplus 0%R (zip_with Rmult u v).

(** [m @ v] for a 2-d [m] and a 1-d [v] *)
Definition matvec (m : list (list R)) (v : list R) : list R :=
  map (fun row => dot row v) m.

Definition madd (a b : list (list R)) : list (list R) :=
  zip_with vadd a b.

(** [m.transpose()] of a 2-d array with [ncols] columns *)
Definition transpose (ncols : nat) (m : list (list R)) : list (list R) :=
  map (fun j => map (fun row => nth j row 0%R) m) (seq 0 ncols).

(** [np.stack(cols).transpose()]: the rows of the matrix whose columns are
    [cols], all of length [nrows] *)
Definition stack_transpose (nrows : nat) (cols : list (list R))
  : list (list R) := transpose nrows cols.

(** [x ** y] for a base [x >= 0] *)
Definition power (x y : R) : R :=
  if Req_dec_T x 0 then (if Req_dec_T y 0 then 1%R else 0%R)
  else Rpower x y.

(** [gamma ** (t[None, :] - t[:, None])] *)
Definition power_outer (gamma : R) (t : list R) : list (list R) :=
  map (fun ti => map (fun tj => power gamma (tj - ti)) t) t.

(** [np.triu(m)]: the entries below the diagonal are zeroed *)
Definition triu (m : list (list R)) : list (list R) :=
  imap (fun i row => imap (fun j x => if (j <? i)%nat then 0%R else x) row) m.

(** [np.fill_diagonal(m, v)], returning the array it writes *)
Definition fill_diagonal (m : list (list R)) (v : R) : list (list R) :=
  imap (fun i row => <[i:=v]> row) m.

(** The [n] by [n] array with entries [e i j] *)
Definition tabulate (n : nat) (e : nat -> nat -> R) : list (list R) :=
  map (fun i => map (fun j => e i j) (seq 0 n)) (seq 0 n).

(** [x @ m @ x] *)
Definition quadratic_form (m : list (list R)) (x : list R) : R :=
  dot x (matvec m x).

(** The sum of squared residuals [|y - m @ p|^2] *)
Definition sum_squared_residuals (m : list (list R)) (p y : list R) : R :=
  let r := zip_with Rminus y (matvec m p) in dot r r.

(** *** [numpy.linalg.cholesky]

    The lower-triangular factor in exact arithmetic, by the recursive
    (right-looking) algorithm: the first column is scaled by the square root
    of the pivot and the factorisation continues on the Schur complement.
    Only the lower triangle of the input is read.  A pivot that is not
    positive raises [LinAlgError], as does an input that is not square. *)
Fixpoint cholesky_rec (n : nat) (a : list (list R)) : result (list (list R)) :=
  match n, a with
  | O, _ => Ok []
  | S n', (a11 :: _) :: rest =>
      if Rlt_dec 0 a11 then
        let l11 := sqrt a11 in
        let l21 := map (fun row => (hd 0 row / l11)%R) rest in
        let a22 :=
          zip_with (fun row li =>
                      zip_with (fun x lj => (x - li * lj)%R) (tl row) l21)
                   rest l21 in
        l22 ← cholesky_rec n' a22;
        Ok ((l11 :: replicate n' 0%R) :: zip_with cons l21 l22)
      else Raise LinAlgError
  | S _, _ => Raise LinAlgError
  end.

Definition cholesky (a : list (list R)) : result (list (list R)) :=
  cholesky_rec (length a) a.

(** *** [numpy.quantile(a, q, axis=0)], default method (linear) *)

Fixpoint insert_sorted (x : R) (l : list R) : list R :=
  match l with
  | [] => [x]
  | y :: l' => if Rle_dec x y then x :: l else y :: insert_sorted x l'
  end.

Definition sort (l : list R) : list R := foldr insert_sorted [] l.

(** [_lerp(a, b, t)] *)
Definition lerp (a b t : R) : R :=
  if Rle_dec (1 / 2) t then (b - (b - a) * (1 - t))%R
  else (a + (b - a) * t)%R.

(** The quantile of a non-empty 1-d sample: the virtual index
    [(n - 1) * q] is split into the index below it and the fraction left,
    and the two neighbouring order statistics are interpolated. *)
Definition quantile_sorted (arr : list R) (q : R) : R :=
  let n := length arr in
  let virtual_index := (INR (n - 1) * q)%R in
  let previous := Z.to_nat (Zfloor virtual_index) in
  let next := Nat.min (previous + 1) (n - 1) in
  let g := (virtual_index - INR previous)%R in
  lerp (nth previous arr 0%R) (nth next arr 0%R) g.

Definition quantile_1d (a : list R) (q : R) : R :=
  quantile_sorted (sort a) q.

Definition as_float (v : pyvalue) : option R :=
  match v with VFloat x => Some x | _ => None end.

Definition as_array (v : pyvalue) : option (list R) :=
  match v with VArray xs => Some xs | _ => None end.

(** [np.quantile(v, q, axis=0)] where [v] is a Python list of draws: a list
    of floats is a 1-d sample, a list of equally long arrays a 2-d sample
    whose columns are reduced one by one.  A list that is not homogeneous
    cannot be made an array of floats and [q] outside [[0, 1]] is rejected.
    On an empty list numpy raises or returns nan, depending on its version:
    the model raises. *)
Definition quantile (v : list pyvalue) (q : R) : result pyvalue :=
  match v with
  | [] => Raise IndexError
  | VNone :: _ => Raise TypeError
  | VFloat _ :: _ =>
      match mapM as_float v with
      | None => Raise ValueError
      | Some a =>
          if Rle_dec 0 q then
            if Rle_dec q 1 then Ok (VFloat (quantile_1d a q))
            else Raise ValueError
          else Raise ValueError
      end
  | VArray x0 :: _ =>
      match mapM as_array v with
      | None => Raise ValueError
      | Some rows =>
          if forallb (fun row => (length row =? length x0)%nat) rows then
            if Rle_dec 0 q then
              if Rle_dec q 1 then
                Ok (VArray (map (fun j =>
                                   quantile_1d
                                     (map (fun row => nth j row 0%R) rows) q)
                                (seq 0 (length x0))))
              else Raise ValueError
            else Raise ValueError
          else Raise ValueError
      end
  end.

End Numpy.

(** The order on parameter values: floats are compared, arrays element by
    element. *)
Definition value_le (a b : pyvalue) : Prop :=
  match a, b with
  | VFloat x, VFloat y => (x <= y)%R
  | VArray xs, VArray ys => Forall2 Rle xs ys
  | _, _ => False
  end.

(** A non-empty list of draws that numpy turns into an array of floats:
    floats only, or arrays of one length only. *)
Definition sample_shaped (v : list pyvalue) : Prop :=
  v <> [] /\
  ((exists a, v = map VFloat a) \/
   (exists n rows, v = map VArray rows /\ Forall (fun row => length row = n) rows)).

(** ** [trendfit.base]: the estimator contract *)

Module Base.

(** Modelled from the spec: [trendfit/base.py] (class [BaseEstimator]) is not
    among the sources.  Sections 1, 3 and 6 of the specification give its
    contract: an estimator keeps the time grid and response of its last fit,
    the predicted values and a [fitted] flag; [residuals] and [parameters]
    are read-only views. *)
Record fields : Type := mkFields {
  _t : list R;
  _y : list R;
  _y_predict : list R;
  _fitted : bool;
}.

Definition unfitted : fields :=
  {| _t := []; _y := []; _y_predict := []; _fitted := false |}.

(** Modelled from the spec: [BaseEstimator.fit(t, y)] records the data, runs
    the [_fit] hook of the subclass, stores the predictions of the [_predict]
    hook on the same grid and marks the estimator fitted; it returns what
    [_fit] returned.  The [fitted] flag is set only when both hooks
    returned.  Predicting reads the estimator and does not change it. *)
Definition fit {S Res} (get_base : S -> fields) (set_base : fields -> S -> S)
    (_fit : list R -> list R -> action S Res)
    (_predict : S -> list R -> result (list R))
    (t y : list R) : action S Res :=
  _ ← modify (fun s => set_base {| _t := t; _y := y;
                                   _y_predict := _y_predict (get_base s);
                                   _fitted := _fitted (get_base s) |} s);
  res ← _fit t y;
  s ← get;
  y_predict ← lift (_predict s t);
  _ ← modify (set_base {| _t := t; _y := y; _y_predict := y_predict;
                          _fitted := true |});
  mret res.

(** Modelled from the spec: [BaseEstimator.predict(t)] needs a fitted
    estimator. *)
Definition predict {S} (get_base : S -> fields)
    (_predict : S -> list R -> result (list R)) (s : S) (t : list R)
  : result (list R) :=
  if _fitted (get_base s) then _predict s t else Raise ValueError.

(** Modelled from the spec: the residuals of the last fit, aligned with the
    time grid. *)
Definition residuals (b : fields) : list R :=
  zip_with Rminus (_y b) (_y_predict b).

(** Modelled from the spec: the model contract of section 6, all that the
    bootstrap code uses of the model it wraps. *)
Class Estimator (M : Type) : Type := {
  model_fit : list R -> list R -> action M unit;
  model_predict : M -> list R -> result (list R);
  model_base : M -> fields;
  model_parameters : M -> gmap string pyvalue;
}.

End Base.

(** ** [trendfit.models._models] *)

Module Models.

Import Base.

(** Keyword arguments passed through to the optimizer. *)
Inductive pyarg : Type :=
| AInt (n : Z)
| AFloat (x : R)
| ABool (b : bool).

(** The fields of [scipy.optimize.OptimizeResult] that the code reads. *)
Record OptimizeResult : Type := mkOptimizeResult {
  res_x : list R;
  res_fun : float_ext;
}.

(** An entry of [reg_idx]: an integer index or [slice(start, stop)]. *)
Inductive index : Type :=
| Idx (i : nat)
| Slice (start stop : nat).

Inductive model_class : Type :=
| LinearNoTrendFourier
| LinearTrendFourier
| LinearBrokenTrendFourier.

Record LinearModel : Type := mkLinearModel {
  class_of : model_class;
  f_order : nat;
  _parameters : gmap string pyvalue;
  _fit_t_break : bool;
  _opt_bounds : option (R * R);
  _opt_kwargs : gmap string pyarg;
  base : fields;
}.

Definition set_parameters (f : gmap string pyvalue -> gmap string pyvalue)
    (self : LinearModel) : LinearModel :=
  {| class_of := class_of self; f_order := f_order self;
     _parameters := f (_parameters self);
     _fit_t_break := _fit_t_break self; _opt_bounds := _opt_bounds self;
     _opt_kwargs := _opt_kwargs self; base := base self |}.

Definition set_base (b : fields) (self : LinearModel) : LinearModel :=
  {| class_of := class_of self; f_order := f_order self;
     _parameters := _parameters self;
     _fit_t_break := _fit_t_break self; _opt_bounds := _opt_bounds self;
     _opt_kwargs := _opt_kwargs self; base := b |}.

(** [LinearNoTrendFourier.__init__] *)
Definition init_no_trend (f_order : nat) : LinearModel :=
  {| class_of := LinearNoTrendFourier; f_order := f_order;
     _parameters := {[ "fourier_terms" := VArray []; "intercept" := VNone ]};
     _fit_t_break := false; _opt_bounds := None; _opt_kwargs := ∅;
     base := unfitted |}.

(** [LinearTrendFourier.__init__] *)
Definition init_trend (f_order : nat) : LinearModel :=
  {| class_of := LinearTrendFourier; f_order := f_order;
     _parameters := <[ "trend" := VNone ]> (_parameters (init_no_trend f_order));
     _fit_t_break := false; _opt_bounds := None; _opt_kwargs := ∅;
     base := unfitted |}.

(** [LinearBrokenTrendFourier.__init__] *)
Definition init_broken_trend (f_order : nat) (t_break : option R)
    (opt_bounds : option (R * R)) (opt_kwargs : gmap string pyarg)
  : LinearModel :=
  {| class_of := LinearBrokenTrendFourier; f_order := f_order;
     _parameters :=
       <[ "t_break" := match t_break with Some x => VFloat x | None => VNone end ]>
         (_parameters (init_trend f_order));
     _fit_t_break := match t_break with Some _ => false | None => true end;
     _opt_bounds := opt_bounds; _opt_kwargs := opt_kwargs;
     base := unfitted |}.

(** [_fourier_terms]: [[cos(2 degree pi t), sin(2 degree pi t)]] *)
Definition _fourier_terms (t : list R) (degree : nat) : list (list R) :=
  [ map (fun x => cos (2 * INR degree * PI * x)) t;
    map (fun x => sin (2 * INR degree * PI * x)) t ].

(** [LinearNoTrendFourier._regressor_terms]; [reg_idx] keeps its insertion
    order. *)
Definition _regressor_terms_no_trend (f_order : nat) (t : list R)
  : list (string * index) * list (list R) :=
  let reg_terms :=
    if (f_order =? 0)%nat then []
    else flat_map (_fourier_terms t) (seq 1 f_order) in
  let reg_idx :=
    if (f_order =? 0)%nat then []
    else [("fourier_terms", Slice 0 (f_order * 2))] in
  let reg_terms := reg_terms ++ [map (fun _ => 1%R) t] in
  let reg_idx :=
    reg_idx ++ [("intercept",
                 if (f_order =? 0)%nat then Idx 0 else Idx (f_order * 2))] in
  (reg_idx, reg_terms).

(** [LinearTrendFourier._regressor_terms] *)
Definition _regressor_terms_trend (f_order : nat) (t : list R)
  : list (string * index) * list (list R) :=
  let '(reg_idx, reg_terms) := _regressor_terms_no_trend f_order t in
  (reg_idx ++ [("trend", Idx (f_order * 2 + 1))], reg_terms ++ [t]).

(** [LinearBrokenTrendFourier._regressor_terms]; the last regressor is
    [np.where(t > t_break, t - t_break, 0.)]. *)
Definition _regressor_terms_broken_trend (f_order : nat) (t : list R)
    (t_break : R) : list (string * index) * list (list R) :=
  let '(reg_idx, reg_terms) := _regressor_terms_trend f_order t in
  (reg_idx ++ [("trend_change", Idx (f_order * 2 + 2))],
   reg_terms
     ++ [map (fun x => if Rgt_dec x t_break then (x - t_break)%R else 0%R) t]).

(** [p[idx]] *)
Definition getitem (p : list R) (idx : index) : result pyvalue :=
  match idx with
  | Idx i =>
      match p !! i with
      | Some x => Ok (VFloat x)
      | None => Raise IndexError
      end
  | Slice start stop => Ok (VArray (Numpy.slice p start stop))
  end.

(** [p[idx] = v] *)
Definition setitem (p : list R) (idx : index) (v : pyvalue)
  : result (list R) :=
  match idx, v with
  | Idx i, VFloat x =>
      if (i <? length p)%nat then Ok (<[i:=x]> p) else Raise IndexError
  | Slice start stop, VFloat x =>
      let n := length (Numpy.slice p start stop) in
      Ok (take start p ++ replicate n x ++ drop (start + n) p)
  | Slice start stop, VArray xs =>
      let n := length (Numpy.slice p start stop) in
      if (length xs =? n)%nat
      then Ok (take start p ++ xs ++ drop (start + n) p)
      else Raise ValueError
  | Idx _, VArray _ => Raise ValueError
  | _, VNone => Raise TypeError
  end.

(** The names under which a fit stores coefficients: the keys of
    [reg_idx]. *)
Definition regressor_names (cls : model_class) (f_order : nat) : list string :=
  (if (f_order =? 0)%nat then [] else ["fourier_terms"])
  ++ ["intercept"]
  ++ match cls with
     | LinearNoTrendFourier => []
     | LinearTrendFourier => ["trend"]
     | LinearBrokenTrendFourier => ["trend"; "trend_change"]
     end.

(** [same_configuration s s']: the two states of a model may differ in
    their parameter values only. *)
Definition same_configuration (s s' : LinearModel) : Prop :=
  class_of s' = class_of s /\ f_order s' = f_order s /\
  _fit_t_break s' = _fit_t_break s /\ _opt_bounds s' = _opt_bounds s /\
  _opt_kwargs s' = _opt_kwargs s /\ base s' = base s.

(** The positions of a coefficient vector that an entry of [reg_idx]
    selects. *)
Definition positions (idx : index) : list nat :=
  match idx with
  | Idx i => [i]
  | Slice start stop => seq start (stop - start)
  end.

(** [self._regressor_terms], resolved by the class of [self]; the break
    location is an argument of the method of [LinearBrokenTrendFourier]
    only. *)
Definition regressors (cls : model_class) (f_order : nat) (t : list R)
    (t_break : R) : list (string * index) * list (list R) :=
  match cls with
  | LinearNoTrendFourier => _regressor_terms_no_trend f_order t
  | LinearTrendFourier => _regressor_terms_trend f_order t
  | LinearBrokenTrendFourier => _regressor_terms_broken_trend f_order t t_break
  end.

(** The number of regressors of a model. *)
Definition n_regressors (cls : model_class) (f_order : nat) : nat :=
  2 * f_order + match cls with
                | LinearNoTrendFourier => 1
                | LinearTrendFourier => 2
                | LinearBrokenTrendFourier => 3
                end.

(** [np.stack(reg_terms).transpose()] for the regressors of a model on the
    grid [t]: one row per time point, one column per regressor. *)
Definition design (cls : model_class) (f_order : nat) (t : list R)
    (t_break : R) : list (list R) :=
  Numpy.stack_transpose (length t) (regressors cls f_order t t_break).2.

(** [holds_solution cls f_order params p]: the dictionary [params] holds the
    coefficients [p] of the regressors of a model of class [cls] under their
    names: the first [2 f_order] entries as [fourier_terms] (when [f_order]
    is not zero), the next ones as [intercept], [trend] and
    [trend_change]. *)
Definition holds_solution (cls : model_class) (f_order : nat)
    (params : gmap string pyvalue) (p : list R) : Prop :=
  (f_order <> 0%nat ->
   params !! "fourier_terms" = Some (VArray (take (2 * f_order) p))) /\
  (exists x, p !! (2 * f_order)%nat = Some x /\
             params !! "intercept" = Some (VFloat x)) /\
  (cls <> LinearNoTrendFourier ->
   exists x, p !! (2 * f_order + 1)%nat = Some x /\
             params !! "trend" = Some (VFloat x)) /\
  (cls = LinearBrokenTrendFourier ->
   exists x, p !! (2 * f_order + 2)%nat = Some x /\
             params !! "trend_change" = Some (VFloat x)).

(** The truncated Fourier series of the class docstrings,
    [sum_j a_j cos(2 j pi t) + b_j sin(2 j pi t)], for the coefficients
    [a_degree, b_degree, a_(degree + 1), ...] *)
Fixpoint fourier_series (degree : nat) (coefs : list R) (x : R) : R :=
  match coefs with
  | a :: b :: coefs' =>
      (a * cos (2 * INR degree * PI * x) + b * sin (2 * INR degree * PI * x)
       + fourier_series (S degree) coefs' x)%R
  | _ => 0%R
  end.

(** The model equation of the class docstrings,
    [y_t = alpha + beta t + delta D(t, T1) + F_t], where [D(t, T1)] is 0 for
    [t <= T1] and [t - T1] for [t > T1]. *)
Definition model_equation (coefs : list R) (alpha beta delta t_break x : R)
  : R :=
  (alpha + beta * x
   + delta * (if Rgt_dec x t_break then x - t_break else 0)
   + fourier_series 1 coefs x)%R.

(** [differ_only_at names s s']: the two states of a model differ at most in
    the values of the parameters called [names]. *)
Definition differ_only_at (names : list string) (s s' : LinearModel) : Prop :=
  same_configuration s s' /\
  forall k, k ∉ names -> _parameters s' !! k = _parameters s !! k.

Section Solvers.

(** [numpy.linalg.lstsq(mat, y, rcond=None)]: the solution and the array of
    residual sums, which is empty when the system is rank deficient or has
    no more rows than columns.  The solver is a parameter of the model. *)
Variable lstsq : list (list R) -> list R -> result (list R * list R).

(** [scipy.optimize.dual_annealing(func, bounds, **kwargs)]: the candidates
    at which it evaluated [func], in order, and its result.  The optimizer
    is a parameter of the model. *)
Variable dual_annealing :
  (R -> result float_ext) -> list (R * R) -> gmap string pyarg ->
  result (list R * OptimizeResult).

(** What [_fit] returns: [ssr[0]], the array [ssr], or the optimizer's
    result. *)
Inductive fit_result : Type :=
| FitSSR (ssr0 : R)
| FitResiduals (ssr : list R)
| FitOptimize (res : OptimizeResult).

Definition _solve_lstsq (t y : list R) (reg_idx : list (string * index))
    (reg_terms : list (list R)) : action LinearModel (list R) :=
  let mat := Numpy.stack_transpose (length t) reg_terms in
  '(p, ssr) ← lift (lstsq mat y);
  _ ← mapM (fun '(k, idx) =>
              v ← lift (getitem p idx);
              modify (set_parameters (insert k v)))
           reg_idx;
  mret ssr.

(** [LinearNoTrendFourier._fit], inherited by [LinearTrendFourier] *)
Definition _fit_linear (t y : list R) : action LinearModel fit_result :=
  self ← get;
  let '(reg_idx, reg_terms) :=
    match class_of self with
    | LinearNoTrendFourier => _regressor_terms_no_trend (f_order self) t
    | _ => _regressor_terms_trend (f_order self) t
    end in
  ssr ← _solve_lstsq t y reg_idx reg_terms;
  match ssr with
  | ssr0 :: _ => mret (FitSSR ssr0)
  | [] => raise IndexError
  end.

(** The closure [solve_for_location] of [LinearBrokenTrendFourier._fit] *)
Definition solve_for_location (t y : list R) (t_break : R)
  : action LinearModel float_ext :=
  self ← get;
  let '(reg_idx, reg_terms) :=
    _regressor_terms_broken_trend (f_order self) t t_break in
  ssr ← _solve_lstsq t y reg_idx reg_terms;
  match ssr with
  | [] => mret Infinity
  | ssr0 :: _ => mret (Finite ssr0)
  end.

(** [self._parameters['t_break']] used as a float *)
Definition get_t_break (self : LinearModel) : result R :=
  match _parameters self !! "t_break" with
  | Some (VFloat t_break) => Ok t_break
  | Some _ => Raise TypeError
  | None => Raise TypeError
  end.

(** The first part of [LinearBrokenTrendFourier._fit]: when the break
    location is to be fitted, the optimizer is run on [solve_for_location]
    and its best location is stored.  The evaluations of
    [solve_for_location] made by the optimizer write the parameters of the
    model; they are replayed on the model in the order the optimizer made
    them. *)
Definition locate_break (t y : list R)
  : action LinearModel (option OptimizeResult) :=
  self ← get;
  if _fit_t_break self then
    bounds ← match _opt_bounds self with
             | None =>
                 match t !! 1%nat, last t with
                 | Some lo, Some hi => mret [(lo, hi)]
                 | _, _ => raise IndexError
                 end
             | Some b => mret [b]
             end;
    let kwargs := _opt_kwargs self ∪ {[ "maxiter" := AInt 500 ]} in
    '(evaluated, res) ←
      lift (dual_annealing
              (fun t_break => fst (solve_for_location t y t_break self))
              bounds kwargs);
    _ ← mapM (solve_for_location t y) evaluated;
    x0 ← match res_x res !! 0%nat with
         | Some x0 => mret x0
         | None => raise IndexError
         end;
    _ ← modify (set_parameters (insert "t_break" (VFloat x0)));
    mret (Some res)
  else mret None.

(** The second part: "rerun lstsq to properly set other parameter values",
    at the location now stored. *)
Definition final_resolve (t y : list R) : action LinearModel (list R) :=
  self ← get;
  t_break ← lift (get_t_break self);
  let '(reg_idx, reg_terms) :=
    _regressor_terms_broken_trend (f_order self) t t_break in
  _solve_lstsq t y reg_idx reg_terms.

(** [LinearBrokenTrendFourier._fit] *)
Definition _fit_broken_trend (t y : list R) : action LinearModel fit_result :=
  res ← locate_break t y;
  res_lstsq ← final_resolve t y;
  match res with
  | Some res => mret (FitOptimize res)
  | None => mret (FitResiduals res_lstsq)
  end.

Definition _fit (t y : list R) : action LinearModel fit_result :=
  self ← get;
  match class_of self with
  | LinearBrokenTrendFourier => _fit_broken_trend t y
  | _ => _fit_linear t y
  end.

(** [_compute_y]; [np.empty] is modelled by an array of zeros, every entry
    of which is then written through [reg_idx]. *)
Definition _compute_y (self : LinearModel) (t : list R)
    (reg_idx : list (string * index)) (reg_terms : list (list R))
  : result (list R) :=
  p ← foldl (fun acc '(k, idx) =>
               p ← acc;
               match _parameters self !! k with
               | Some v => setitem p idx v
               | None => Raise IndexError
               end)
            (Ok (replicate (length reg_terms) 0%R)) reg_idx;
  Ok (Numpy.matvec (Numpy.stack_transpose (length t) reg_terms) p).

Definition _predict (self : LinearModel) (t : list R) : result (list R) :=
  match class_of self with
  | LinearNoTrendFourier =>
      let '(reg_idx, reg_terms) := _regressor_terms_no_trend (f_order self) t in
      _compute_y self t reg_idx reg_terms
  | LinearTrendFourier =>
      let '(reg_idx, reg_terms) := _regressor_terms_trend (f_order self) t in
      _compute_y self t reg_idx reg_terms
  | LinearBrokenTrendFourier =>
      t_break ← get_t_break self;
      let '(reg_idx, reg_terms) :=
        _regressor_terms_broken_trend (f_order self) t t_break in
      _compute_y self t reg_idx reg_terms
  end.

(** The linear models as estimators, through [BaseEstimator]. *)
Definition fit (t y : list R) : action LinearModel fit_result :=
  Base.fit base set_base _fit _predict t y.

Definition predict (self : LinearModel) (t : list R) : result (list R) :=
  Base.predict base _predict self t.

#[local] Instance linear_estimator : Estimator LinearModel := {|
  model_fit t y := _ ← fit t y; mret tt;
  model_predict := predict;
  model_base := base;
  model_parameters := _parameters;
|}.

End Solvers.

End Models.

(** ** [trendfit.models._models]: kernel regression *)

Module Kernel.

Import Base.

(** [epanechnikov_kernel(u)] on one entry of [u]: the weight
    [3 / 4 * (1 - u**2)] times the mask [np.abs(u) <= 1.] *)
Definition epanechnikov_kernel (u : R) : R :=
  (3 / 4 * (1 - u ^ 2) * (if Rle_dec (Rabs u) 1 then 1 else 0))%R.

(** The [kernel] argument of [KernelTrend]: a name, a callable, or any other
    object.  A callable is taken to act on an array entry by entry, as
    [epanechnikov_kernel] does. *)
Inductive kernel_arg : Type :=
| KernelName (name : string)
| KernelCallable (f : R -> R)
| KernelOther.

Definition valid_kernels : gmap string (R -> R) :=
  {[ "epanechnikov" := epanechnikov_kernel ]}.

(** The attribute [_t_scaled] exists once [_fit] has set it. *)
Record KernelTrend : Type := mkKernelTrend {
  kernel_func : R -> R;
  _parameters : gmap string pyvalue;
  _t_scaled : option (list R);
  base : fields;
}.

Definition set_parameters (f : gmap string pyvalue -> gmap string pyvalue)
    (self : KernelTrend) : KernelTrend :=
  {| kernel_func := kernel_func self; _parameters := f (_parameters self);
     _t_scaled := _t_scaled self; base := base self |}.

Definition set_t_scaled (t_scaled : list R) (self : KernelTrend) : KernelTrend :=
  {| kernel_func := kernel_func self; _parameters := _parameters self;
     _t_scaled := Some t_scaled; base := base self |}.

Definition set_base (b : fields) (self : KernelTrend) : KernelTrend :=
  {| kernel_func := kernel_func self; _parameters := _parameters self;
     _t_scaled := _t_scaled self; base := b |}.

(** [KernelTrend.__init__(kernel, bandwidth)]; [bandwidth] is a float or
    [None]. *)
Definition init (kernel : kernel_arg) (bandwidth : option R)
  : result KernelTrend :=
  kernel_func ← match kernel with
                | KernelName name =>
                    match valid_kernels !! name with
                    | Some f => Ok f
                    | None => Raise ValueError
                    end
                | KernelCallable f => Ok f
                | KernelOther => Raise ValueError
                end;
  Ok {| kernel_func := kernel_func;
        _parameters :=
          {[ "bandwidth" := match bandwidth with
                            | Some b => VFloat b
                            | None => VNone
                            end ]};
        _t_scaled := None; base := unfitted |}.

(** [np.subtract.outer(tau, t)] *)
Definition subtract_outer (tau t : list R) : list (list R) :=
  map (fun x => map (fun tj => (x - tj)%R) t) tau.

(** [np.sum(k, axis=1)] *)
Definition row_sums (k : list (list R)) : list R :=
  map (foldr Rplus 0%R) k.

(** [self._parameters['bandwidth']] used as a divisor *)
Definition get_bandwidth (self : KernelTrend) : result R :=
  match _parameters self !! "bandwidth" with
  | Some (VFloat bandwidth) => Ok bandwidth
  | Some _ => Raise TypeError
  | None => Raise TypeError
  end.

(** [_local_constant(t, y, tau=None)].  The product [k @ y] needs as many
    responses as time points.  Where numpy divides by zero it yields [inf]
    or [nan], which the reals do not have: the model stands for the code
    where no divisor is zero, and the statements about it say so. *)
Definition _local_constant (self : KernelTrend) (t y : list R)
    (tau : option (list R)) : result (list R) :=
  let tau := match tau with None => t | Some tau => tau end in
  let pairwise_dists := subtract_outer tau t in
  bandwidth ← get_bandwidth self;
  let k := map (map (fun d => kernel_func self (d / bandwidth)%R))
               pairwise_dists in
  if (length y =? length t)%nat
  then Ok (zip_with Rdiv (Numpy.matvec k y) (row_sums k))
  else Raise ValueError.

(** [(t - t_ref[0]) / (t_ref[-1] - t_ref[0])] *)
Definition scaled (t t_ref : list R) : result (list R) :=
  match head t_ref, last t_ref with
  | Some t0, Some tn => Ok (map (fun x => ((x - t0) / (tn - t0))%R) t)
  | _, _ => Raise IndexError
  end.

(** [KernelTrend._fit] *)
Definition _fit (t y : list R) : action KernelTrend unit :=
  t_scaled ← lift (scaled t t);
  _ ← modify (set_t_scaled t_scaled);
  self ← get;
  trend ← lift (_local_constant self t_scaled y None);
  modify (set_parameters (insert "trend" (VArray trend))).

(** What [_predict] comes to: Python's [AttributeError] when [_t_scaled]
    has not been set, or the outcome of the computation. *)
Inductive prediction : Type :=
| AttributeError
| Predicted (r : result (list R)).

(** [KernelTrend._predict]; [self._t] and [self._y] are the data of the last
    fit, kept by [BaseEstimator]. *)
Definition _predict (self : KernelTrend) (t : list R) : prediction :=
  match scaled t (_t (base self)) with
  | Raise e => Predicted (Raise e)
  | Ok t_scaled =>
      match _t_scaled self with
      | None => AttributeError
      | Some self_t_scaled =>
          Predicted (_local_constant self self_t_scaled (_y (base self))
                       (Some t_scaled))
      end
  end.

End Kernel.

(** ** [trendfit.bootstrap._bootstrap] *)

Module Bootstrap.

Import Base.

(** [n_blocks = max(t.size // self.block_size, 1)]; Python's [//] on
    integers is floor division, as [Z.div], and raises on a zero divisor. *)
Definition n_blocks (size : nat) (block_size : Z) : result Z :=
  if (block_size =? 0)%Z then Raise ZeroDivisionError
  else Ok (Z.max (Z.of_nat size / block_size) 1).

(** [np.array_split(x, n_blocks)] as [_generate_bootstrap_err] applies it
    to [t], [residuals] and [iid]. *)
Definition blocks {A} (x : list A) (size : nat) (block_size : Z)
  : result (list (list A)) :=
  k ← n_blocks size block_size; Numpy.array_split x k.

(** [_cholesky_decomposition(t, gamma)] *)
Definition correlation_matrix (t : list R) (gamma : R) : list (list R) :=
  let mat := Numpy.triu (Numpy.power_outer gamma t) in
  let mat := Numpy.fill_diagonal mat (5 / 10)%R in
  Numpy.madd mat (Numpy.transpose (length mat) mat).

Definition _cholesky_decomposition (t : list R) (gamma : R)
  : result (list (list R)) :=
  Numpy.cholesky (correlation_matrix t gamma).

(** The matrices that the factorisation of a correlation matrix goes
    through, [gamma^|ti - tj| - c gamma^(ti + tj)]; the correlation matrix
    of an increasing grid is the one with [c = 0]. *)
Definition schur_kernel (gamma c : R) (t : list R) : list (list R) :=
  map (fun ti =>
         map (fun tj => (Rpower gamma (Rabs (ti - tj))
                         - c * Rpower gamma (ti + tj))%R) t) t.

(** The autoregressive coefficient of [_generate_bootstrap_err] when
    [ar_coef] is [None]; [size] is [t.size].  A size of zero makes the
    Python float division raise. *)
Definition default_gamma (size : nat) : result R :=
  if (size =? 0)%nat then Raise ZeroDivisionError
  else
    let th := Numpy.power (1 / 100)
                (1 / (175 / 100 * Numpy.power (INR size) (1 / 3)))%R in
    let l := (1 / (36525 / 100))%R in
    Ok (Numpy.power th (1 / l)%R).

(** The default coefficient for a series of [n >= 1] points, in closed
    form. *)
Definition gamma_of (n : nat) : R :=
  Rpower (Rpower (1 / 100) (1 / (175 / 100 * Rpower (INR n) (1 / 3))))%R
         (1 / (1 / (36525 / 100)))%R.

(** The closure [_gen_errors_block]: [(L @ iidb).ravel() * rb] *)
Definition _gen_errors_block (gamma : R) (tb rb iidb : list R)
  : result (list R) :=
  L ← _cholesky_decomposition tb gamma;
  Ok (Numpy.vmul (Numpy.matvec L iidb) rb).

(** The coefficient that [_generate_bootstrap_err] hands to every block. *)
Definition block_gamma (ar_coef : option R) (t : list R) : result R :=
  match ar_coef with
  | None => default_gamma (length t)
  | Some ar_coef => Ok ar_coef
  end.

(** The part of [_generate_bootstrap_err] that follows the draw of [iid]:
    the three arrays are split alike and the errors of the blocks, all
    generated with the one [gamma], are concatenated. *)
Definition blockwise_errors (block_size : Z) (gamma : R)
    (t residuals iid : list R) : result (list R) :=
  k ← n_blocks (length t) block_size;
  t_blocks ← Numpy.array_split t k;
  residuals_blocks ← Numpy.array_split residuals k;
  iid_blocks ← Numpy.array_split iid k;
  errors ← mapM (fun '(tb, rb, iidb) => _gen_errors_block gamma tb rb iidb)
                (zip (zip t_blocks residuals_blocks) iid_blocks);
  match errors with
  | [] => Raise ValueError
  | _ => Ok (concat errors)
  end.

(** [BlockARWild._generate_bootstrap_err(t, residuals, random_state)] *)
Definition _generate_bootstrap_err (block_size : Z) (ar_coef : option R)
    (t residuals : list R) : action Numpy.RandomState (list R) :=
  gamma ← lift (block_gamma ar_coef t);
  iid ← Numpy.normal (length t);
  lift (blockwise_errors block_size gamma t residuals iid).

(** The classes of the module; [AbstractBootstrap] is [BootstrapEstimator]
    itself, whose [_generate_bootstrap_sample] is not implemented. *)
Inductive bootstrap_class : Type :=
| AbstractBootstrap
| ResidualResampling
| BlockARWild (block_size : Z) (ar_coef : option R).

(** References to Python objects. *)
Definition loc : Type := positive.

Section Engine.

Context {M : Type} `{!Estimator M}.

(** [OPTIONS['use_dask']], from [trendfit.options] *)
Variable use_dask : bool.

(** The generators that [np.random.RandomState()] seeds from the operating
    system, in the order of the calls, and those it seeds from an integer. *)
Variable entropy : nat -> Numpy.RandomState.
Variable seeded : Z -> Numpy.RandomState.

(** The objects that the engine shares with its caller or creates: models
    and random generators live in a store and are held by reference, so that
    [copy.deepcopy] and mutation through a reference mean what they mean in
    Python. *)
Inductive object : Type :=
| OModel (m : M)
| ORandomState (rs : Numpy.RandomState).

Record BootstrapEstimator : Type := mkEstimator {
  class_of : bootstrap_class;
  model : loc;
  n_samples : Z;
  save_models : bool;
  random_state : loc;
  _parameter_dists : gmap string (list pyvalue);
  _models : list loc;
  base : fields;
}.

Record World : Type := mkWorld {
  heap : gmap loc object;
  entropy_used : nat;
  self : BootstrapEstimator;
}.

Definition set_heap (f : gmap loc object -> gmap loc object) (w : World)
  : World :=
  {| heap := f (heap w); entropy_used := entropy_used w; self := self w |}.

Definition set_self (f : BootstrapEstimator -> BootstrapEstimator) (w : World)
  : World :=
  {| heap := heap w; entropy_used := entropy_used w; self := f (self w) |}.

Definition set_base (b : fields) (w : World) : World :=
  set_self (fun e =>
    {| class_of := class_of e; model := model e; n_samples := n_samples e;
       save_models := save_models e; random_state := random_state e;
       _parameter_dists := _parameter_dists e; _models := _models e;
       base := b |}) w.

(** A new object gets a reference that no object of the store has. *)
Definition alloc (o : object) : action World loc :=
  fun w =>
    let l := fresh (dom (heap w)) in
    (Ok l, set_heap (insert l o) w).

Definition read_model (l : loc) : action World M :=
  w ← get;
  match heap w !! l with
  | Some (OModel m) => mret m
  | _ => raise TypeError
  end.

(** A method call on the model behind a reference: the model is updated in
    the store. *)
Definition on_model {A} (l : loc) (c : action M A) : action World A :=
  m ← read_model l;
  fun w =>
    let '(r, m') := c m in
    (r, set_heap (insert l (OModel m')) w).

Definition on_random_state {A} (l : loc) (c : action Numpy.RandomState A)
  : action World A :=
  fun w =>
    match heap w !! l with
    | Some (ORandomState rs) =>
        let '(r, rs') := c rs in
        (r, set_heap (insert l (ORandomState rs')) w)
    | _ => (Raise TypeError, w)
    end.

(** [np.random.RandomState()] *)
Definition new_random_state : action World loc :=
  w ← get;
  _ ← put {| heap := heap w; entropy_used := S (entropy_used w);
             self := self w |};
  alloc (ORandomState (entropy (entropy_used w))).

(** The [random_state] argument of the constructor: a generator, a seed or
    [None]. *)
Inductive random_state_arg : Type :=
| RSInstance (l : loc)
| RSSeed (seed : Z)
| RSNone.

(** [__init__(model, n_samples, random_state, save_models)] of class [cls],
    in a store [h]. *)
Definition init (h : gmap loc object) (used : nat) (cls : bootstrap_class)
    (model : loc) (n_samples : Z) (random_state : random_state_arg)
    (save_models : bool) : World :=
  let '(rs, h', used') :=
    match random_state with
    | RSInstance l => (l, h, used)
    | RSSeed seed =>
        let l := fresh (dom h) in
        (l, <[l := ORandomState (seeded seed)]> h, used)
    | RSNone =>
        let l := fresh (dom h) in
        (l, <[l := ORandomState (entropy used)]> h, S used)
    end in
  {| heap := h'; entropy_used := used';
     self := {| class_of := cls; model := model; n_samples := n_samples;
                save_models := save_models; random_state := rs;
                _parameter_dists := ∅; _models := []; base := unfitted |} |}.

(** [_generate_bootstrap_sample(random_state)] of the three classes; the
    method of the base class takes no argument besides [self]. *)
Definition _generate_bootstrap_sample (rs : loc) : action World (list R) :=
  w ← get;
  match class_of (self w) with
  | AbstractBootstrap => raise TypeError
  | ResidualResampling =>
      m ← read_model (model (self w));
      let errors := residuals (model_base m) in
      errors ← on_random_state rs (Numpy.shuffle errors);
      mret (Numpy.vadd (_y_predict (model_base m)) errors)
  | BlockARWild block_size ar_coef =>
      m ← read_model (model (self w));
      errors ← on_random_state rs
                 (_generate_bootstrap_err block_size ar_coef
                    (_t (model_base m)) (residuals (model_base m)));
      mret (Numpy.vadd (_y_predict (model_base m)) errors)
  end.

Definition generate_bootstrap_sample (rs : option loc)
  : action World (list R) :=
  w ← get;
  m ← read_model (model (self w));
  if negb (_fitted (model_base m)) then raise ValueError
  else
    let rs :=
      match rs with
      | None => random_state (self w)
      | Some rs => rs
      end in
    _generate_bootstrap_sample rs.

(** The closure [fit_sample] of [_fit] *)
Definition fit_sample (t : list R) (rs : option loc)
  : action World (option loc * gmap string pyvalue) :=
  w ← get;
  m ← read_model (model (self w));
  mb ← alloc (OModel m);
  yb ← generate_bootstrap_sample rs;
  _ ← on_model mb (model_fit t yb);
  mb_now ← read_model mb;
  let pb := model_parameters mb_now in
  if save_models (self w) then mret (Some mb, pb) else mret (None, pb).

(** [for k, v in pb.items(): self._parameter_dists[k].append(v)] on a
    [defaultdict(list)] *)
Definition append_parameters (pb : gmap string pyvalue)
    (dists : gmap string (list pyvalue)) : gmap string (list pyvalue) :=
  merge (fun old new =>
           match new with
           | Some v => Some (default [] old ++ [v])
           | None => old
           end) dists pb.

Definition record_sample (r : option loc * gmap string pyvalue)
    (e : BootstrapEstimator) : BootstrapEstimator :=
  {| class_of := class_of e; model := model e; n_samples := n_samples e;
     save_models := save_models e; random_state := random_state e;
     _parameter_dists := append_parameters r.2 (_parameter_dists e);
     _models := (if save_models e
                 then match r.1 with
                      | Some mb => _models e ++ [mb]
                      | None => _models e
                      end
                 else _models e);
     base := base e |}.

(** The list [res] of [_fit]: the results of [n_samples] calls of
    [fit_sample], in the order of the calls.  With dask every draw gets a
    generator of its own, created when the task list is built; the tasks
    touch only the copy they make, and are run here one after the other. *)
Definition draws (t : list R)
  : action World (list (option loc * gmap string pyvalue)) :=
  w ← get;
  if use_dask then
    rss ← mapM (fun _ => new_random_state)
               (seq 0 (Z.to_nat (n_samples (self w))));
    mapM (fun rs => fit_sample t (Some rs)) rss
  else
    mapM (fun _ => fit_sample t None)
         (seq 0 (Z.to_nat (n_samples (self w)))).

(** [BootstrapEstimator._fit(t, y)] *)
Definition _fit (t y : list R) : action World unit :=
  w ← get;
  _ ← on_model (model (self w)) (model_fit t y);
  res ← draws t;
  modify (set_self (fun e => foldl (fun e r => record_sample r e) e res)).

Definition _predict (w : World) (t : list R) : result (list R) :=
  match heap w !! model (self w) with
  | Some (OModel m) => model_predict m t
  | _ => Raise TypeError
  end.

Definition fit (t y : list R) : action World unit :=
  Base.fit (fun w => base (self w)) set_base _fit _predict t y.

(** [get_ci_bounds(confidence_level)] *)
Definition ci_bounds_of (confidence_level : R) (v : list pyvalue)
  : result (pyvalue * pyvalue) :=
  let alpha := (1 - confidence_level)%R in
  lower ← Numpy.quantile v (alpha / 2)%R;
  upper ← Numpy.quantile v (1 - alpha / 2)%R;
  Ok (lower, upper).

Definition get_ci_bounds (confidence_level : R)
  : action World (gmap string (pyvalue * pyvalue)) :=
  w ← get;
  if negb (_fitted (base (self w))) then raise ValueError
  else
    ci_bounds ← lift (mapM (fun '(k, v) =>
                              b ← ci_bounds_of confidence_level v;
                              Ok (k, b))
                           (map_to_list (_parameter_dists (self w))));
    mret (list_to_map ci_bounds).

(** [extends w w']: [w'] has the engine and every model object of [w]
    unchanged, and all the objects of [w]; what is new in [w'] are objects
    created since [w] and the states of generators. *)
Definition extends (w w' : World) : Prop :=
  self w' = self w /\
  (forall l m, heap w !! l = Some (OModel m) -> heap w' !! l = Some (OModel m)) /\
  (forall l, is_Some (heap w !! l) -> is_Some (heap w' !! l)).

(** What a draw leaves behind, seen from the start [w1] and the end [w2] of
    the loop of draws: a model object that is new since [w1], holding at
    [w2] the copy of [m1] refitted on some sample, whose parameters are the
    result [r] of the draw. *)
Definition draw_of (t : list R) (m1 : M) (w1 w2 : World)
    (r : option loc * gmap string pyvalue) : Prop :=
  exists mb yb m_fit,
    heap w1 !! mb = None /\
    model_fit t yb m1 = (Ok tt, m_fit) /\
    heap w2 !! mb = Some (OModel m_fit) /\
    r = (if save_models (self w1) then Some mb else None,
         model_parameters m_fit).

(** The values recorded for parameter [k]. *)
Definition dist (e : BootstrapEstimator) (k : string) : list pyvalue :=
  default [] (_parameter_dists e !! k).

(** [same_record w w']: the engine's own record (its attributes, the
    recorded distributions and the saved models) is in [w'] what it is in
    [w]. *)
Definition same_record (w w' : World) : Prop := self w' = self w.

(** [writes_only l w w']: from [w] to [w'] no object but the one at [l] was
    written and none was created, and the engine's record is the same. *)
Definition writes_only (l : loc) (w w' : World) : Prop :=
  self w' = self w /\ entropy_used w' = entropy_used w /\
  forall l', l' <> l -> heap w' !! l' = heap w !! l'.

End Engine.

End Bootstrap.

(** ** Concrete solvers, models and engines for the examples *)

Module Examples.

(** Least squares in closed form for the two shapes that the examples use:
    a design with one column [a] and at least two rows, whose solution is
    [a.y / a.a] with one residual sum, and a design with one row [a], whose
    minimum-norm solution is [a y0 / a.a] and which has no residual sum
    (the system has no more rows than columns).  Other shapes are outside
    these examples. *)
Definition lstsq (mat : list (list R)) (y : list R)
  : result (list R * list R) :=
  match mat, y with
  | [a], [y0] =>
      Ok (map (fun ai => (ai * y0 / Numpy.dot a a)%R) a, [])
  | _ :: _ :: _, _ =>
      if forallb (fun row => (length row =? 1)%nat) mat
         && (length mat =? length y)%nat
      then
        let a := map (fun row => hd 0%R row) mat in
        let p := (Numpy.dot a y / Numpy.dot a a)%R in
        let r := zip_with (fun ai yi => (yi - ai * p)%R) a y in
        Ok ([p], [Numpy.dot r r])
      else Raise LinAlgError
  | _, _ => Raise LinAlgError
  end.

(** An optimizer that is never reached: the examples give the break
    location or use a model without one. *)
Definition dual_annealing (func : R -> result float_ext)
    (bounds : list (R * R)) (kwargs : gmap string Models.pyarg)
  : result (list R * Models.OptimizeResult) :=
  Raise ValueError.

#[global] Instance estimator : Base.Estimator Models.LinearModel :=
  Models.linear_estimator lstsq dual_annealing.

(** A generator whose raw outputs count up from zero. *)
Definition generator : Numpy.RandomState :=
  {| Numpy.words := fun i => i; Numpy.gauss := fun i => INR i;
     Numpy.cursor := 0 |}.

Definition t2 : list R := [0; 1]%R.
Definition y2 : list R := [1; 3]%R.

(** The intercept-only model, new and after [fit(t2, y2)]. *)
Definition new_model : Models.LinearModel := Models.init_no_trend 0.

Definition fitted_model : Models.LinearModel :=
  (Models.fit lstsq dual_annealing t2 y2 new_model).2.

(** A residual-resampling engine around the model at reference 1. *)
Definition engine (m : Models.LinearModel) (n_samples : Z) (save_models : bool)
  : Bootstrap.World (M:=Models.LinearModel) :=
  Bootstrap.init (fun _ => generator) (fun _ => generator)
    {[ 1%positive := Bootstrap.OModel m ]} 0
    Bootstrap.ResidualResampling 1%positive n_samples (Bootstrap.RSSeed 0)
    save_models.

(** One observation, and the broken-trend model without Fourier terms whose
    break is given at 0: the design has one row and three columns. *)
Definition t1 : list R := [0]%R.
Definition y1 : list R := [1]%R.

Definition broken_model : Models.LinearModel :=
  Models.init_broken_trend 0 (Some 0%R) None ∅.

Definition design1 : list (list R) :=
  Numpy.stack_transpose (length t1)
    (Models._regressor_terms_broken_trend 0 t1 0%R).2.

Definition solution1 : list R :=
  match lstsq design1 y1 with
  | Ok (p, _) => p
  | Raise _ => []
  end.

(** The engine's [_fit(t2, y2)], without dask. *)
Definition run_fit (w : Bootstrap.World (M:=Models.LinearModel))
  : result unit * Bootstrap.World (M:=Models.LinearModel) :=
  Bootstrap._fit false (fun _ => generator) t2 y2 w.

Definition engine_fitted_once : Bootstrap.World (M:=Models.LinearModel) :=
  (run_fit (engine new_model 2 false)).2.

Definition engine_fitted_twice : Bootstrap.World (M:=Models.LinearModel) :=
  (run_fit engine_fitted_once).2.

(** The engine after [fit(t2, y2)] on a new engine with two draws. *)
Definition engine_after_fit : Bootstrap.World (M:=Models.LinearModel) :=
  (Bootstrap.fit false (fun _ => generator) t2 y2
     (engine new_model 2 false)).2.

(** The draws recorded for the intercept by that fit. *)
Definition intercept_draws : list R :=
  omap Numpy.as_float
    (Bootstrap.dist (Bootstrap.self engine_after_fit) "intercept").

(** An optimizer that evaluates the objective at the lower bound and
    returns that point. *)
Definition probe_optimizer (func : R -> result float_ext)
    (bounds : list (R * R)) (kwargs : gmap string Models.pyarg)
  : result (list R * Models.OptimizeResult) :=
  match bounds with
  | (lo, _) :: _ =>
      v ← func lo;
      Ok ([lo], {| Models.res_x := [lo]; Models.res_fun := v |})
  | [] => Raise ValueError
  end.

(** The broken-trend model without Fourier terms whose break is to be
    fitted, within [[0, 1]] and without bounds. *)
Definition bounded_model : Models.LinearModel :=
  Models.init_broken_trend 0 None (Some (0, 1)%R) ∅.

Definition unbounded_model : Models.LinearModel :=
  Models.init_broken_trend 0 None None ∅.

(** A trend model of order one with given coefficients. *)
Definition trend_model : Models.LinearModel :=
  Models.set_parameters
    (fun _ => {[ "fourier_terms" := VArray [1; 2]%R; "intercept" := VFloat 3;
                 "trend" := VFloat 4 ]})
    (Models.init_trend 1).

(** An engine of a given class around the model at reference 1. *)
Definition engine_of (cls : Bootstrap.bootstrap_class) (m : Models.LinearModel)
    (n_samples : Z) (save_models : bool)
  : Bootstrap.World (M:=Models.LinearModel) :=
  Bootstrap.init (fun _ => generator) (fun _ => generator)
    {[ 1%positive := Bootstrap.OModel m ]} 0
    cls 1%positive n_samples (Bootstrap.RSSeed 0) save_models.

(** The engine that saves its two refitted copies, after [_fit(t2, y2)]. *)
Definition engine_saving : Bootstrap.World (M:=Models.LinearModel) :=
  (run_fit (engine new_model 2 true)).2.

(** The engine after [_fit(t1, y1)], which fails: one observation leaves the
    least-squares solve of the model without residual. *)
Definition engine_failed : Bootstrap.World (M:=Models.LinearModel) :=
  (Bootstrap._fit false (fun _ => generator) t1 y1
     (engine new_model 2 false)).2.

(** The kernel regression with the Epanechnikov kernel and bandwidth 1, new
    and holding the data [(t2, y2)] as [BaseEstimator.fit] records them. *)
Definition kernel_model : Kernel.KernelTrend :=
  {| Kernel.kernel_func := Kernel.epanechnikov_kernel;
     Kernel._parameters := {[ "bandwidth" := VFloat 1 ]};
     Kernel._t_scaled := None; Kernel.base := Base.unfitted |}.

Definition kernel_model_with_data : Kernel.KernelTrend :=
  Kernel.set_base
    {| Base._t := t2; Base._y := y2; Base._y_predict := [];
       Base._fitted := false |} kernel_model.

End Examples.

(** * Properties *)

(** ** Code in the result and action monads *)

Ltac unfold_action :=
  unfold mbind, mret, action_bind, action_ret, result_bind, result_ret,
    get, put, modify, raise, lift in *.

Section ActionLemmas.

Context {S : Type}.

Lemma bind_Ok_inv {A B} (c : action S A) (k : A -> action S B) s b s' :
  (c ≫= k) s = (Ok b, s') ->
  exists a s1, c s = (Ok a, s1) /\ k a s1 = (Ok b, s').
Proof.
  unfold mbind, action_bind. destruct (c s) as [[a|e] s1]; intros E.
  - by exists a, s1.
  - discriminate.
Qed.

Lemma bind_Ok {A B} (c : action S A) (k : A -> action S B) s a s1 :
  c s = (Ok a, s1) -> (c ≫= k) s = k a s1.
Proof. unfold mbind, action_bind. by intros ->. Qed.

Lemma lift_Ok_inv {A} (r : result A) (s : S) a s' :
  lift r s = (Ok a, s') -> r = Ok a /\ s' = s.
Proof. unfold lift. by intros [= -> ->]. Qed.

(** A loop of [mapM] that returns: the states it goes through are related
    by any preorder that each step respects, and every result comes with the
    two states around the step that produced it. *)
Lemma mapM_Ok_inv {A B} (f : A -> action S B) (Rel : relation S)
    `{!PreOrder Rel} (Q : S -> B -> S -> Prop) (l : list A) s rs s' :
  (forall x s0 r s1, Rel s s0 -> f x s0 = (Ok r, s1) -> Rel s0 s1 /\ Q s0 r s1) ->
  mapM f l s = (Ok rs, s') ->
  Rel s s' /\ length rs = length l /\
  Forall (fun r => exists s0 s1, Rel s s0 /\ Rel s1 s' /\ Q s0 r s1) rs.
Proof.
  intros Hstep.
  enough (forall sa, Rel s sa -> mapM f l sa = (Ok rs, s') ->
            Rel sa s' /\ length rs = length l /\
            Forall (fun r => exists s0 s1, Rel s s0 /\ Rel s1 s' /\ Q s0 r s1) rs)
    as H by (apply H; reflexivity).
  revert rs. induction l as [|x l IH]; intros rs sa Hsa E.
  - cbn in E. injection E as <- <-. repeat split; [reflexivity | constructor].
  - cbn [mapM] in E.
    apply bind_Ok_inv in E as (r & s1 & E1 & E).
    apply bind_Ok_inv in E as (rs' & s2 & E2 & E).
    injection E as <- <-.
    destruct (Hstep _ _ _ _ Hsa E1) as [Hs1 HQ].
    destruct (IH _ s1 ltac:(by etrans) E2) as (Hs2 & Hlen & Hall).
    repeat split; [by etrans | cbn; lia |].
    constructor; [by exists sa, s1 | done].
Qed.

End ActionLemmas.

Lemma mapM_result_Ok_inv {A B} (f : A -> result B) (l : list A) (rs : list B) :
  mapM f l = Ok rs -> Forall2 (fun x r => f x = Ok r) l rs.
Proof.
  revert rs. induction l as [|x l IH]; intros rs; cbn.
  - intros [= <-]. constructor.
  - destruct (f x) as [r|] eqn:Hx; [|done]. cbn.
    destruct (mapM f l) as [rs'|]; [|done]. cbn.
    intros [= <-]. constructor; auto.
Qed.

Lemma mapM_result_Ok {A B} (f : A -> result B) (l : list A) :
  Forall (fun x => exists r, f x = Ok r) l -> exists rs, mapM f l = Ok rs.
Proof.
  induction 1 as [|x l [r Hr] _ [rs Hrs]]; cbn.
  - by exists [].
  - rewrite Hr. cbn. rewrite Hrs. cbn. by eexists.
Qed.

(** ** Block partition *)

Section ArraySplit.
Context {A : Type}.
Implicit Types (ary l : list A) (szs : list nat).

Lemma slices_reshape szs ary acc :
  map (fun i => Numpy.slice ary (nth i (acc :: Numpy.cumsum_from acc szs) 0%nat)
                  (nth (i + 1) (acc :: Numpy.cumsum_from acc szs) 0%nat))
      (seq 0 (length szs))
  = reshape szs (drop acc ary).
Proof.
  revert acc. induction szs as [|s szs IH]; intros acc; [done|].
  cbn [length seq map reshape Numpy.cumsum_from]. f_equal.
  - unfold Numpy.slice. cbn. f_equal. lia.
  - rewrite <- seq_shift, map_map, drop_drop, <- IH.
    apply map_ext. intros i. reflexivity.
Qed.

Lemma concat_reshape szs l :
  (sum_list szs = length l)%nat -> concat (reshape szs l) = l.
Proof.
  revert l. induction szs as [|s szs IH]; intros l H; cbn in *.
  - symmetry. by apply nil_length_inv.
  - rewrite IH; [apply take_drop|]. rewrite length_drop. lia.
Qed.

Lemma reshape_lookup_length szs l i blk s :
  (sum_list szs <= length l)%nat ->
  reshape szs l !! i = Some blk -> szs !! i = Some s -> length blk = s.
Proof.
  revert l i. induction szs as [|s' szs IH]; intros l i H Hb Hs; [done|].
  cbn in H. destruct i as [|i]; cbn in *.
  - injection Hb as <-. injection Hs as <-. rewrite length_take. lia.
  - eapply IH; eauto. rewrite length_drop. lia.
Qed.

End ArraySplit.

Lemma sum_list_app (l1 l2 : list nat) :
  sum_list (l1 ++ l2) = (sum_list l1 + sum_list l2)%nat.
Proof. induction l1; cbn; lia. Qed.

Lemma section_sizes_sum n k :
  (0 < k)%nat ->
  sum_list (replicate (n mod k) (S (n / k)) ++ replicate (k - n mod k) (n / k)) = n.
Proof.
  intros Hk. rewrite sum_list_app, !sum_list_replicate.
  pose proof (Nat.div_mod_eq n k). pose proof (Nat.mod_upper_bound n k). nia.
Qed.

Lemma array_split_reshape {A} (ary : list A) (k : nat) :
  (0 < k)%nat ->
  Numpy.array_split ary (Z.of_nat k)
  = Ok (reshape (replicate (length ary mod k) (S (length ary / k))
                ++ replicate (k - length ary mod k) (length ary / k)) ary).
Proof.
  intros Hk. unfold Numpy.array_split.
  destruct (Z.leb_spec (Z.of_nat k) 0); [lia|].
  rewrite Nat2Z.id. f_equal.
  unfold Numpy.cumsum, Numpy.section_sizes. cbn [Numpy.cumsum_from].
  set (szs := _ ++ _).
  assert (length szs = k) as Hlen.
  { unfold szs. rewrite length_app, !length_replicate.
    pose proof (Nat.mod_upper_bound (length ary) k). lia. }
  rewrite <- Hlen. apply (slices_reshape szs ary 0).
Qed.

Lemma ceil_div_mod n k i :
  (0 < k)%nat -> (i < n mod k)%nat -> ((n + k - 1) / k = S (n / k))%nat.
Proof.
  intros Hk Hi.
  pose proof (Nat.div_mod_eq n k) as E.
  pose proof (Nat.mod_upper_bound n k ltac:(lia)) as U.
  symmetry. apply (Nat.div_unique _ _ _ (n mod k - 1)); lia.
Qed.

(** C2. For a series of length n >= 1 and a block size b >= 1 the arrays are
    split into k = max(n // b, 1) consecutive blocks whose concatenation is
    the array itself (every index in exactly one block, in order); the first
    n mod k blocks hold ceil(n/k) elements and the others floor(n/k), every
    block is non-empty, two block sizes differ by at most one, and b >= n
    gives the single block made of the whole array. *)
Theorem C2_block_partition {A} (t : list A) (b : Z) :
  (1 <= length t)%nat -> (1 <= b)%Z ->
  let n := length t in
  let k := Z.to_nat (Z.max (Z.of_nat n / b) 1) in
  exists bs : list (list A),
    Bootstrap.blocks t n b = Ok bs /\
    length bs = k /\
    concat bs = t /\
    (forall i blk, bs !! i = Some blk ->
       length blk = if (i <? n mod k)%nat then ((n + k - 1) / k)%nat
                    else (n / k)%nat) /\
    (forall i blk, bs !! i = Some blk -> (1 <= length blk)%nat) /\
    (forall i j bi bj, bs !! i = Some bi -> bs !! j = Some bj ->
       (length bi <= S (length bj))%nat) /\
    ((Z.of_nat n <= b)%Z -> bs = [t]).
Proof.
  intros Hn Hb n k.
  assert (1 <= k)%nat as Hk1 by (unfold k; lia).
  assert (k <= n)%nat as Hkn.
  { unfold k. apply Z.max_case_strong; intros; [|lia].
    assert (Z.of_nat n / b <= Z.of_nat n)%Z; [|lia].
    apply Z.div_le_upper_bound; nia. }
  assert (Z.max (Z.of_nat n / b) 1 = Z.of_nat k) as Ek by (unfold k; lia).
  set (szs := replicate (n mod k) (S (n / k)) ++ replicate (k - n mod k) (n / k)).
  pose proof (Nat.mod_upper_bound n k ltac:(lia)) as Hmod.
  assert (Hsz : forall i s, szs !! i = Some s ->
            s = if (i <? n mod k)%nat then ((n + k - 1) / k)%nat else (n / k)%nat).
  { intros i s Hs. unfold szs in Hs.
    destruct (Nat.ltb_spec i (n mod k)) as [Hi|Hi].
    - rewrite lookup_app_l in Hs by (rewrite length_replicate; lia).
      apply lookup_replicate in Hs as [-> _]. symmetry. eapply ceil_div_mod; [lia | done].
    - rewrite lookup_app_r in Hs by (rewrite length_replicate; lia).
      by apply lookup_replicate in Hs as [-> _]. }
  assert (Hq : (1 <= n / k)%nat).
  { apply Nat.div_le_lower_bound; lia. }
  assert (Hlen : forall i blk, reshape szs t !! i = Some blk ->
            length blk = if (i <? n mod k)%nat then ((n + k - 1) / k)%nat
                         else (n / k)%nat).
  { intros i blk Hblk.
    assert (is_Some (szs !! i)) as [s Hs].
    { apply lookup_lt_is_Some. rewrite <- (length_reshape szs t).
      by eapply lookup_lt_Some. }
    rewrite <- (Hsz i s Hs). eapply reshape_lookup_length; eauto.
    unfold szs. rewrite section_sizes_sum; [done | lia]. }
  assert (Hbounds : forall i blk, reshape szs t !! i = Some blk ->
            (n / k <= length blk <= S (n / k))%nat).
  { intros i blk Hblk. rewrite (Hlen i blk Hblk).
    destruct (Nat.ltb_spec i (n mod k)) as [Hi|Hi]; [|lia].
    rewrite (ceil_div_mod n k i) by lia. lia. }
  exists (reshape szs t). repeat split.
  - unfold Bootstrap.blocks, Bootstrap.n_blocks.
    destruct (Z.eqb_spec b 0); [lia|]. cbn. fold n. rewrite Ek.
    apply array_split_reshape. lia.
  - rewrite length_reshape. unfold szs. rewrite length_app, !length_replicate. lia.
  - apply concat_reshape. unfold szs. rewrite section_sizes_sum; [done | lia].
  - exact Hlen.
  - intros i blk Hblk. pose proof (Hbounds i blk Hblk). lia.
  - intros i j bi bj Hi Hj.
    pose proof (Hbounds i bi Hi). pose proof (Hbounds j bj Hj). lia.
  - intros Hbn.
    assert (k = 1%nat) as Ek1.
    { unfold k. destruct (Z.eq_dec (Z.of_nat n) b) as [<-|Hne].
      - rewrite Z.div_same by lia. lia.
      - rewrite Z.div_small by lia. lia. }
    unfold szs. rewrite Ek1, Nat.mod_1_r, Nat.div_1_r. cbn.
    f_equal. apply firstn_all.
Qed.

(** The three arrays of [_generate_bootstrap_err] are cut by [blocks], with
    the number of blocks that the length of [t] gives. *)
Lemma blockwise_errors_blocks (block_size : Z) (gamma : R)
    (t residuals iid : list R) :
  Bootstrap.blockwise_errors block_size gamma t residuals iid
  = (t_blocks ← Bootstrap.blocks t (length t) block_size;
     residuals_blocks ← Bootstrap.blocks residuals (length t) block_size;
     iid_blocks ← Bootstrap.blocks iid (length t) block_size;
     errors ← mapM (fun '(tb, rb, iidb) =>
                      Bootstrap._gen_errors_block gamma tb rb iidb)
                   (zip (zip t_blocks residuals_blocks) iid_blocks);
     match errors with
     | [] => Raise ValueError
     | _ => Ok (concat errors)
     end).
Proof.
  unfold Bootstrap.blockwise_errors, Bootstrap.blocks.
  destruct (Bootstrap.n_blocks (length t) block_size) as [k|e]; [|done].
  cbn. destruct (Numpy.array_split t k) as [t_blocks|e]; [|done].
  cbn. destruct (Numpy.array_split residuals k) as [r_blocks|e]; done.
Qed.

(** An instance of C2: ten points in blocks of three. *)
Lemma C2_block_partition_witness :
  exists bs : list (list nat),
    Bootstrap.blocks (seq 0 10) 10 3 = Ok bs /\ length bs = 3%nat /\
    concat bs = seq 0 10.
Proof.
  destruct (C2_block_partition (seq 0 10) 3) as (bs & H1 & H2 & H3 & _).
  - cbn. lia.
  - lia.
  - exists bs. repeat split; assumption.
Defined.

(** ** The autoregressive coefficient of the block bootstrap *)

Section Gamma.

#[local] Open Scope R_scope.

Lemma power_pos (x y : R) :
  0 < x -> Numpy.power x y = Rpower x y /\ 0 < Numpy.power x y.
Proof.
  intros Hx. unfold Numpy.power.
  destruct (Req_dec_T x 0) as [E|_]; [lra|].
  split; [done|]. unfold Rpower. apply exp_pos.
Qed.

Lemma default_gamma_Ok (n : nat) :
  (1 <= n)%nat -> Bootstrap.default_gamma n = Ok (Bootstrap.gamma_of n).
Proof.
  intros Hn. unfold Bootstrap.default_gamma, Bootstrap.gamma_of.
  destruct (Nat.eqb_spec n 0); [lia|]. f_equal.
  assert (0 < INR n) as HN by (apply lt_0_INR; lia).
  destruct (power_pos (INR n) (1 / 3) HN) as [-> _].
  destruct (power_pos (1 / 100)
              (1 / (175 / 100 * Rpower (INR n) (1 / 3))) ltac:(lra))
    as [-> Hth].
  by destruct (power_pos _ (1 / (1 / (36525 / 100))) Hth) as [-> _].
Qed.

Lemma gamma_of_inj (n m : nat) :
  (1 <= n)%nat -> (1 <= m)%nat ->
  Bootstrap.gamma_of n = Bootstrap.gamma_of m -> n = m.
Proof.
  intros Hn Hm. unfold Bootstrap.gamma_of, Rpower. intros E.
  assert (0 < INR n) as HN by (apply lt_0_INR; lia).
  assert (0 < INR m) as HM by (apply lt_0_INR; lia).
  apply exp_inv in E. rewrite !ln_exp in E.
  assert (ln (1 / 100) < 0) as Hln.
  { rewrite <- ln_1. apply ln_increasing; lra. }
  set (cn := exp (1 / 3 * ln (INR n))) in *.
  set (cm := exp (1 / 3 * ln (INR m))) in *.
  assert (0 < cn) as Hcn by apply exp_pos.
  assert (0 < cm) as Hcm by apply exp_pos.
  assert (cn = cm) as Ec.
  { assert (1 / (175 / 100 * cn) = 1 / (175 / 100 * cm)) as E' by nra.
    apply (f_equal Rinv) in E'.
    unfold Rdiv in E'. rewrite !Rmult_1_l, !Rinv_inv in E'. lra. }
  unfold cn, cm in Ec. apply exp_inv in Ec.
  apply INR_eq, ln_inv; [done..|lra].
Qed.

(** C1, as the code has it.  Without [ar_coef] the coefficient is computed
    once, from the length n of the whole series, as theta^(1/l) with
    theta = 0.01^(1/(1.75 n^(1/3))) and l = 1/365.25, and every block is
    generated with it; it is not the coefficient that the formula gives for
    the size of a block shorter than the series. *)
Theorem C1_gamma_from_whole_series (block_size : Z) (t residuals : list R)
    (rs : Numpy.RandomState) :
  t <> [] ->
  Bootstrap.block_gamma None t = Ok (Bootstrap.gamma_of (length t)) /\
  Bootstrap._generate_bootstrap_err block_size None t residuals rs
  = (iid ← Numpy.normal (length t);
     lift (Bootstrap.blockwise_errors block_size
             (Bootstrap.gamma_of (length t)) t residuals iid)) rs /\
  forall tb : list R,
    tb <> [] -> (length tb < length t)%nat ->
    Bootstrap.default_gamma (length tb)
    <> Ok (Bootstrap.gamma_of (length t)).
Proof.
  intros Ht.
  assert (1 <= length t)%nat as Hn by (destruct t; [done | cbn; lia]).
  assert (Bootstrap.block_gamma None t = Ok (Bootstrap.gamma_of (length t)))
    as Hg by (by apply default_gamma_Ok).
  split; [done|]. split.
  - unfold Bootstrap._generate_bootstrap_err. by rewrite Hg.
  - intros tb Htb Hlt.
    assert (1 <= length tb)%nat as Hb by (destruct tb; [done | cbn; lia]).
    rewrite default_gamma_Ok by done. intros [= E].
    apply gamma_of_inj in E; lia.
Qed.

(** An instance: four points in blocks of two. *)
Lemma C1_gamma_from_whole_series_witness :
  Bootstrap.block_gamma None [0; 1; 2; 3] = Ok (Bootstrap.gamma_of 4) /\
  Bootstrap.default_gamma 2 <> Ok (Bootstrap.gamma_of 4).
Proof.
  destruct (C1_gamma_from_whole_series 2 [0; 1; 2; 3] [] Examples.generator)
    as (H1 & _ & H3); [done|].
  split; [exact H1|]. apply (H3 [0; 1]); [done | cbn; lia].
Defined.

(** C1 as stated fails: four points in blocks of two are split into two
    blocks of two points, and the coefficient handed to the first block is
    not the one that the formula gives for a series of two points. *)
Lemma C1_counterexample :
  Bootstrap.blocks [0; 1; 2; 3] 4 2 = Ok [[0; 1]; [2; 3]] /\
  Bootstrap.block_gamma None [0; 1; 2; 3]
  <> Bootstrap.default_gamma (length [0; 1]).
Proof.
  split; [reflexivity|].
  change (length [0; 1]) with 2%nat.
  change (Bootstrap.block_gamma None [0; 1; 2; 3])
    with (Bootstrap.default_gamma 4).
  rewrite !default_gamma_Ok by lia. intros [= E].
  apply gamma_of_inj in E; lia.
Qed.

End Gamma.

(** ** The correlation matrix of a block *)

Section Tabulate.

Context {A B : Type}.

Lemma map_seq_nth (f : A -> B) (l : list A) (d : A) :
  map f l = map (fun i => f (nth i l d)) (seq 0 (length l)).
Proof.
  induction l as [|x l IH]; [done|].
  cbn [length seq map nth]. f_equal.
  rewrite <- seq_shift, map_map. exact IH.
Qed.

Lemma imap_seq_nth (f : nat -> A -> B) (l : list A) (d : A) :
  imap f l = map (fun i => f i (nth i l d)) (seq 0 (length l)).
Proof.
  revert f. induction l as [|x l IH]; intros f; [done|].
  cbn [length seq map nth imap]. f_equal.
  rewrite <- seq_shift, map_map. apply IH.
Qed.

Lemma nth_map_seq (g : nat -> B) (m j : nat) (d : B) :
  (j < m)%nat -> nth j (map g (seq 0 m)) d = g j.
Proof.
  intros Hj. rewrite (nth_indep _ d (g 0%nat)) by (by rewrite length_map, length_seq).
  rewrite (map_nth g (seq 0 m) 0%nat j), seq_nth; [done | lia].
Qed.

Lemma insert_map_seq (g : nat -> B) (m i : nat) (v : B) :
  <[i:=v]> (map g (seq 0 m))
  = map (fun j => if (j =? i)%nat then v else g j) (seq 0 m).
Proof.
  apply list_eq. intros j.
  destruct (decide (j < m)%nat) as [Hj|Hj].
  - destruct (decide (i = j)) as [->|Hne].
    + rewrite list_lookup_insert_eq by (by rewrite length_map, length_seq).
      rewrite list_lookup_fmap, lookup_seq_lt by done. cbn.
      by rewrite Nat.eqb_refl.
    + rewrite list_lookup_insert_ne by done.
      rewrite !list_lookup_fmap, lookup_seq_lt by done. cbn.
      destruct (Nat.eqb_spec j i); [lia | done].
  - rewrite !lookup_ge_None_2; [done|by rewrite length_map, length_seq; lia|].
    rewrite length_insert, length_map, length_seq. lia.
Qed.

End Tabulate.

Section CorrelationMatrix.

#[local] Open Scope R_scope.

Lemma zip_with_map_map {A B C D} (h : B -> C -> D) (f : A -> B) (g : A -> C)
    (l : list A) :
  zip_with h (map f l) (map g l) = map (fun x => h (f x) (g x)) l.
Proof. induction l as [|x l IH]; cbn; [done|]. by rewrite IH. Qed.

Lemma imap_map_seq {B C} (f : nat -> B -> C) (g : nat -> B) (m : nat) :
  imap f (map g (seq 0 m)) = map (fun i => f i (g i)) (seq 0 m).
Proof.
  rewrite (imap_seq_nth f _ (g 0%nat)), length_map, length_seq.
  apply map_ext_in. intros i Hi%in_seq. by rewrite nth_map_seq by lia.
Qed.

Lemma StronglySorted_Rlt_nth (t : list R) (i j : nat) :
  StronglySorted Rlt t -> (i < j < length t)%nat -> nth i t 0 < nth j t 0.
Proof.
  intros Hl. revert i j. induction Hl as [|x l Hl IH Hx]; intros i j Hij.
  - cbn in Hij. lia.
  - destruct i as [|i], j as [|j]; cbn in *; try lia.
    + rewrite Forall_forall in Hx. apply Hx, list_elem_of_In, nth_In. lia.
    + apply IH. lia.
Qed.

Lemma power_outer_tabulate (gamma : R) (t : list R) :
  Numpy.power_outer gamma t
  = Numpy.tabulate (length t)
      (fun i j => Numpy.power gamma (nth j t 0 - nth i t 0)).
Proof.
  unfold Numpy.power_outer, Numpy.tabulate. rewrite (map_seq_nth _ t 0).
  apply map_ext. intros i. by rewrite (map_seq_nth _ t 0).
Qed.

Lemma schur_kernel_tabulate (gamma c : R) (t : list R) :
  Bootstrap.schur_kernel gamma c t
  = Numpy.tabulate (length t)
      (fun i j => Rpower gamma (Rabs (nth i t 0 - nth j t 0))
                  - c * Rpower gamma (nth i t 0 + nth j t 0)).
Proof.
  unfold Bootstrap.schur_kernel, Numpy.tabulate. rewrite (map_seq_nth _ t 0).
  apply map_ext. intros i. by rewrite (map_seq_nth _ t 0).
Qed.

Lemma triu_tabulate (n : nat) (e : nat -> nat -> R) :
  Numpy.triu (Numpy.tabulate n e)
  = Numpy.tabulate n (fun i j => if (j <? i)%nat then 0 else e i j).
Proof.
  unfold Numpy.triu, Numpy.tabulate. rewrite imap_map_seq.
  apply map_ext. intros i. by rewrite imap_map_seq.
Qed.

Lemma fill_diagonal_tabulate (n : nat) (e : nat -> nat -> R) (v : R) :
  Numpy.fill_diagonal (Numpy.tabulate n e) v
  = Numpy.tabulate n (fun i j => if (j =? i)%nat then v else e i j).
Proof.
  unfold Numpy.fill_diagonal, Numpy.tabulate. rewrite imap_map_seq.
  apply map_ext. intros i. by rewrite insert_map_seq.
Qed.

Lemma length_tabulate (n : nat) (e : nat -> nat -> R) :
  length (Numpy.tabulate n e) = n.
Proof. unfold Numpy.tabulate. by rewrite length_map, length_seq. Qed.

Lemma transpose_tabulate (n : nat) (e : nat -> nat -> R) :
  Numpy.transpose n (Numpy.tabulate n e)
  = Numpy.tabulate n (fun i j => e j i).
Proof.
  unfold Numpy.transpose, Numpy.tabulate.
  apply map_ext_in. intros j Hj%in_seq.
  rewrite map_map. apply map_ext_in. intros i Hi%in_seq.
  by rewrite nth_map_seq by lia.
Qed.

Lemma madd_tabulate (n : nat) (e1 e2 : nat -> nat -> R) :
  Numpy.madd (Numpy.tabulate n e1) (Numpy.tabulate n e2)
  = Numpy.tabulate n (fun i j => e1 i j + e2 i j).
Proof.
  unfold Numpy.madd, Numpy.tabulate. rewrite zip_with_map_map.
  apply map_ext. intros i. unfold Numpy.vadd. by rewrite zip_with_map_map.
Qed.

Lemma tabulate_ext (n : nat) (e1 e2 : nat -> nat -> R) :
  (forall i j, (i < n)%nat -> (j < n)%nat -> e1 i j = e2 i j) ->
  Numpy.tabulate n e1 = Numpy.tabulate n e2.
Proof.
  intros H. unfold Numpy.tabulate.
  apply map_ext_in. intros i Hi%in_seq.
  apply map_ext_in. intros j Hj%in_seq. apply H; lia.
Qed.

(** The entries of the matrix that [_cholesky_decomposition] factorises:
    ones on the diagonal and [gamma^|ti - tj|] elsewhere. *)
Lemma correlation_matrix_kernel (t : list R) (gamma : R) :
  StronglySorted Rlt t -> 0 < gamma ->
  Bootstrap.correlation_matrix t gamma = Bootstrap.schur_kernel gamma 0 t.
Proof.
  intros Ht Hg. unfold Bootstrap.correlation_matrix.
  rewrite power_outer_tabulate, triu_tabulate, fill_diagonal_tabulate.
  rewrite length_tabulate, transpose_tabulate, madd_tabulate.
  rewrite schur_kernel_tabulate.
  apply tabulate_ext. intros i j Hi Hj.
  unfold Numpy.power.
  destruct (Req_dec_T gamma 0) as [?|_]; [lra|].
  destruct (Nat.eqb_spec j i) as [->|Hne].
  - rewrite Nat.eqb_refl, Rminus_diag, Rabs_R0, Rpower_O by done. lra.
  - destruct (Nat.eqb_spec i j) as [?|_]; [lia|].
    destruct (Nat.ltb_spec j i) as [Hlt|Hge].
    + destruct (Nat.ltb_spec i j); [lia|].
      pose proof (StronglySorted_Rlt_nth t j i Ht ltac:(lia)).
      rewrite Rabs_right by lra. lra.
    + destruct (Nat.ltb_spec i j); [|lia].
      pose proof (StronglySorted_Rlt_nth t i j Ht ltac:(lia)).
      rewrite Rabs_left by lra.
      replace (- (nth i t 0 - nth j t 0)) with (nth j t 0 - nth i t 0) by lra.
      lra.
Qed.

Lemma Rpower_lt_1 (gamma x : R) : 0 < gamma < 1 -> 0 < x -> Rpower gamma x < 1.
Proof.
  intros Hg Hx. unfold Rpower. rewrite <- exp_0. apply exp_increasing.
  assert (ln gamma < 0) by (rewrite <- ln_1; apply ln_increasing; lra).
  nra.
Qed.

Lemma Rpower_gt_0 (gamma x : R) : 0 < Rpower gamma x.
Proof. unfold Rpower. apply exp_pos. Qed.

(** One step of the factorisation of [schur_kernel gamma c (t1 :: ts)]
    leaves [schur_kernel gamma (gamma^(-2 t1)) ts] to factorise. *)
Lemma schur_complement_kernel (gamma c t1 : R) (ts : list R) :
  0 < gamma -> Forall (Rlt t1) ts ->
  let a := 1 - c * Rpower gamma (2 * t1) in
  0 < a ->
  let F := fun ti tj =>
    Rpower gamma (Rabs (ti - tj)) - c * Rpower gamma (ti + tj) in
  let l21 := map (fun ti => F ti t1 / sqrt a) ts in
  zip_with (fun row li => zip_with (fun x lj => x - li * lj) (tl row) l21)
           (map (fun ti => map (fun tj => F ti tj) (t1 :: ts)) ts) l21
  = Bootstrap.schur_kernel gamma (Rpower gamma (- (2 * t1))) ts.
Proof.
  intros Hg Hts a Ha F l21. unfold l21.
  rewrite zip_with_map_map. unfold Bootstrap.schur_kernel.
  apply map_ext_in. intros ti Hti. cbn [map tl].
  rewrite zip_with_map_map. apply map_ext_in. intros tj Htj.
  rewrite Forall_forall in Hts.
  pose proof (Hts ti (proj2 (list_elem_of_In _ _) Hti)) as Hi.
  pose proof (Hts tj (proj2 (list_elem_of_In _ _) Htj)) as Hj.
  unfold F. rewrite (Rabs_right (ti - t1)), (Rabs_right (tj - t1)) by lra.
  set (K := Rpower gamma (Rabs (ti - tj))).
  set (A := Rpower gamma (ti - t1)). set (B := Rpower gamma (tj - t1)).
  set (G := Rpower gamma (2 * t1)) in *.
  set (G' := Rpower gamma (- (2 * t1))).
  assert (G * G' = 1) as HGG.
  { unfold G, G'. rewrite <- Rpower_plus, Rplus_opp_r. by apply Rpower_O. }
  assert (Rpower gamma (ti + t1) = A * G) as ->.
  { unfold A, G. rewrite <- Rpower_plus. f_equal. lra. }
  assert (Rpower gamma (tj + t1) = B * G) as ->.
  { unfold B, G. rewrite <- Rpower_plus. f_equal. lra. }
  assert (Rpower gamma (ti + tj) = A * B * G) as ->.
  { unfold A, B, G. rewrite <- !Rpower_plus. f_equal. lra. }
  assert (sqrt a * sqrt a = a) as Hs by (apply sqrt_sqrt; lra).
  assert (0 < sqrt a) as Hs0 by (by apply sqrt_lt_R0).
  fold a.
  replace ((A - c * (A * G)) / sqrt a * ((B - c * (B * G)) / sqrt a))
    with (A * B * a).
  - replace (G' * (A * B * G)) with (A * B * (G * G')) by ring.
    rewrite HGG. unfold a. ring.
  - unfold Rdiv.
    replace ((A - c * (A * G)) * / sqrt a * ((B - c * (B * G)) * / sqrt a))
      with (A * B * (a * a) * (/ sqrt a * / sqrt a)) by (unfold a; ring).
    rewrite <- Rinv_mult, Hs. field. lra.
Qed.

(** The factorisation of such a matrix never meets a pivot that is not
    positive. *)
Lemma cholesky_schur_kernel (gamma : R) (t : list R) :
  0 < gamma < 1 -> StronglySorted Rlt t ->
  forall c, 0 <= c ->
    (forall t1, head t = Some t1 -> c * Rpower gamma (2 * t1) < 1) ->
    exists L, Numpy.cholesky_rec (length t) (Bootstrap.schur_kernel gamma c t)
              = Ok L.
Proof.
  intros Hg Ht. induction Ht as [|t1 ts Hts IH Hlt]; intros c Hc Hhead.
  - by exists [].
  - specialize (Hhead t1 eq_refl).
    unfold Bootstrap.schur_kernel.
    cbn [length map Numpy.cholesky_rec].
    rewrite Rminus_diag, Rabs_R0, Rpower_O by lra.
    replace (t1 + t1) with (2 * t1) by lra.
    destruct (Rlt_dec 0 (1 - c * Rpower gamma (2 * t1))) as [Ha|Ha]; [|lra].
    rewrite map_map. cbn [hd].
    pose proof (schur_complement_kernel gamma c t1 ts ltac:(lra) Hlt Ha) as E.
    cbn zeta in E. cbn [map] in E.
    replace (Rpower gamma (Rabs (t1 - t1)) - c * Rpower gamma (t1 + t1))
      with (1 - c * Rpower gamma (2 * t1)) in E.
    2:{ rewrite Rminus_diag, Rabs_R0, Rpower_O by lra.
        by replace (t1 + t1) with (2 * t1) by lra. }
    rewrite E.
    destruct (IH (Rpower gamma (- (2 * t1)))) as [L HL].
    + pose proof (Rpower_gt_0 gamma (- (2 * t1))). lra.
    + intros t2 Ht2. rewrite <- Rpower_plus.
      apply Rpower_lt_1; [done|].
      destruct ts as [|t2' ts']; [done|]. injection Ht2 as ->.
      apply Forall_cons in Hlt as [? _]. lra.
    + rewrite HL. cbn. eauto.
Qed.

Lemma dot_comm (u v : list R) : Numpy.dot u v = Numpy.dot v u.
Proof.
  unfold Numpy.dot. revert v. induction u as [|a u IH]; intros [|b v]; cbn;
    try done.
  rewrite IH. lra.
Qed.

Lemma dot_map_affine {A} (a b : A -> R) (x0 : R) (ts : list A) (xs : list R) :
  Numpy.dot xs (map (fun ti => a ti * x0 + b ti) ts)
  = x0 * Numpy.dot xs (map a ts) + Numpy.dot xs (map b ts).
Proof.
  unfold Numpy.dot. revert xs. induction ts as [|ti ts IH]; intros [|x xs]; cbn;
    try lra.
  rewrite IH. lra.
Qed.

(** The quadratic form of the correlation matrix of [t0 :: ts] at
    [x0 :: xs], in terms of that of [ts] at [xs]. *)
Lemma quadratic_form_kernel_cons (gamma t0 x0 : R) (ts xs : list R) :
  0 < gamma -> Forall (Rlt t0) ts ->
  let S := Numpy.dot (map (fun tj => Rpower gamma (tj - t0)) ts) xs in
  Numpy.quadratic_form (Bootstrap.schur_kernel gamma 0 (t0 :: ts)) (x0 :: xs)
  = x0 * x0 + 2 * (x0 * S)
    + Numpy.quadratic_form (Bootstrap.schur_kernel gamma 0 ts) xs.
Proof.
  intros Hg Hts S.
  unfold Numpy.quadratic_form, Bootstrap.schur_kernel, Numpy.matvec.
  rewrite !map_map. cbn [map].
  set (K := fun ti tj => Rpower gamma (Rabs (ti - tj))
                         - 0 * Rpower gamma (ti + tj)).
  change (Numpy.dot (x0 :: xs)
            (Numpy.dot (K t0 t0 :: map (K t0) ts) (x0 :: xs)
             :: map (fun ti => Numpy.dot (K ti t0 :: map (K ti) ts) (x0 :: xs)) ts)
          = x0 * x0 + 2 * (x0 * S)
            + Numpy.dot xs (map (fun ti => Numpy.dot (map (K ti) ts) xs) ts)).
  assert (K t0 t0 = 1) as E00.
  { unfold K. rewrite Rminus_diag, Rabs_R0, Rpower_O by done. lra. }
  assert (map (K t0) ts = map (fun tj => Rpower gamma (tj - t0)) ts) as E0.
  { apply map_ext_in. intros tj Htj%list_elem_of_In.
    rewrite Forall_forall in Hts. specialize (Hts tj Htj).
    unfold K. rewrite Rabs_left by lra.
    replace (- (t0 - tj)) with (tj - t0) by lra. lra. }
  assert (map (fun ti => K ti t0) ts
          = map (fun tj => Rpower gamma (tj - t0)) ts) as E1.
  { apply map_ext_in. intros tj Htj%list_elem_of_In.
    rewrite Forall_forall in Hts. specialize (Hts tj Htj).
    unfold K. rewrite Rabs_right by lra. lra. }
  assert (forall u v a b, Numpy.dot (a :: u) (b :: v) = a * b + Numpy.dot u v)
    as Hcons by done.
  rewrite Hcons, Hcons, E00, E0. fold S.
  assert (map (fun ti => Numpy.dot (K ti t0 :: map (K ti) ts) (x0 :: xs)) ts
          = map (fun ti => K ti t0 * x0 + Numpy.dot (map (K ti) ts) xs) ts) as ->.
  { apply map_ext. intros ti. apply Hcons. }
  rewrite (dot_map_affine (fun ti => K ti t0)), E1.
  rewrite (dot_comm xs). fold S. lra.
Qed.

(** The quadratic form is a sum of squares [u^2 + r] that vanishes only at
    the zero vector. *)
Lemma kernel_quadratic_form (gamma : R) (t : list R) :
  0 < gamma < 1 -> StronglySorted Rlt t ->
  forall x, length x = length t ->
    exists u r,
      0 <= r /\
      Numpy.quadratic_form (Bootstrap.schur_kernel gamma 0 t) x = u * u + r /\
      (forall s, Numpy.dot (map (fun tj => Rpower gamma (tj - s)) t) x
                 = match t with
                   | [] => 0
                   | t1 :: _ => Rpower gamma (t1 - s) * u
                   end) /\
      (u = 0 -> r = 0 -> Forall (fun xi => xi = 0) x).
Proof.
  intros Hg Ht. induction Ht as [|t0 ts Hts IH Hlt]; intros x Hx.
  - destruct x; [|done]. exists 0, 0. repeat split; try done; try lra.
    unfold Numpy.quadratic_form, Numpy.dot. cbn. lra.
  - destruct x as [|x0 xs]; [done|]. injection Hx as Hx.
    destruct (IH xs Hx) as (u1 & r1 & Hr1 & HQ1 & HS1 & Hz1).
    set (g := match ts with [] => 0 | t1 :: _ => Rpower gamma (t1 - t0) end).
    assert (0 <= g < 1) as Hg1.
    { unfold g. destruct ts as [|t1 ts']; [lra|].
      apply Forall_cons in Hlt as [? _].
      pose proof (Rpower_gt_0 gamma (t1 - t0)).
      pose proof (Rpower_lt_1 gamma (t1 - t0) Hg ltac:(lra)). lra. }
    assert (Numpy.dot (map (fun tj => Rpower gamma (tj - t0)) ts) xs = g * u1)
      as HS0.
    { rewrite HS1. unfold g. destruct ts; lra. }
    assert (0 < 1 - g * g) as Hgg by nra.
    assert (0 <= u1 * u1) as Hu1 by nra.
    assert (0 <= (1 - g * g) * (u1 * u1)) as Hprod
      by (apply Rmult_le_pos; lra).
    exists (x0 + g * u1), ((1 - g * g) * (u1 * u1) + r1).
    split; [|split; [|split]].
    + lra.
    + rewrite quadratic_form_kernel_cons by (done || lra).
      rewrite HS0, HQ1. ring.
    + intros s. cbn [map].
      change (Rpower gamma (t0 - s) * x0
              + Numpy.dot (map (fun tj => Rpower gamma (tj - s)) ts) xs
              = Rpower gamma (t0 - s) * (x0 + g * u1)).
      rewrite HS1. unfold g. destruct ts as [|t1 ts']; [lra|].
      replace (t1 - s) with ((t0 - s) + (t1 - t0)) by lra.
      rewrite Rpower_plus. ring.
    + intros Hu Hr.
      assert ((1 - g * g) * (u1 * u1) = 0) as Hp0 by lra.
      assert (r1 = 0) as Hr10 by lra.
      apply Rmult_integral in Hp0 as [?|Hu0]; [lra|].
      apply Rmult_integral in Hu0 as Hu0'.
      assert (u1 = 0) as Hu10 by tauto.
      constructor; [rewrite Hu10 in Hu; lra|]. by apply Hz1.
Qed.

(** C4. For a coefficient in (0, 1) and a strictly increasing time vector,
    the matrix that [_cholesky_decomposition] builds is symmetric and
    positive definite, and its factorisation returns: no pivot fails to be
    positive.  (Floats are real numbers here.) *)
Theorem C4_correlation_matrix_positive_definite (gamma : R) (t : list R) :
  0 < gamma < 1 -> Sorted Rlt t ->
  let m := Bootstrap.correlation_matrix t gamma in
  Numpy.transpose (length m) m = m /\
  (forall x, length x = length t -> Exists (fun xi => xi <> 0) x ->
             0 < Numpy.quadratic_form m x) /\
  exists L, Bootstrap._cholesky_decomposition t gamma = Ok L.
Proof.
  intros Hg Ht m.
  assert (StronglySorted Rlt t) as Hs.
  { apply Sorted_StronglySorted; [|done]. intros x y z. apply Rlt_trans. }
  assert (m = Bootstrap.schur_kernel gamma 0 t) as Hm
    by (apply correlation_matrix_kernel; [done | lra]).
  split; [|split].
  - rewrite Hm, schur_kernel_tabulate, length_tabulate, transpose_tabulate.
    apply tabulate_ext. intros i j _ _.
    by rewrite Rabs_minus_sym, (Rplus_comm (nth j t 0)).
  - intros x Hx Hnz. rewrite Hm.
    destruct (kernel_quadratic_form gamma t Hg Hs x Hx)
      as (u & r & Hr & -> & _ & Hz).
    assert (0 <= u * u) as Hu by nra.
    destruct (Rle_lt_dec (u * u + r) 0) as [Hle|]; [|done].
    exfalso.
    assert (u * u = 0) as Hu0 by lra.
    apply Rmult_integral in Hu0 as Hu0'.
    assert (Forall (fun xi => xi = 0) x) as Hall by (apply Hz; [tauto | lra]).
    apply Exists_exists in Hnz as (xi & Hin & Hxi).
    rewrite Forall_forall in Hall. by apply Hxi, Hall.
  - unfold Bootstrap._cholesky_decomposition, Numpy.cholesky. fold m.
    rewrite Hm. unfold Bootstrap.schur_kernel at 1. rewrite length_map.
    apply cholesky_schur_kernel; [done | done | lra |].
    intros t1 _. lra.
Qed.

End CorrelationMatrix.

(** An instance of C4: two points one unit apart, with coefficient 1/2. *)
Lemma C4_correlation_matrix_positive_definite_witness :
  (forall x, length x = 2%nat -> Exists (fun xi => xi <> 0%R) x ->
             (0 < Numpy.quadratic_form
                    (Bootstrap.correlation_matrix [0; 1] (1 / 2)) x)%R) /\
  exists L, Bootstrap._cholesky_decomposition [0%R; 1%R] (1 / 2) = Ok L.
Proof.
  destruct (C4_correlation_matrix_positive_definite (1 / 2) [0%R; 1%R])
    as (_ & H2 & H3).
  - lra.
  - repeat constructor. lra.
  - split; [exact H2 | exact H3].
Defined.

(** ** Residual resampling *)

Lemma swap_Permutation {A} (x : list A) (i j : nat) : Numpy.swap x i j ≡ₚ x.
Proof.
  unfold Numpy.swap.
  destruct (x !! i) as [xi|] eqn:Hi; [|done].
  destruct (x !! j) as [xj|] eqn:Hj; [|done].
  by apply Permutation_insert_swap.
Qed.

Lemma shuffle_loop_Permutation {A} (i : nat) (x : list A) rs :
  exists x' rs', Numpy.shuffle_loop i x rs = (Ok x', rs') /\ x' ≡ₚ x.
Proof.
  revert x rs. induction i as [|i IH]; intros x rs.
  - exists x, rs. done.
  - cbn [Numpy.shuffle_loop]. unfold_action. unfold Numpy.random_interval.
    destruct (IH (Numpy.swap x (S i) (Numpy.words rs (Numpy.cursor rs) mod S (S i)))
                 (Numpy.advance rs)) as (x' & rs' & -> & Hp).
    exists x', rs'. split; [done|]. by rewrite Hp, swap_Permutation.
Qed.

Lemma shuffle_Permutation {A} (x : list A) rs :
  exists x' rs', Numpy.shuffle x rs = (Ok x', rs') /\ x' ≡ₚ x.
Proof. apply shuffle_loop_Permutation. Qed.

Section ResidualResampling.

Context {M : Type} `{!Base.Estimator M}.
Implicit Types (w : Bootstrap.World (M:=M)) (m : M).

(** C3. With a fitted model and any generator, residual resampling returns
    the predicted values plus a reordering of the residuals: the errors added
    are a permutation of the residual vector.  The model is left as it
    was. *)
Theorem C3_residual_resampling_permutation w m (rs : option Bootstrap.loc) g :
  Bootstrap.class_of (Bootstrap.self w) = Bootstrap.ResidualResampling ->
  Bootstrap.heap w !! Bootstrap.model (Bootstrap.self w)
    = Some (Bootstrap.OModel m) ->
  Base._fitted (Base.model_base m) = true ->
  Bootstrap.heap w !! default (Bootstrap.random_state (Bootstrap.self w)) rs
    = Some (Bootstrap.ORandomState g) ->
  exists errors w',
    Bootstrap.generate_bootstrap_sample rs w
      = (Ok (Numpy.vadd (Base._y_predict (Base.model_base m)) errors), w') /\
    errors ≡ₚ Base.residuals (Base.model_base m) /\
    Bootstrap.heap w' !! Bootstrap.model (Bootstrap.self w')
      = Some (Bootstrap.OModel m).
Proof.
  intros Hcls Hm Hfit Hg.
  destruct (shuffle_Permutation (Base.residuals (Base.model_base m)) g)
    as (errors & g' & Hsh & Hperm).
  exists errors. eexists. split; [|split; [exact Hperm|]].
  - unfold Bootstrap.generate_bootstrap_sample, Bootstrap.read_model.
    unfold_action. rewrite Hm, Hfit. cbn [negb].
    unfold Bootstrap._generate_bootstrap_sample, Bootstrap.read_model.
    unfold_action. rewrite Hcls, Hm.
    unfold Bootstrap.on_random_state.
    replace (match rs with Some rs0 => rs0
             | None => Bootstrap.random_state (Bootstrap.self w) end)
      with (default (Bootstrap.random_state (Bootstrap.self w)) rs)
      by (by destruct rs).
    rewrite Hg, Hsh. reflexivity.
  - cbn. rewrite lookup_insert_ne; [done|].
    intros E. rewrite E in Hg. congruence.
Qed.

End ResidualResampling.

(** An instance of C3: the engine of the examples around the fitted
    intercept-only model, drawing with its own generator. *)
Lemma C3_residual_resampling_permutation_witness :
  exists errors w',
    Bootstrap.generate_bootstrap_sample None
      (Examples.engine Examples.fitted_model 2 false)
      = (Ok (Numpy.vadd (Base._y_predict (Base.model_base Examples.fitted_model))
                        errors), w') /\
    errors ≡ₚ Base.residuals (Base.model_base Examples.fitted_model) /\
    Bootstrap.heap w' !! Bootstrap.model (Bootstrap.self w')
      = Some (Bootstrap.OModel Examples.fitted_model).
Proof.
  apply (C3_residual_resampling_permutation
           (Examples.engine Examples.fitted_model 2 false)
           Examples.fitted_model None Examples.generator);
    reflexivity.
Defined.

(** ** Calls made too early *)

Section Preconditions.

Context {M : Type} `{!Base.Estimator M}.
Implicit Types (w : Bootstrap.World (M:=M)) (m : M).

(** C6. [generate_bootstrap_sample] on an engine whose model is not fitted
    raises [ValueError], and [get_ci_bounds] on an engine that is not fitted
    raises [ValueError]; each call raises at once and leaves the engine, the
    model and every other object as they were. *)
Theorem C6_unfitted_calls_raise w m (rs : option Bootstrap.loc)
    (confidence_level : R) :
  Bootstrap.heap w !! Bootstrap.model (Bootstrap.self w)
    = Some (Bootstrap.OModel m) ->
  (Base._fitted (Base.model_base m) = false ->
   Bootstrap.generate_bootstrap_sample rs w = (Raise ValueError, w)) /\
  (Base._fitted (Bootstrap.base (Bootstrap.self w)) = false ->
   Bootstrap.get_ci_bounds confidence_level w = (Raise ValueError, w)).
Proof.
  intros Hm. split; intros Hf.
  - unfold Bootstrap.generate_bootstrap_sample, Bootstrap.read_model.
    unfold_action. by rewrite Hm, Hf.
  - unfold Bootstrap.get_ci_bounds. unfold_action. by rewrite Hf.
Qed.

End Preconditions.

(** An instance of C6: a new engine around a new model. *)
Lemma C6_unfitted_calls_raise_witness :
  Bootstrap.generate_bootstrap_sample None
    (Examples.engine Examples.new_model 2 false)
    = (Raise ValueError, Examples.engine Examples.new_model 2 false) /\
  Bootstrap.get_ci_bounds (95 / 100)
    (Examples.engine Examples.new_model 2 false)
    = (Raise ValueError, Examples.engine Examples.new_model 2 false).
Proof.
  destruct (C6_unfitted_calls_raise
              (Examples.engine Examples.new_model 2 false)
              Examples.new_model None (95 / 100) eq_refl) as [H1 H2].
  split; [apply H1 | apply H2]; reflexivity.
Defined.

(** ** The parameter names of the linear models *)

Section ParameterNames.

Import Models.

Variable lstsq : list (list R) -> list R -> result (list R * list R).
Variable dual_annealing :
  (R -> result float_ext) -> list (R * R) -> gmap string pyarg ->
  result (list R * OptimizeResult).

Implicit Types (s self : LinearModel) (N : gset string).

Lemma names_no_trend (f : nat) (t : list R) :
  (_regressor_terms_no_trend f t).1.*1 = regressor_names LinearNoTrendFourier f.
Proof.
  unfold _regressor_terms_no_trend, regressor_names.
  by destruct (f =? 0)%nat.
Qed.

Lemma names_trend (f : nat) (t : list R) :
  (_regressor_terms_trend f t).1.*1 = regressor_names LinearTrendFourier f.
Proof.
  unfold _regressor_terms_trend, _regressor_terms_no_trend, regressor_names.
  by destruct (f =? 0)%nat.
Qed.

Lemma names_broken_trend (f : nat) (t : list R) (t_break : R) :
  (_regressor_terms_broken_trend f t t_break).1.*1
  = regressor_names LinearBrokenTrendFourier f.
Proof.
  unfold _regressor_terms_broken_trend, _regressor_terms_trend,
    _regressor_terms_no_trend, regressor_names.
  by destruct (f =? 0)%nat.
Qed.

Lemma same_configuration_refl s : same_configuration s s.
Proof. by repeat split. Qed.

Lemma same_configuration_trans s1 s2 s3 :
  same_configuration s1 s2 -> same_configuration s2 s3 ->
  same_configuration s1 s3.
Proof.
  intros (?&?&?&?&?&?) (?&?&?&?&?&?). repeat split; congruence.
Qed.

Lemma solve_lstsq_names (t y : list R) reg_idx reg_terms s ssr s' :
  _solve_lstsq lstsq t y reg_idx reg_terms s = (Ok ssr, s') ->
  same_configuration s s' /\
  dom (_parameters s') = dom (_parameters s) ∪ list_to_set reg_idx.*1.
Proof.
  unfold _solve_lstsq. intros E.
  apply bind_Ok_inv in E as ([p ssr'] & ? & [_ ->]%lift_Ok_inv & E).
  apply bind_Ok_inv in E as (rs & s1 & E & [= _ <-]).
  revert s rs E. induction reg_idx as [|[k idx] l IH]; intros s rs E.
  - cbn in E. injection E as _ <-. split; [apply same_configuration_refl|].
    cbn. set_solver.
  - cbn [mapM] in E.
    apply bind_Ok_inv in E as ([] & s0 & E0 & E).
    apply bind_Ok_inv in E as (rs' & s2 & E & [= _ <-]).
    apply bind_Ok_inv in E0 as (v & ? & [_ ->]%lift_Ok_inv & [= <-]).
    apply IH in E as [Hc Hd]. split.
    + eapply same_configuration_trans; [|exact Hc]. by repeat split.
    + rewrite Hd. cbn. rewrite dom_insert_L. set_solver.
Qed.

Lemma fit_linear_names (t y : list R) s r s' :
  class_of s <> LinearBrokenTrendFourier ->
  _fit_linear lstsq t y s = (Ok r, s') ->
  same_configuration s s' /\
  dom (_parameters s')
  = dom (_parameters s) ∪ list_to_set (regressor_names (class_of s) (f_order s)).
Proof.
  intros Hcls E. unfold _fit_linear in E.
  apply bind_Ok_inv in E as (s0 & ? & [= <- <-] & E).
  destruct (class_of s) eqn:Ecls; [| |done].
  - pose proof (names_no_trend (f_order s) t) as Hn.
    destruct (_regressor_terms_no_trend (f_order s) t) as [reg_idx reg_terms].
    apply bind_Ok_inv in E as (ssr & s1 & [Hc Hd]%solve_lstsq_names & E).
    destruct ssr; [done|]. injection E as _ <-. cbn in Hn. by rewrite <- Hn.
  - pose proof (names_trend (f_order s) t) as Hn.
    destruct (_regressor_terms_trend (f_order s) t) as [reg_idx reg_terms].
    apply bind_Ok_inv in E as (ssr & s1 & [Hc Hd]%solve_lstsq_names & E).
    destruct ssr; [done|]. injection E as _ <-. cbn in Hn. by rewrite <- Hn.
Qed.

Lemma solve_for_location_names (t y : list R) (t_break : R) s v s' :
  solve_for_location lstsq t y t_break s = (Ok v, s') ->
  same_configuration s s' /\
  dom (_parameters s')
  = dom (_parameters s)
    ∪ list_to_set (regressor_names LinearBrokenTrendFourier (f_order s)).
Proof.
  intros E. unfold solve_for_location in E.
  apply bind_Ok_inv in E as (s0 & ? & [= <- <-] & E).
  pose proof (names_broken_trend (f_order s) t t_break) as Hn.
  destruct (_regressor_terms_broken_trend (f_order s) t t_break)
    as [reg_idx reg_terms].
  apply bind_Ok_inv in E as (ssr & s1 & [Hc Hd]%solve_lstsq_names & E).
  cbn in Hn. rewrite Hn in Hd.
  destruct ssr; injection E as _ <-; done.
Qed.

Lemma replay_names (t y : list R) (l : list R) s vs s' :
  mapM (solve_for_location lstsq t y) l s = (Ok vs, s') ->
  same_configuration s s' /\
  dom (_parameters s) ⊆ dom (_parameters s') /\
  dom (_parameters s')
  ⊆ dom (_parameters s)
    ∪ list_to_set (regressor_names LinearBrokenTrendFourier (f_order s)).
Proof.
  revert s vs. induction l as [|x l IH]; intros s vs E.
  - cbn in E. injection E as _ <-.
    split; [apply same_configuration_refl|]. split; set_solver.
  - cbn [mapM] in E.
    apply bind_Ok_inv in E as (v & s1 & [Hc1 Hd1]%solve_for_location_names & E).
    apply bind_Ok_inv in E as (vs' & s2 & E & [= _ <-]).
    apply IH in E as (Hc2 & Hs2 & Hd2).
    split; [by eapply same_configuration_trans|].
    destruct Hc1 as (_ & Hf & _). rewrite Hf in Hd2.
    split; set_solver.
Qed.

Lemma locate_break_names (t y : list R) s res s' :
  locate_break lstsq dual_annealing t y s = (Ok res, s') ->
  same_configuration s s' /\
  dom (_parameters s) ⊆ dom (_parameters s') /\
  dom (_parameters s')
  ⊆ dom (_parameters s)
    ∪ list_to_set (regressor_names LinearBrokenTrendFourier (f_order s))
    ∪ {["t_break"]}.
Proof.
  intros E. unfold locate_break in E.
  apply bind_Ok_inv in E as (s0 & ? & [= <- <-] & E).
  destruct (_fit_t_break s).
  2:{ injection E as _ <-. split; [apply same_configuration_refl|].
      split; set_solver. }
  apply bind_Ok_inv in E as (bounds & s1 & Eb & E).
  assert (s1 = s) as ->.
  { destruct (_opt_bounds s); [by injection Eb as _ <-|].
    destruct (t !! 1%nat), (last t); try done; by injection Eb as _ <-. }
  apply bind_Ok_inv in E as ([evaluated r] & ? & [_ ->]%lift_Ok_inv & E).
  apply bind_Ok_inv in E as (vs & s2 & (Hc & Hs & Hd)%replay_names & E).
  apply bind_Ok_inv in E as (x0 & s3 & Ex & E).
  assert (s3 = s2) as ->.
  { destruct (res_x r !! 0%nat); [by injection Ex as _ <-|done]. }
  apply bind_Ok_inv in E as ([] & s4 & [= <-] & [= _ <-]).
  split.
  - eapply same_configuration_trans; [exact Hc|]. by repeat split.
  - cbn. rewrite dom_insert_L. split; set_solver.
Qed.

Lemma final_resolve_names (t y : list R) s ssr s' :
  final_resolve lstsq t y s = (Ok ssr, s') ->
  same_configuration s s' /\
  "t_break" ∈ dom (_parameters s) /\
  dom (_parameters s')
  = dom (_parameters s)
    ∪ list_to_set (regressor_names LinearBrokenTrendFourier (f_order s)).
Proof.
  intros E. unfold final_resolve in E.
  apply bind_Ok_inv in E as (s0 & ? & [= <- <-] & E).
  apply bind_Ok_inv in E as (t_break & ? & [Hb ->]%lift_Ok_inv & E).
  pose proof (names_broken_trend (f_order s) t t_break) as Hn.
  destruct (_regressor_terms_broken_trend (f_order s) t t_break)
    as [reg_idx reg_terms].
  apply solve_lstsq_names in E as [Hc Hd]. cbn in Hn. rewrite Hn in Hd.
  split; [done|]. split; [|done].
  unfold get_t_break in Hb. apply (elem_of_dom (D:=gset string)).
  destruct (_parameters s !! "t_break"); [eauto | done].
Qed.

(** A fit that returns keeps every parameter name, stores the names of its
    regressors, and adds no other name. *)
Lemma hook_fit_names (t y : list R) s r s' :
  _fit lstsq dual_annealing t y s = (Ok r, s') ->
  same_configuration s s' /\
  dom (_parameters s')
  = dom (_parameters s)
    ∪ list_to_set (regressor_names (class_of s) (f_order s))
    ∪ (match class_of s with
       | LinearBrokenTrendFourier => {["t_break"]}
       | _ => ∅
       end).
Proof.
  intros E. unfold _fit in E.
  apply bind_Ok_inv in E as (s0 & ? & [= <- <-] & E).
  destruct (class_of s) eqn:Ecls.
  - apply fit_linear_names in E as [Hc Hd]; [|congruence].
    rewrite Ecls in Hd. split; [done|]. set_solver.
  - apply fit_linear_names in E as [Hc Hd]; [|congruence].
    rewrite Ecls in Hd. split; [done|]. set_solver.
  - unfold _fit_broken_trend in E.
    apply bind_Ok_inv in E as (res & s1 & (Hc1 & Hs1 & Hd1)%locate_break_names & E).
    apply bind_Ok_inv in E as (ssr & s2 & (Hc2 & Ht & Hd2)%final_resolve_names & E).
    assert (s' = s2) as -> by (destruct res; by injection E as _ <-).
    split; [by eapply same_configuration_trans|].
    destruct Hc1 as (_ & Hf & _). rewrite Hf in Hd2.
    set_solver.
Qed.

Lemma fit_names (t y : list R) s r s' :
  fit lstsq dual_annealing t y s = (Ok r, s') ->
  class_of s' = class_of s /\ f_order s' = f_order s /\
  dom (_parameters s')
  = dom (_parameters s)
    ∪ list_to_set (regressor_names (class_of s) (f_order s))
    ∪ (match class_of s with
       | LinearBrokenTrendFourier => {["t_break"]}
       | _ => ∅
       end).
Proof.
  intros E. unfold fit, Base.fit in E.
  apply bind_Ok_inv in E as ([] & s0 & [= <-] & E).
  apply bind_Ok_inv in E as (r' & s1 & ((Hc & Hf & _) & Hd)%hook_fit_names & E).
  apply bind_Ok_inv in E as (s1' & ? & [= <- <-] & E).
  apply bind_Ok_inv in E as (yp & ? & [_ ->]%lift_Ok_inv & E).
  apply bind_Ok_inv in E as ([] & s2 & [= <-] & [= _ <-]).
  cbn in *. done.
Qed.

(** Refitting a fitted linear model keeps its parameter names: the premise
    of C10 on the model holds for the models of the repository. *)
Lemma linear_refit_keeps_names (t y t' yb : list R) (m m1 m_fit : LinearModel) :
  Base.model_fit (Estimator:=linear_estimator lstsq dual_annealing) t y m
    = (Ok tt, m1) ->
  Base.model_fit (Estimator:=linear_estimator lstsq dual_annealing) t' yb m1
    = (Ok tt, m_fit) ->
  dom (Base.model_parameters (Estimator:=linear_estimator lstsq dual_annealing)
         m_fit)
  = dom (Base.model_parameters (Estimator:=linear_estimator lstsq dual_annealing)
           m1).
Proof.
  cbn. intros E1 E2.
  apply bind_Ok_inv in E1 as (r1 & ? & (Hc1 & Hf1 & Hd1)%fit_names & [= <-]).
  apply bind_Ok_inv in E2 as (r2 & ? & (Hc2 & Hf2 & Hd2)%fit_names & [= <-]).
  rewrite Hd2, Hc1, Hf1, Hd1. set_solver.
Qed.

End ParameterNames.

(** ** The engine's fit *)

Section EngineFit.

Context {M : Type} `{!Base.Estimator M}.
Variable use_dask : bool.
Variable entropy : nat -> Numpy.RandomState.

Import Bootstrap.

Implicit Types (w s : World (M:=M)) (m : M) (l : loc).

#[local] Instance extends_preorder : PreOrder (extends (M:=M)).
Proof.
  split.
  - intros w. by repeat split.
  - intros w1 w2 w3 (E1 & K1 & D1) (E2 & K2 & D2). repeat split.
    + congruence.
    + eauto.
    + eauto.
Qed.

Lemma extends_insert_fresh w l o :
  heap w !! l = None -> extends w (set_heap (insert l o) w).
Proof.
  intros Hl. repeat split; cbn.
  - intros l' m Hm. rewrite lookup_insert_ne; [done | congruence].
  - intros l' Hs. destruct (decide (l = l')) as [<-|].
    + rewrite lookup_insert_eq. eauto.
    + by rewrite lookup_insert_ne.
Qed.

Lemma extends_insert_random_state w l g g' :
  heap w !! l = Some (ORandomState g) ->
  extends w (set_heap (insert l (ORandomState g')) w).
Proof.
  intros Hl. repeat split; cbn.
  - intros l' m Hm. rewrite lookup_insert_ne; [done | congruence].
  - intros l' Hs. destruct (decide (l = l')) as [<-|].
    + rewrite lookup_insert_eq. eauto.
    + by rewrite lookup_insert_ne.
Qed.

Lemma alloc_inv (o : object (M:=M)) w l w' :
  alloc o w = (Ok l, w') ->
  heap w !! l = None /\ w' = set_heap (insert l o) w.
Proof.
  unfold alloc. intros [= <- <-]. split; [|done].
  apply (not_elem_of_dom (D:=gset loc)), is_fresh.
Qed.

Lemma read_model_inv l w m w' :
  read_model l w = (Ok m, w') -> heap w !! l = Some (OModel m) /\ w' = w.
Proof.
  unfold read_model. unfold_action.
  destruct (heap w !! l) as [[m'|g]|]; intros E; try discriminate.
  by injection E as <- <-.
Qed.

Lemma on_random_state_extends {A} l (c : action Numpy.RandomState A) w r w' :
  on_random_state l c w = (r, w') -> extends w w'.
Proof.
  unfold on_random_state.
  destruct (heap w !! l) as [[m'|g]|] eqn:Hl; try (intros [= <- <-]; reflexivity).
  destruct (c g) as [r' g']. intros [= <- <-].
  by eapply extends_insert_random_state.
Qed.

Lemma generate_bootstrap_sample_extends rs w r w' :
  generate_bootstrap_sample rs w = (r, w') -> extends w w'.
Proof.
  unfold generate_bootstrap_sample, read_model. unfold_action.
  destruct (heap w !! model (self w)) as [[m|g]|];
    try (intros [= <- <-]; reflexivity).
  destruct (negb _); [intros [= <- <-]; reflexivity|].
  unfold _generate_bootstrap_sample, read_model. unfold_action.
  destruct (class_of (self w)); [intros [= <- <-]; reflexivity | |].
  - destruct (heap w !! model (self w)) as [[m'|g]|];
      try (intros [= <- <-]; reflexivity).
    destruct (on_random_state _ _ w) as [[errors|e] w1] eqn:E;
      intros [= <- <-]; by eapply on_random_state_extends.
  - destruct (heap w !! model (self w)) as [[m'|g]|];
      try (intros [= <- <-]; reflexivity).
    destruct (on_random_state _ _ w) as [[errors|e] w1] eqn:E;
      intros [= <- <-]; by eapply on_random_state_extends.
Qed.

Lemma on_model_inv {A} l (c : action M A) w a w' :
  on_model l c w = (Ok a, w') ->
  exists m m', heap w !! l = Some (OModel m) /\ c m = (Ok a, m') /\
               w' = set_heap (insert l (OModel m')) w.
Proof.
  unfold on_model. intros E.
  apply bind_Ok_inv in E as (m & w1 & E1 & E).
  apply read_model_inv in E1 as [Hm ->].
  destruct (c m) as [r m'] eqn:Ec. injection E as -> <-.
  by exists m, m'.
Qed.

(** A draw: the model is copied into a new object, the copy is fitted on a
    generated sample, and the parameters of the copy are returned.  No
    model that existed before the draw is written. *)
Lemma fit_sample_inv t rs w r w' m1 :
  heap w !! model (self w) = Some (OModel m1) ->
  fit_sample t rs w = (Ok r, w') ->
  extends w w' /\
  exists mb yb m_fit,
    heap w !! mb = None /\
    Base.model_fit t yb m1 = (Ok tt, m_fit) /\
    heap w' !! mb = Some (OModel m_fit) /\
    r = (if save_models (self w) then Some mb else None,
         Base.model_parameters m_fit).
Proof.
  intros Hm1 E. unfold fit_sample in E.
  apply bind_Ok_inv in E as (w0 & ? & [= <- <-] & E).
  apply bind_Ok_inv in E as (m & ? & [Hm ->]%read_model_inv & E).
  assert (m = m1) as -> by congruence. clear Hm.
  apply bind_Ok_inv in E as (mb & w1 & [Hfresh ->]%alloc_inv & E).
  apply bind_Ok_inv in E as (yb & w2 & Egen & E).
  apply bind_Ok_inv in E as ([] & w3 & Efit & E).
  apply bind_Ok_inv in E as (m_fit & ? & [Hfit ->]%read_model_inv & E).
  apply on_model_inv in Efit as (m & m' & Hmb & Em & ->).
  pose proof (generate_bootstrap_sample_extends _ _ _ _ Egen) as Hext.
  pose proof (extends_insert_fresh w mb (OModel m1) Hfresh) as Hext0.
  assert (m = m1) as ->.
  { destruct Hext as (_ & K & _).
    specialize (K mb m1). cbn in K. rewrite lookup_insert_eq in K.
    specialize (K eq_refl). congruence. }
  cbn in Hfit. rewrite lookup_insert_eq in Hfit. injection Hfit as ->.
  assert (extends w (set_heap (insert mb (OModel m_fit)) w2)) as Hfinal.
  { destruct Hext as (Es & K & D). destruct Hext0 as (Es0 & K0 & D0).
    repeat split; cbn.
    - congruence.
    - intros l m Hl. rewrite lookup_insert_ne by congruence. auto.
    - intros l Hl. destruct (decide (mb = l)) as [<-|].
      + rewrite lookup_insert_eq. eauto.
      + rewrite lookup_insert_ne by done. auto. }
  assert (r = (if save_models (self w) then Some mb else None,
               Base.model_parameters m_fit)
          /\ w' = set_heap (insert mb (OModel m_fit)) w2) as [-> ->].
  { destruct (save_models (self w)); by injection E as <- <-. }
  split; [exact Hfinal|].
  exists mb, yb, m_fit. repeat split; try done.
  cbn. by rewrite lookup_insert_eq.
Qed.

Lemma new_random_state_extends w l w' :
  new_random_state entropy w = (Ok l, w') -> extends w w'.
Proof.
  unfold new_random_state. unfold_action. intros E.
  apply alloc_inv in E as [Hl ->].
  trans {| heap := heap w; entropy_used := S (entropy_used w);
           self := self w |}.
  - by repeat split.
  - by apply extends_insert_fresh.
Qed.

Lemma draws_inv {X} (f : X -> option loc) (xs : list X) t w1 res w2 m1 :
  heap w1 !! model (self w1) = Some (OModel m1) ->
  mapM (fun x => fit_sample t (f x)) xs w1 = (Ok res, w2) ->
  extends w1 w2 /\ length res = length xs /\ Forall (draw_of t m1 w1 w2) res.
Proof.
  intros Hm1 E.
  apply (mapM_Ok_inv _ extends
           (fun s0 r s1 =>
              exists mb yb m_fit,
                heap s0 !! mb = None /\
                Base.model_fit t yb m1 = (Ok tt, m_fit) /\
                heap s1 !! mb = Some (OModel m_fit) /\
                r = (if save_models (self w1) then Some mb else None,
                     Base.model_parameters m_fit))) in E.
  - destruct E as (Hext & Hlen & Hall). split; [done|]. split; [done|].
    eapply Forall_impl; [exact Hall|]. cbn.
    intros r (s0 & s1 & (E0 & K0 & D0) & (E1 & K1 & D1) & mb & yb & m_fit
                 & Hnone & Hfit & Hmb & ->).
    exists mb, yb, m_fit. repeat split; [|done|by apply K1].
    destruct (heap w1 !! mb) eqn:Hw1; [|done].
    destruct (D0 mb ltac:(eauto)) as [o' Ho]. congruence.
  - intros x s0 r s1 (E0 & K0 & D0) Estep.
    assert (heap s0 !! model (self s0) = Some (OModel m1)) as Hs0
      by (rewrite E0; by apply K0).
    destruct (fit_sample_inv _ _ _ _ _ _ Hs0 Estep)
      as (Hext & mb & yb & m_fit & ? & ? & ? & ->).
    split; [done|]. exists mb, yb, m_fit. by rewrite E0.
Qed.

(** The loop of draws, started with the fitted model [m1] in place. *)
Lemma draws_loop_inv t w1 res w2 m1 :
  heap w1 !! model (self w1) = Some (OModel m1) ->
  draws use_dask entropy t w1 = (Ok res, w2) ->
  extends w1 w2 /\
  length res = Z.to_nat (n_samples (self w1)) /\
  Forall (draw_of t m1 w1 w2) res.
Proof.
  intros Hm1 E. unfold draws in E.
  apply bind_Ok_inv in E as (w0 & ? & [= <- <-] & Edraws).
  destruct use_dask.
  - apply bind_Ok_inv in Edraws as (rss & wa & Erss & Edraws).
    apply (mapM_Ok_inv _ extends (fun _ _ _ => True)) in Erss
      as (Hexta & Hlena & _);
      [|intros ? ? ? ? _ ?%new_random_state_extends; done].
    assert (heap wa !! model (self wa) = Some (OModel m1)) as Hma.
    { destruct Hexta as (-> & K & _). by apply K. }
    apply (draws_inv Some _ _ _ _ _ m1) in Edraws as (Hext & Hlen & Hall);
      [|done].
    rewrite length_seq in Hlena. split; [|split].
    + by etrans.
    + lia.
    + eapply Forall_impl; [exact Hall|].
      intros r (mb & yb & m_fit & Hnone & ? & ? & ->).
      destruct Hexta as (Ea & Ka & Da).
      exists mb, yb, m_fit. split; [|split; [done|split; [done|by rewrite Ea]]].
      destruct (heap w1 !! mb) eqn:Hw1; [|done].
      destruct (Da mb ltac:(eauto)) as [o' Ho]. congruence.
  - apply (draws_inv (fun _ => None) _ _ _ _ _ m1) in Edraws
      as (Hext & Hlen & Hall); [|done].
    rewrite length_seq in Hlen. done.
Qed.

(** The shape of every run of [_fit] that returns: one fit of the model on
    the data, then the draws, then the results recorded in the engine. *)
Lemma _fit_inv t y w w' m0 :
  heap w !! model (self w) = Some (OModel m0) ->
  _fit use_dask entropy t y w = (Ok tt, w') ->
  exists m1 w2 res,
    Base.model_fit t y m0 = (Ok tt, m1) /\
    draws use_dask entropy t
      (set_heap (insert (model (self w)) (OModel m1)) w) = (Ok res, w2) /\
    w' = set_self (fun e => foldl (fun e r => record_sample r e) e res) w2.
Proof.
  intros Hm0 E. unfold _fit in E.
  apply bind_Ok_inv in E as (w0 & ? & [= <- <-] & E).
  apply bind_Ok_inv in E as ([] & w1 & Efit & E).
  apply on_model_inv in Efit as (m & m1 & Hm & Em & ->).
  assert (m = m0) as -> by congruence.
  apply bind_Ok_inv in E as (res & w2 & Edraws & E).
  injection E as <-. by exists m1, w2, res.
Qed.

(** [fit] is [_fit] between two updates of the engine's own record, which
    touch neither the store nor the recorded distributions: what is said
    below of [_fit] holds of [fit] as well. *)
Lemma fit_inv t y w w' :
  fit use_dask entropy t y w = (Ok tt, w') ->
  exists w1 y_predict,
    _fit use_dask entropy t y
      (set_base {| Base._t := t; Base._y := y;
                   Base._y_predict := Base._y_predict (base (self w));
                   Base._fitted := Base._fitted (base (self w)) |} w)
    = (Ok tt, w1) /\
    _predict w1 t = Ok y_predict /\
    w' = set_base {| Base._t := t; Base._y := y;
                     Base._y_predict := y_predict;
                     Base._fitted := true |} w1.
Proof.
  unfold fit, Base.fit. intros E.
  apply bind_Ok_inv in E as ([] & w0 & [= <-] & E).
  apply bind_Ok_inv in E as ([] & w1 & E1 & E).
  apply bind_Ok_inv in E as (w1' & ? & [= <- <-] & E).
  apply bind_Ok_inv in E as (yp & ? & [Hyp ->]%lift_Ok_inv & E).
  apply bind_Ok_inv in E as ([] & w2 & [= <-] & [= <-]).
  by exists w1, yp.
Qed.

Lemma dist_record_sample (r : option loc * gmap string pyvalue)
    (e : BootstrapEstimator) (k : string) :
  dist (record_sample r e) k = dist e k ++ option_list (r.2 !! k).
Proof.
  unfold dist, record_sample, append_parameters. cbn.
  rewrite lookup_merge.
  destruct (_parameter_dists e !! k) as [old|], (r.2 !! k) as [v|]; cbn;
    by rewrite ?app_nil_r.
Qed.

Lemma dist_foldl_record_sample (res : list (option loc * gmap string pyvalue))
    (e : BootstrapEstimator) (k : string) :
  dist (foldl (fun e r => record_sample r e) e res) k
  = dist e k ++ omap (fun r => r.2 !! k) res.
Proof.
  revert e. induction res as [|r res IH]; intros e; cbn.
  - by rewrite app_nil_r.
  - rewrite IH, dist_record_sample.
    destruct (r.2 !! k); cbn; by rewrite <- ?app_assoc, ?app_nil_r.
Qed.

Lemma model_foldl_record_sample (res : list (option loc * gmap string pyvalue))
    (e : BootstrapEstimator) :
  model (foldl (fun e r => record_sample r e) e res) = model e.
Proof. revert e. induction res as [|r res IH]; intros e; cbn; [done|]. by rewrite IH. Qed.

Lemma length_omap_is_Some {A B} (f : A -> option B) (l : list A) :
  Forall (fun a => is_Some (f a)) l -> length (omap f l) = length l.
Proof.
  induction 1 as [|a l [b Hb] _ IH]; cbn; [done|].
  rewrite Hb. cbn. by rewrite IH.
Qed.

Lemma Forall_exists_list {A B} (P : A -> B -> Prop) (l : list A) :
  Forall (fun a => exists b, P a b) l -> exists k, Forall2 P l k.
Proof.
  induction 1 as [|a l [b Hb] _ [k Hk]].
  - by exists [].
  - exists (b :: k). by constructor.
Qed.

(** C9. In every run of the engine's [_fit] that returns, the wrapped model
    is fitted once on the data, before the draws, and that is the only write
    to it: at the end the engine still refers to the same object, which
    holds exactly the state [m1] that this one fit produced (so its
    parameters, residuals and predicted values are those of that fit).
    Each of the [n_samples] draws worked on an object that did not exist
    before the call, a copy of [m1] refitted on a generated sample, and no
    other model object was written. *)
Theorem C9_base_model_fitted_once t y w w' m0 :
  heap w !! model (self w) = Some (OModel m0) ->
  _fit use_dask entropy t y w = (Ok tt, w') ->
  exists m1,
    Base.model_fit t y m0 = (Ok tt, m1) /\
    model (self w') = model (self w) /\
    heap w' !! model (self w) = Some (OModel m1) /\
    (forall l m, l <> model (self w) ->
       heap w !! l = Some (OModel m) -> heap w' !! l = Some (OModel m)) /\
    exists copies : list loc,
      length copies = Z.to_nat (n_samples (self w)) /\
      Forall (fun mb =>
                heap w !! mb = None /\
                exists yb m_fit,
                  Base.model_fit t yb m1 = (Ok tt, m_fit) /\
                  heap w' !! mb = Some (OModel m_fit)) copies.
Proof.
  intros Hm0 E.
  destruct (_fit_inv _ _ _ _ _ Hm0 E) as (m1 & w2 & res & Hfit & Edraws & ->).
  apply (draws_loop_inv _ _ _ _ m1) in Edraws
    as ((Es & K & D) & Hlen & Hall); [|cbn; by rewrite lookup_insert_eq].
  exists m1. split; [done|]. cbn in *. repeat split.
  - by rewrite model_foldl_record_sample, Es.
  - apply K. by rewrite lookup_insert_eq.
  - intros l m Hl Hlm. apply K. by rewrite lookup_insert_ne.
  - assert (Forall (fun r => exists mb,
              heap w !! mb = None /\
              exists yb m_fit,
                Base.model_fit t yb m1 = (Ok tt, m_fit) /\
                heap w2 !! mb = Some (OModel m_fit)) res) as Hall'.
    { eapply Forall_impl; [exact Hall|].
      intros r (mb & yb & m_fit & Hnone & ? & ? & _).
      exists mb. split; [|by exists yb, m_fit].
      cbn in Hnone. by apply lookup_insert_None in Hnone as [? _]. }
    apply Forall_exists_list in Hall' as [copies Hcopies].
    exists copies. split.
    + by rewrite <- (Forall2_length _ _ _ Hcopies).
    + eapply Forall2_Forall_r; [exact Hcopies|].
      apply Forall_forall. intros r _ mb Hmb. exact Hmb.
Qed.

(** C10. In every run of the engine's [_fit] that returns, the loop of draws
    yields exactly [n_samples] results, in draw order, each the parameter
    dictionary of a refitted copy of the fitted model, and for every name
    [k] the values recorded after the call are those recorded before it
    followed by the values of [k] in these results, in that order.  Nothing
    is removed; a name that all the draws have gains exactly [n_samples]
    values, as does every parameter name of the fitted model when refitting
    keeps the names; on an engine with nothing recorded the new values are
    all there is. *)
Theorem C10_fit_appends_n_samples t y w w' m0 :
  heap w !! model (self w) = Some (OModel m0) ->
  _fit use_dask entropy t y w = (Ok tt, w') ->
  exists m1 res w2,
    Base.model_fit t y m0 = (Ok tt, m1) /\
    draws use_dask entropy t
      (set_heap (insert (model (self w)) (OModel m1)) w) = (Ok res, w2) /\
    length res = Z.to_nat (n_samples (self w)) /\
    Forall (fun r => exists yb m_fit,
                       Base.model_fit t yb m1 = (Ok tt, m_fit) /\
                       r.2 = Base.model_parameters m_fit) res /\
    (forall k, dist (self w') k
               = dist (self w) k ++ omap (fun r => r.2 !! k) res) /\
    (forall k, Forall (fun r => is_Some (r.2 !! k)) res ->
               length (dist (self w') k)
               = (length (dist (self w) k) + Z.to_nat (n_samples (self w)))%nat) /\
    ((forall yb m_fit, Base.model_fit t yb m1 = (Ok tt, m_fit) ->
        dom (Base.model_parameters m_fit) = dom (Base.model_parameters m1)) ->
     forall k, k ∈ dom (Base.model_parameters m1) ->
               length (dist (self w') k)
               = (length (dist (self w) k) + Z.to_nat (n_samples (self w)))%nat) /\
    (_parameter_dists (self w) = ∅ ->
     forall k, dist (self w') k = omap (fun r => r.2 !! k) res).
Proof.
  intros Hm0 E.
  destruct (_fit_inv _ _ _ _ _ Hm0 E) as (m1 & w2 & res & Hfit & Edraws & ->).
  pose proof Edraws as Hloop.
  apply (draws_loop_inv _ _ _ _ m1) in Hloop
    as ((Es & K & D) & Hlen & Hall); [|cbn; by rewrite lookup_insert_eq].
  exists m1, res, w2. cbn in *.
  assert (Hdraws : Forall (fun r => exists yb m_fit,
                     Base.model_fit t yb m1 = (Ok tt, m_fit) /\
                     r.2 = Base.model_parameters m_fit) res).
  { eapply Forall_impl; [exact Hall|].
    intros r (mb & yb & m_fit & _ & ? & _ & ->). by exists yb, m_fit. }
  assert (Hdist : forall k,
            dist (foldl (fun e r => record_sample r e) (self w2) res) k
            = dist (self w) k ++ omap (fun r => r.2 !! k) res).
  { intros k. by rewrite dist_foldl_record_sample, Es. }
  assert (Hall_some : forall k,
            Forall (fun r : option loc * gmap string pyvalue =>
                      is_Some (r.2 !! k)) res ->
            length (omap (fun r : option loc * gmap string pyvalue =>
                            r.2 !! k) res)
            = Z.to_nat (n_samples (self w))).
  { intros k Hk. rewrite <- Hlen. by apply length_omap_is_Some. }
  split; [done|]. split; [done|]. split; [done|]. split; [done|].
  split; [done|]. split; [|split].
  - intros k Hk. by rewrite Hdist, length_app, Hall_some.
  - intros Hkeys k Hk. rewrite Hdist, length_app, Hall_some; [done|].
    eapply Forall_impl; [exact Hdraws|].
    intros r (yb & m_fit & Hpb & ->).
    apply (elem_of_dom (D:=gset string)). by rewrite (Hkeys _ _ Hpb).
  - intros Hempty k. rewrite Hdist. unfold dist. by rewrite Hempty, lookup_empty.
Qed.

End EngineFit.

(** An instance of C9: a new engine with two draws around the new
    intercept-only model, fitted on two points. *)
Lemma C9_base_model_fitted_once_witness :
  exists m1 : Models.LinearModel,
    Base.model_fit Examples.t2 Examples.y2 Examples.new_model = (Ok tt, m1) /\
    Bootstrap.heap Examples.engine_fitted_once !! 1%positive
      = Some (Bootstrap.OModel m1) /\
    exists copies : list Bootstrap.loc,
      length copies = 2%nat /\
      Forall (fun mb =>
                Bootstrap.heap (Examples.engine Examples.new_model 2 false) !! mb
                  = None /\
                exists yb m_fit,
                  Base.model_fit Examples.t2 yb m1 = (Ok tt, m_fit) /\
                  Bootstrap.heap Examples.engine_fitted_once !! mb
                    = Some (Bootstrap.OModel m_fit)) copies.
Proof.
  destruct (C9_base_model_fitted_once false (fun _ => Examples.generator)
              Examples.t2 Examples.y2
              (Examples.engine Examples.new_model 2 false)
              Examples.engine_fitted_once Examples.new_model)
    as (m1 & H1 & _ & H3 & _ & H5).
  - reflexivity.
  - vm_compute. reflexivity.
  - exists m1. split; [exact H1|]. split; [exact H3 | exact H5].
Defined.

(** An instance of C10: a second [_fit] of the engine of the examples, which
    holds two values of every parameter from its first [_fit] and four after
    the second. *)
Lemma C10_fit_appends_n_samples_witness :
  exists (m1 : Models.LinearModel)
         (res : list (option Bootstrap.loc * gmap string pyvalue)),
    Base.model_fit Examples.t2 Examples.y2 Examples.fitted_model = (Ok tt, m1) /\
    length res = 2%nat /\
    (forall k, Bootstrap.dist (Bootstrap.self Examples.engine_fitted_twice) k
               = Bootstrap.dist (Bootstrap.self Examples.engine_fitted_once) k
                 ++ omap (fun r => r.2 !! k) res) /\
    (forall k, k ∈ dom (Base.model_parameters m1) ->
               length (Bootstrap.dist
                         (Bootstrap.self Examples.engine_fitted_twice) k)
               = (length (Bootstrap.dist
                            (Bootstrap.self Examples.engine_fitted_once) k)
                  + 2)%nat).
Proof.
  destruct (C10_fit_appends_n_samples false (fun _ => Examples.generator)
              Examples.t2 Examples.y2
              Examples.engine_fitted_once Examples.engine_fitted_twice
              Examples.fitted_model)
    as (m1 & res & w2 & H1 & _ & H2 & _ & H4 & _ & H6 & _).
  - vm_compute. reflexivity.
  - vm_compute. reflexivity.
  - exists m1, res. split; [exact H1|]. split; [exact H2|].
    split; [exact H4|]. apply H6. intros yb m_fit Hfit.
    exact (linear_refit_keeps_names Examples.lstsq Examples.dual_annealing
             _ _ _ _ _ _ _ H1 Hfit).
Defined.

(** ** Confidence intervals *)

Section Quantile.

#[local] Open Scope R_scope.

Lemma lerp_eq a b t : Numpy.lerp a b t = a + (b - a) * t.
Proof. unfold Numpy.lerp. destruct (Rle_dec (1 / 2) t); lra. Qed.

Lemma insert_sorted_length x l :
  length (Numpy.insert_sorted x l) = S (length l).
Proof.
  induction l as [|y l IH]; cbn; [done|].
  destruct (Rle_dec x y); cbn; by rewrite ?IH.
Qed.

Lemma sort_length l : length (Numpy.sort l) = length l.
Proof.
  induction l as [|x l IH]; cbn; [done|].
  unfold Numpy.sort in IH. by rewrite insert_sorted_length, IH.
Qed.

Lemma insert_sorted_Forall (P : R -> Prop) x l :
  P x -> Forall P l -> Forall P (Numpy.insert_sorted x l).
Proof.
  intros Hx. induction 1 as [|y l Hy Hl IH]; cbn.
  - by repeat constructor.
  - destruct (Rle_dec x y); repeat constructor; auto.
Qed.

Lemma insert_sorted_StronglySorted x l :
  StronglySorted Rle l -> StronglySorted Rle (Numpy.insert_sorted x l).
Proof.
  induction 1 as [|y l Hl IH Hy]; cbn.
  - repeat constructor.
  - destruct (Rle_dec x y) as [Hxy|Hxy].
    + constructor; [by constructor|].
      constructor; [done|].
      eapply Forall_impl; [exact Hy|]. intros z Hz. cbn in Hz. lra.
    + constructor; [done|].
      apply insert_sorted_Forall; [lra | done].
Qed.

Lemma sort_StronglySorted l : StronglySorted Rle (Numpy.sort l).
Proof.
  induction l as [|x l IH]; cbn; [constructor|].
  by apply insert_sorted_StronglySorted.
Qed.

Lemma StronglySorted_nth l (i j : nat) :
  StronglySorted Rle l -> (i <= j < length l)%nat -> nth i l 0 <= nth j l 0.
Proof.
  intros Hl. revert i j. induction Hl as [|x l Hl IH Hx]; intros i j Hij.
  - cbn in Hij. lia.
  - destruct i as [|i], j as [|j]; cbn in *; try lia; try lra.
    + rewrite Forall_forall in Hx. apply Hx, list_elem_of_In, nth_In. lia.
    + apply IH. lia.
Qed.

(** The index below the virtual index [(n - 1) q] of a sample of size
    [n >= 1], for [q] in [[0, 1]]. *)
Lemma previous_index_bounds (n : nat) (q : R) :
  (1 <= n)%nat -> 0 <= q <= 1 ->
  let v := INR (n - 1) * q in
  let p := Z.to_nat (Zfloor v) in
  (p <= n - 1)%nat /\ INR p <= v < INR p + 1.
Proof.
  intros Hn Hq v p.
  assert (0 <= INR (n - 1)) as HN by apply pos_INR.
  assert (0 <= v <= INR (n - 1)) as Hv by (unfold v; nra).
  pose proof (Zfloor_bound v) as Hfl.
  assert (0 <= Zfloor v)%Z as H0 by (apply Zfloor_lub; cbn; lra).
  assert (INR p = IZR (Zfloor v)) as Hp.
  { unfold p. rewrite INR_IZR_INZ, Z2Nat.id; [done | lia]. }
  split; [|rewrite Hp; lra].
  apply INR_le. rewrite Hp. lra.
Qed.

Lemma quantile_sorted_mono (arr : list R) (q1 q2 : R) :
  StronglySorted Rle arr -> (1 <= length arr)%nat ->
  0 <= q1 -> q1 <= q2 -> q2 <= 1 ->
  Numpy.quantile_sorted arr q1 <= Numpy.quantile_sorted arr q2.
Proof.
  intros Hs Hn H0 H12 H1. unfold Numpy.quantile_sorted.
  set (n := length arr) in *.
  destruct (previous_index_bounds n q1 Hn ltac:(lra)) as [Hp1 Hg1].
  destruct (previous_index_bounds n q2 Hn ltac:(lra)) as [Hp2 Hg2].
  set (v1 := INR (n - 1) * q1) in *. set (v2 := INR (n - 1) * q2) in *.
  set (p1 := Z.to_nat (Zfloor v1)) in *. set (p2 := Z.to_nat (Zfloor v2)) in *.
  assert (v1 <= v2) as Hv.
  { unfold v1, v2. pose proof (pos_INR (n - 1)). nra. }
  assert (p1 <= p2)%nat as Hp.
  { unfold p1, p2. apply Z2Nat.inj_le.
    - apply Zfloor_lub. cbn. unfold v1. pose proof (pos_INR (n - 1)). nra.
    - apply Zfloor_lub. cbn. unfold v2. pose proof (pos_INR (n - 1)). nra.
    - by apply Zfloor_le. }
  rewrite !lerp_eq.
  assert (Hab : forall p, (p <= n - 1)%nat ->
            nth p arr 0 <= nth (Nat.min (p + 1) (n - 1)) arr 0).
  { intros p Hpn. apply StronglySorted_nth; [done | fold n; lia]. }
  pose proof (Hab p1 Hp1) as Hab1. pose proof (Hab p2 Hp2) as Hab2.
  destruct (decide (p1 = p2)) as [E|Hne].
  - rewrite <- E in *. nra.
  - assert (nth (Nat.min (p1 + 1) (n - 1)) arr 0 <= nth p2 arr 0) as Hmid.
    { apply StronglySorted_nth; [done | fold n; lia]. }
    nra.
Qed.

Lemma quantile_1d_mono (a : list R) (q1 q2 : R) :
  a <> [] -> 0 <= q1 -> q1 <= q2 -> q2 <= 1 ->
  Numpy.quantile_1d a q1 <= Numpy.quantile_1d a q2.
Proof.
  intros Ha. unfold Numpy.quantile_1d.
  apply quantile_sorted_mono; [apply sort_StronglySorted|].
  rewrite sort_length. destruct a; [done | cbn; lia].
Qed.

Lemma mapM_as_float_cons x v a :
  mapM Numpy.as_float (VFloat x :: v) = Some a -> a <> [].
Proof.
  cbn. destruct (mapM Numpy.as_float v); cbn; [|done]. by intros [= <-].
Qed.

Lemma mapM_as_array_cons x0 v rows :
  mapM Numpy.as_array (VArray x0 :: v) = Some rows -> rows <> [].
Proof.
  cbn. destruct (mapM Numpy.as_array v); cbn; [|done]. by intros [= <-].
Qed.

Lemma mapM_as_float_map a : mapM Numpy.as_float (map VFloat a) = Some a.
Proof. induction a as [|x a IH]; cbn; [done|]. by rewrite IH. Qed.

Lemma mapM_as_array_map rows : mapM Numpy.as_array (map VArray rows) = Some rows.
Proof. induction rows as [|x rows IH]; cbn; [done|]. by rewrite IH. Qed.

(** The quantile of a list of draws does not decrease with [q]. *)
Lemma quantile_mono (v : list pyvalue) (q1 q2 : R) (x1 x2 : pyvalue) :
  Numpy.quantile v q1 = Ok x1 -> Numpy.quantile v q2 = Ok x2 ->
  q1 <= q2 -> value_le x1 x2.
Proof.
  unfold Numpy.quantile. destruct v as [|[|x|x0] v]; try discriminate.
  - destruct (mapM Numpy.as_float _) as [a|] eqn:Ha; [|discriminate].
    apply mapM_as_float_cons in Ha.
    repeat destruct (Rle_dec _ _); try discriminate.
    intros [= <-] [= <-] Hq. cbn. by apply quantile_1d_mono.
  - destruct (mapM Numpy.as_array _) as [rows|] eqn:Hrows; [|discriminate].
    apply mapM_as_array_cons in Hrows.
    destruct (forallb _ rows); [|discriminate].
    repeat destruct (Rle_dec _ _); try discriminate.
    intros [= <-] [= <-] Hq. cbn.
    apply Forall2_fmap, Forall_Forall2_diag, Forall_forall. intros j _.
    apply quantile_1d_mono; try done.
    destruct rows; [done | discriminate].
Qed.

(** It is defined on every sample for every [q] in [[0, 1]]. *)
Lemma quantile_Ok (v : list pyvalue) (q : R) :
  sample_shaped v -> 0 <= q <= 1 -> exists x, Numpy.quantile v q = Ok x.
Proof.
  intros [Hne [[a ->]|(n & rows & -> & Hrows)]] [Hq0 Hq1]; unfold Numpy.quantile.
  - destruct a as [|x a]; [done|]. cbn [map].
    pose proof (mapM_as_float_map (x :: a)) as E. cbn [map] in E. rewrite E.
    destruct (Rle_dec 0 q); [|done]. destruct (Rle_dec q 1); [|done]. eauto.
  - destruct rows as [|x0 rows]; [done|]. cbn [map].
    pose proof (mapM_as_array_map (x0 :: rows)) as E. cbn [map] in E.
    rewrite E.
    replace (forallb _ (x0 :: rows)) with true.
    + destruct (Rle_dec 0 q); [|done]. destruct (Rle_dec q 1); [|done]. eauto.
    + symmetry. apply forallb_forall. intros row Hrow.
      apply Nat.eqb_eq. rewrite Forall_forall in Hrows.
      rewrite (Hrows row) by (by apply list_elem_of_In).
      symmetry. apply Hrows. by left.
Qed.

Lemma ci_bounds_of_Ok (c : R) (v : list pyvalue) :
  sample_shaped v -> 0 <= c <= 1 -> exists b, Bootstrap.ci_bounds_of c v = Ok b.
Proof.
  intros Hv Hc. unfold Bootstrap.ci_bounds_of.
  destruct (quantile_Ok v ((1 - c) / 2) Hv ltac:(lra)) as [lo ->].
  destruct (quantile_Ok v (1 - (1 - c) / 2) Hv ltac:(lra)) as [hi ->].
  cbn. eauto.
Qed.

Lemma ci_bounds_of_inv (c : R) (v : list pyvalue) lo hi :
  Bootstrap.ci_bounds_of c v = Ok (lo, hi) ->
  Numpy.quantile v ((1 - c) / 2) = Ok lo /\
  Numpy.quantile v (1 - (1 - c) / 2) = Ok hi.
Proof.
  unfold Bootstrap.ci_bounds_of.
  destruct (Numpy.quantile v ((1 - c) / 2)) as [lo'|]; [|done]. cbn.
  destruct (Numpy.quantile v (1 - (1 - c) / 2)) as [hi'|]; [|done]. cbn.
  by intros [= <- <-].
Qed.

End Quantile.

Section ConfidenceIntervals.

Context {M : Type} `{!Base.Estimator M}.
Import Bootstrap.
Implicit Types (w : World (M:=M)).

#[local] Open Scope R_scope.

Lemma get_ci_bounds_inv (c : R) w b w' :
  get_ci_bounds c w = (Ok b, w') ->
  w' = w /\
  (forall k v, _parameter_dists (self w) !! k = Some v ->
     exists bnd, ci_bounds_of c v = Ok bnd /\ b !! k = Some bnd) /\
  (forall k, _parameter_dists (self w) !! k = None -> b !! k = None).
Proof.
  unfold get_ci_bounds. intros E.
  apply bind_Ok_inv in E as (w0 & ? & [= <- <-] & E).
  destruct (negb _); [done|].
  apply bind_Ok_inv in E as (cb & ? & [Hcb ->]%lift_Ok_inv & [= <- <-]).
  apply mapM_result_Ok_inv in Hcb.
  assert (Hfst : cb.*1 = (map_to_list (_parameter_dists (self w))).*1).
  { induction Hcb as [|[k v] kb l cb' Hkb _ IH]; cbn; [done|].
    destruct (ci_bounds_of c v); [|done]. injection Hkb as <-.
    cbn. by rewrite IH. }
  split; [done|]. split.
  - intros k v Hk.
    apply elem_of_map_to_list, list_elem_of_lookup in Hk as [i Hi].
    destruct (Forall2_lookup_l _ _ _ _ _ Hcb Hi) as (kb & Hin & Hkb).
    cbn in Hkb. destruct (ci_bounds_of c v) as [bnd|]; [|done].
    injection Hkb as <-. exists bnd. split; [done|].
    apply elem_of_list_to_map_1; [rewrite Hfst; apply NoDup_fst_map_to_list|].
    by eapply list_elem_of_lookup_2.
  - intros k Hk. apply not_elem_of_list_to_map_1. rewrite Hfst.
    intros ([k' v] & -> & Hin%elem_of_map_to_list)%list_elem_of_fmap.
    cbn in Hk. congruence.
Qed.

Lemma get_ci_bounds_Ok (c : R) w :
  Base._fitted (base (self w)) = true ->
  (forall k v, _parameter_dists (self w) !! k = Some v -> sample_shaped v) ->
  0 <= c <= 1 ->
  exists b, get_ci_bounds c w = (Ok b, w).
Proof.
  intros Hf Hv Hc. unfold get_ci_bounds.
  unfold mbind at 1. unfold action_bind, get. rewrite Hf. cbn [negb].
  unfold mbind at 1. unfold action_bind, lift.
  destruct (mapM_result_Ok
              (fun '(k, v) => b ← ci_bounds_of c v; Ok (k, b))
              (map_to_list (_parameter_dists (self w)))) as [cb Hcb].
  - apply Forall_forall. intros [k v] Hkv%elem_of_map_to_list.
    destruct (ci_bounds_of_Ok c v (Hv k v Hkv) Hc) as [b ->]. cbn. eauto.
  - rewrite Hcb. eauto.
Qed.

(** C5. On a fitted engine whose recorded distributions are samples
    (non-empty and of one shape), [get_ci_bounds] returns at every level in
    [[0, 1]], leaves the engine as it is, and gives bounds for exactly the
    recorded parameters: the quantiles of orders [(1 - c) / 2] and
    [1 - (1 - c) / 2], taken element by element for arrays.  The lower bound
    never exceeds the upper bound, and at a higher level the lower bound is
    no higher and the upper bound no lower. *)
Theorem C5_ci_bounds_ordered_and_widening w (c1 c2 : R) :
  Base._fitted (base (self w)) = true ->
  (forall k v, _parameter_dists (self w) !! k = Some v -> sample_shaped v) ->
  0 <= c1 -> c1 <= c2 -> c2 <= 1 ->
  exists b1 b2,
    get_ci_bounds c1 w = (Ok b1, w) /\
    get_ci_bounds c2 w = (Ok b2, w) /\
    forall k,
      match _parameter_dists (self w) !! k with
      | None => b1 !! k = None /\ b2 !! k = None
      | Some v =>
          exists lo1 hi1 lo2 hi2,
            b1 !! k = Some (lo1, hi1) /\ b2 !! k = Some (lo2, hi2) /\
            Numpy.quantile v ((1 - c1) / 2) = Ok lo1 /\
            Numpy.quantile v (1 - (1 - c1) / 2) = Ok hi1 /\
            Numpy.quantile v ((1 - c2) / 2) = Ok lo2 /\
            Numpy.quantile v (1 - (1 - c2) / 2) = Ok hi2 /\
            value_le lo1 hi1 /\ value_le lo2 hi2 /\
            value_le lo2 lo1 /\ value_le hi1 hi2
      end.
Proof.
  intros Hf Hv H0 H12 H1.
  destruct (get_ci_bounds_Ok c1 w Hf Hv ltac:(lra)) as [b1 Hb1].
  destruct (get_ci_bounds_Ok c2 w Hf Hv ltac:(lra)) as [b2 Hb2].
  exists b1, b2. split; [done|]. split; [done|].
  apply get_ci_bounds_inv in Hb1 as (_ & Hs1 & Hn1).
  apply get_ci_bounds_inv in Hb2 as (_ & Hs2 & Hn2).
  intros k. destruct (_parameter_dists (self w) !! k) as [v|] eqn:Hk.
  - destruct (Hs1 k v Hk) as ([lo1 hi1] & [Hlo1 Hhi1]%ci_bounds_of_inv & Hk1).
    destruct (Hs2 k v Hk) as ([lo2 hi2] & [Hlo2 Hhi2]%ci_bounds_of_inv & Hk2).
    exists lo1, hi1, lo2, hi2. repeat split; try done.
    + eapply quantile_mono; [exact Hlo1 | exact Hhi1 | lra].
    + eapply quantile_mono; [exact Hlo2 | exact Hhi2 | lra].
    + eapply quantile_mono; [exact Hlo2 | exact Hlo1 | lra].
    + eapply quantile_mono; [exact Hhi1 | exact Hhi2 | lra].
  - split; auto.
Qed.

End ConfidenceIntervals.

Lemma sample_shaped_floats (a : list R) :
  a <> [] -> sample_shaped (map VFloat a).
Proof. intros Ha. split; [by destruct a | left; by exists a]. Qed.

Lemma sample_shaped_arrays (n : nat) (rows : list (list R)) :
  rows <> [] -> Forall (fun row => length row = n) rows ->
  sample_shaped (map VArray rows).
Proof. intros Ha Hn. split; [by destruct rows | right; by exists n, rows]. Qed.

(** An instance of C5: the engine of the examples after its fit, at the
    levels 0.5 and 0.95. *)
Lemma C5_ci_bounds_ordered_and_widening_witness :
  exists b1 b2,
    Bootstrap.get_ci_bounds (1 / 2) Examples.engine_after_fit
      = (Ok b1, Examples.engine_after_fit) /\
    Bootstrap.get_ci_bounds (95 / 100) Examples.engine_after_fit
      = (Ok b2, Examples.engine_after_fit) /\
    exists lo1 hi1 lo2 hi2,
      b1 !! "intercept" = Some (lo1, hi1) /\
      b2 !! "intercept" = Some (lo2, hi2) /\
      value_le lo1 hi1 /\ value_le lo2 hi2 /\
      value_le lo2 lo1 /\ value_le hi1 hi2.
Proof.
  destruct (C5_ci_bounds_ordered_and_widening Examples.engine_after_fit
              (1 / 2) (95 / 100)) as (b1 & b2 & H1 & H2 & H3).
  - reflexivity.
  - apply map_Forall_to_list.
    set (l := map_to_list _). vm_compute in l. subst l.
    constructor; [|constructor; [|constructor]]; cbn;
      first [ apply (sample_shaped_arrays 0 [[]; []]);
                [done | by repeat constructor]
            | match goal with
              | |- sample_shaped [VFloat ?x; VFloat ?y] =>
                  by apply (sample_shaped_floats [x; y])
              end ].
  - lra.
  - lra.
  - lra.
  - exists b1, b2. split; [exact H1|]. split; [exact H2|].
    specialize (H3 "intercept").
    destruct (Bootstrap._parameter_dists
                (Bootstrap.self Examples.engine_after_fit) !! "intercept")
      as [v|] eqn:Hv; [|vm_compute in Hv; discriminate].
    destruct H3 as (lo1 & hi1 & lo2 & hi2 & ? & ? & _ & _ & _ & _ & ? & ? & ? & ?).
    exists lo1, hi1, lo2, hi2. repeat split; assumption.
Defined.

(** ** The change-point model *)

Section ChangePoint.

Import Models.

Variable lstsq : list (list R) -> list R -> result (list R * list R).
Variable dual_annealing :
  (R -> result float_ext) -> list (R * R) -> gmap string pyarg ->
  result (list R * OptimizeResult).

Lemma length_regressor_terms_no_trend (f : nat) (t : list R) :
  length (_regressor_terms_no_trend f t).2 = (2 * f + 1)%nat.
Proof.
  unfold _regressor_terms_no_trend. cbn [snd]. rewrite length_app. cbn [length].
  destruct (Nat.eqb_spec f 0) as [->|_]; [done|].
  enough (forall a, length (flat_map (_fourier_terms t) (seq a f)) = (2 * f)%nat)
    as -> by lia.
  induction f as [|f IH]; intros a; cbn [seq flat_map]; [done|].
  rewrite length_app, IH. cbn. lia.
Qed.

Lemma length_regressor_terms_broken_trend (f : nat) (t : list R) (t_break : R) :
  length (_regressor_terms_broken_trend f t t_break).2 = (2 * f + 3)%nat.
Proof.
  unfold _regressor_terms_broken_trend, _regressor_terms_trend.
  pose proof (length_regressor_terms_no_trend f t) as H.
  destruct (_regressor_terms_no_trend f t) as [idx terms]. cbn in *.
  rewrite !length_app, H. cbn. lia.
Qed.

(** Every entry of [reg_idx] can be read from a solution that has one
    coefficient per regressor. *)
Lemma getitem_regressors_broken_trend (f : nat) (t : list R) (t_break : R)
    (p : list R) :
  length p = (2 * f + 3)%nat ->
  Forall (fun '(k, idx) => exists v, getitem p idx = Ok v)
         (_regressor_terms_broken_trend f t t_break).1.
Proof.
  intros Hp.
  assert (Hidx : forall i, (i < 2 * f + 3)%nat ->
            exists v, getitem p (Idx i) = Ok v).
  { intros i Hi. cbn. destruct (lookup_lt_is_Some_2 p i ltac:(lia)) as [x ->].
    eauto. }
  unfold _regressor_terms_broken_trend, _regressor_terms_trend,
    _regressor_terms_no_trend. cbn [fst].
  destruct (Nat.eqb_spec f 0) as [->|_]; cbn [app].
  - repeat constructor; apply Hidx; lia.
  - repeat constructor; try (apply Hidx; lia). cbn. eauto.
Qed.

Lemma _solve_lstsq_Ok (t y : list R) reg_idx reg_terms self p ssr :
  lstsq (Numpy.stack_transpose (length t) reg_terms) y = Ok (p, ssr) ->
  Forall (fun '(k, idx) => exists v, getitem p idx = Ok v) reg_idx ->
  exists self',
    _solve_lstsq lstsq t y reg_idx reg_terms self = (Ok ssr, self') /\
    f_order self' = f_order self /\ class_of self' = class_of self.
Proof.
  intros Hl Hidx. unfold _solve_lstsq.
  enough (forall s, exists rs s',
            mapM (fun '(k, idx) =>
                    v ← lift (getitem p idx);
                    modify (set_parameters (insert k v))) reg_idx s
            = (Ok rs, s')
            /\ f_order s' = f_order s /\ class_of s' = class_of s)
    as H.
  { destruct (H self) as (rs & s' & E & ? & ?). exists s'.
    split; [|done].
    erewrite bind_Ok by (unfold lift; by rewrite Hl).
    cbv beta iota. by erewrite bind_Ok by exact E. }
  induction Hidx as [|[k idx] l [v Hv] _ IH]; intros s; cbn [mapM].
  - by exists [], s.
  - destruct (IH (set_parameters (insert k v) s)) as (rs & s' & E & ? & ?).
    exists (tt :: rs), s'. split; [|done].
    erewrite bind_Ok; [|erewrite bind_Ok by (unfold lift; by rewrite Hv);
                        reflexivity].
    by erewrite bind_Ok by exact E.
Qed.

(** C8. Whenever the least-squares solve at a candidate location returns
    (with one coefficient per regressor), [solve_for_location] returns too:
    [+inf] when the residual array is empty, and otherwise its first entry,
    the sum of squared residuals of the solve. *)
Theorem C8_objective_of_candidate (t y : list R) (t_break : R)
    (self : LinearModel) (p ssr : list R) :
  let reg_terms := (_regressor_terms_broken_trend (f_order self) t t_break).2 in
  let mat := Numpy.stack_transpose (length t) reg_terms in
  lstsq mat y = Ok (p, ssr) ->
  length p = length reg_terms ->
  exists self',
    solve_for_location lstsq t y t_break self
    = (Ok (match ssr with [] => Infinity | ssr0 :: _ => Finite ssr0 end), self')
    /\ (ssr = [] ->
        solve_for_location lstsq t y t_break self = (Ok Infinity, self'))
    /\ (ssr = [Numpy.sum_squared_residuals mat p y] ->
        solve_for_location lstsq t y t_break self
        = (Ok (Finite (Numpy.sum_squared_residuals mat p y)), self')).
Proof.
  intros reg_terms mat Hl Hp. subst mat reg_terms.
  rewrite (length_regressor_terms_broken_trend (f_order self) t t_break) in Hp.
  pose proof (getitem_regressors_broken_trend (f_order self) t t_break p Hp)
    as Hidx.
  unfold solve_for_location.
  erewrite bind_Ok by reflexivity.
  destruct (_regressor_terms_broken_trend (f_order self) t t_break)
    as [reg_idx terms]. cbn [fst snd] in *.
  destruct (_solve_lstsq_Ok t y reg_idx terms self p ssr Hl Hidx)
    as (self' & E & _).
  exists self'. erewrite bind_Ok by exact E.
  repeat split.
  - by destruct ssr.
  - by intros ->.
  - by intros ->.
Qed.

(** C7, as the code has it.  [_fit] does not look at the residual array of
    its final solve: when that solve returns an empty array, [_fit] returns
    all the same, with the optimizer's result if the break location was
    fitted and with the empty array if it was given. *)
Theorem C7_final_resolve_without_residual (t y : list R)
    (self s1 s2 : LinearModel) (res : option OptimizeResult) :
  locate_break lstsq dual_annealing t y self = (Ok res, s1) ->
  final_resolve lstsq t y s1 = (Ok [], s2) ->
  _fit_broken_trend lstsq dual_annealing t y self
  = (Ok (match res with
         | Some res => FitOptimize res
         | None => FitResiduals []
         end), s2).
Proof.
  intros E1 E2. unfold _fit_broken_trend.
  erewrite bind_Ok by exact E1. erewrite bind_Ok by exact E2.
  by destruct res.
Qed.

End ChangePoint.

(** An instance of C8: the one-row design of the examples has no residual
    sum, and the objective there is [+inf]. *)
Lemma C8_objective_of_candidate_witness :
  exists self',
    Models.solve_for_location Examples.lstsq Examples.t1 Examples.y1 0
      Examples.broken_model
    = (Ok Infinity, self').
Proof.
  destruct (C8_objective_of_candidate Examples.lstsq Examples.t1 Examples.y1 0
              Examples.broken_model Examples.solution1 [])
    as (self' & _ & H & _).
  - vm_compute. reflexivity.
  - reflexivity.
  - exists self'. by apply H.
Defined.

(** An instance of C7 as the code has it: the same design, with the break
    given. *)
Lemma C7_final_resolve_without_residual_witness :
  exists s2,
    Models._fit_broken_trend Examples.lstsq Examples.dual_annealing
      Examples.t1 Examples.y1 Examples.broken_model
    = (Ok (Models.FitResiduals []), s2).
Proof.
  eexists.
  apply (C7_final_resolve_without_residual Examples.lstsq
           Examples.dual_annealing Examples.t1 Examples.y1
           Examples.broken_model Examples.broken_model _ None).
  - reflexivity.
  - vm_compute. reflexivity.
Defined.

(** C7 as stated fails: on one observation the design of the broken-trend
    model has one row and three columns, the final solve returns no
    residual term, and both [_fit] and [fit] return instead of raising;
    the model ends up marked as fitted. *)
Lemma C7_counterexample :
  Examples.lstsq Examples.design1 Examples.y1 = Ok (Examples.solution1, []) /\
  (exists self',
     Models._fit Examples.lstsq Examples.dual_annealing
       Examples.t1 Examples.y1 Examples.broken_model
     = (Ok (Models.FitResiduals []), self')) /\
  (exists self',
     Models.fit Examples.lstsq Examples.dual_annealing
       Examples.t1 Examples.y1 Examples.broken_model
     = (Ok (Models.FitResiduals []), self') /\
     Base._fitted (Models.base self') = true).
Proof.
  split; [vm_compute; reflexivity|]. split.
  - eexists. vm_compute. reflexivity.
  - eexists. split; vm_compute; reflexivity.
Qed.

(** * Further properties of the code *)

(** ** Any outcome of code in the action monad *)

Section ActionOutcomes.

Context {S : Type}.

Lemma bind_inv {A B} (c : action S A) (k : A -> action S B) s r s' :
  (c ≫= k) s = (r, s') ->
  (exists e, c s = (Raise e, s') /\ r = Raise e) \/
  (exists a s1, c s = (Ok a, s1) /\ k a s1 = (r, s')).
Proof.
  unfold mbind, action_bind. destruct (c s) as [[a|e] s1]; intros E.
  - right. by exists a, s1.
  - left. exists e. by injection E as <- <-.
Qed.

(** A loop of [mapM], whether it returns or raises: the states before and
    after it are related by any preorder that each step respects. *)
Lemma mapM_any_inv {A B} (f : A -> action S B) (Rel : relation S)
    `{!PreOrder Rel} (l : list A) s r s' :
  (forall x s0 r0 s1, x ∈ l -> Rel s s0 -> f x s0 = (r0, s1) -> Rel s0 s1) ->
  mapM f l s = (r, s') -> Rel s s'.
Proof.
  intros Hstep.
  enough (forall sa, Rel s sa -> mapM f l sa = (r, s') -> Rel sa s')
    as H by (apply H; reflexivity).
  revert r Hstep. induction l as [|x l IH]; intros r Hstep sa Hsa E.
  - cbn in E. injection E as _ <-. reflexivity.
  - cbn [mapM] in E.
    assert (forall x0 s0 r0 s1, x0 ∈ l -> Rel s s0 -> f x0 s0 = (r0, s1) ->
              Rel s0 s1)
      as Hstep' by (intros; eapply Hstep; [by right | done..]).
    apply bind_inv in E as [(e & E1 & _)|(b & s1 & E1 & E)].
    + eapply Hstep; [by left | done..].
    + assert (Rel sa s1) as H1 by (eapply Hstep; [by left | done..]).
      apply bind_inv in E as [(e & E2 & _)|(bs & s2 & E2 & E)].
      * etrans; [exact H1|]. eapply IH; [done | by etrans | done].
      * injection E as _ <-. etrans; [exact H1|].
        eapply IH; [done | by etrans | done].
Qed.

End ActionOutcomes.

(** ** The linear models: design, coefficients and predictions *)

Section LinearModels.

Import Models.

Variable lstsq : list (list R) -> list R -> result (list R * list R).
Variable dual_annealing :
  (R -> result float_ext) -> list (R * R) -> gmap string pyarg ->
  result (list R * OptimizeResult).

Implicit Types (s self : LinearModel) (p t y : list R).

Lemma length_fourier_columns (f a : nat) t :
  Forall (fun col => length col = length t)
         (flat_map (_fourier_terms t) (seq a f)).
Proof.
  revert a. induction f as [|f IH]; intros a; cbn [seq flat_map].
  - constructor.
  - apply Forall_app. split; [|apply IH].
    unfold _fourier_terms. repeat constructor; by rewrite length_map.
Qed.

Lemma regressors_no_trend_shape (f : nat) t :
  length (_regressor_terms_no_trend f t).2 = (2 * f + 1)%nat /\
  Forall (fun col => length col = length t) (_regressor_terms_no_trend f t).2 /\
  flat_map (fun ki => positions ki.2) (_regressor_terms_no_trend f t).1
  = seq 0 (2 * f + 1).
Proof.
  split; [apply length_regressor_terms_no_trend|]. split.
  - unfold _regressor_terms_no_trend. cbn [snd].
    apply Forall_app. split.
    + destruct (f =? 0)%nat; [constructor | apply length_fourier_columns].
    + repeat constructor. by rewrite length_map.
  - unfold _regressor_terms_no_trend. cbn [fst].
    destruct (Nat.eqb_spec f 0) as [->|Hf]; [done|].
    cbn. rewrite Nat.sub_0_r.
    replace (f + (f + 0) + 1)%nat with (f * 2 + 1)%nat by lia.
    by rewrite seq_app.
Qed.

Lemma regressors_shape (cls : model_class) (f : nat) t (t_break : R) :
  length (regressors cls f t t_break).2 = n_regressors cls f /\
  Forall (fun col => length col = length t) (regressors cls f t t_break).2 /\
  flat_map (fun ki => positions ki.2) (regressors cls f t t_break).1
  = seq 0 (n_regressors cls f) /\
  (regressors cls f t t_break).1.*1 = regressor_names cls f.
Proof.
  destruct (regressors_no_trend_shape f t) as (Hlen & Hcols & Hpos).
  pose proof (names_no_trend f t) as Hn0.
  pose proof (names_trend f t) as Hn1.
  pose proof (names_broken_trend f t t_break) as Hn2.
  unfold regressors, n_regressors.
  destruct cls; [done| |].
  - unfold _regressor_terms_trend in *.
    destruct (_regressor_terms_no_trend f t) as [idx terms]. cbn [fst snd] in *.
    split; [rewrite length_app, Hlen; cbn; lia|].
    split; [apply Forall_app; split; [done | by repeat constructor]|].
    split; [|done].
    rewrite flat_map_app, Hpos. cbn [flat_map positions snd app].
    replace (2 * f + 2)%nat with (S (2 * f + 1)) by lia.
    rewrite seq_S. do 2 f_equal. lia.
  - unfold _regressor_terms_broken_trend, _regressor_terms_trend in *.
    destruct (_regressor_terms_no_trend f t) as [idx terms]. cbn [fst snd] in *.
    split; [rewrite !length_app, Hlen; cbn; lia|].
    split.
    { repeat (apply Forall_app; split); try done; repeat constructor.
      by rewrite length_map. }
    split; [|done].
    rewrite !flat_map_app, Hpos. cbn [flat_map positions snd app].
    replace (2 * f + 3)%nat with (S (S (2 * f + 1))) by lia.
    rewrite !seq_S. f_equal; [f_equal|]; f_equal; lia.
Qed.

(** The regressors of the three classes: as many columns as the class has
    coefficients, every column as long as the time grid, and the entries of
    [reg_idx], in their order, select the positions [0, 1, ...] of the
    coefficient vector, each exactly once, under the names of the
    regressors. *)
Theorem regressors_well_indexed (cls : model_class) (f : nat) t (t_break : R) :
  length (regressors cls f t t_break).2 = n_regressors cls f /\
  Forall (fun col => length col = length t) (regressors cls f t t_break).2 /\
  flat_map (fun ki => positions ki.2) (regressors cls f t t_break).1
  = seq 0 (n_regressors cls f) /\
  (regressors cls f t t_break).1.*1 = regressor_names cls f.
Proof. apply regressors_shape. Qed.

Lemma NoDup_regressor_names cls (f : nat) : NoDup (regressor_names cls f).
Proof.
  unfold regressor_names.
  destruct (f =? 0)%nat, cls; cbn;
    repeat (constructor; [set_solver|]); constructor.
Qed.

#[local] Instance differ_only_at_preorder names : PreOrder (differ_only_at names).
Proof.
  split.
  - intros s. split; [apply same_configuration_refl | done].
  - intros s1 s2 s3 [C1 F1] [C2 F2].
    split; [by eapply same_configuration_trans|].
    intros k Hk. by rewrite F2, F1.
Qed.

Lemma differ_only_at_mono names names' s s' :
  names ⊆ names' -> differ_only_at names s s' -> differ_only_at names' s s'.
Proof. intros Hsub [C F]. split; [done|]. intros k Hk. apply F. set_solver. Qed.

(** The loop [for k, idx in reg_idx.items(): self._parameters[k] = p[idx]],
    whether it completes or not, writes no other parameter. *)
Lemma store_coefficients_frame p (reg_idx : list (string * index)) s r s' :
  mapM (fun '(k, idx) =>
          v ← lift (getitem p idx);
          modify (set_parameters (insert k v))) reg_idx s = (r, s') ->
  differ_only_at reg_idx.*1 s s'.
Proof.
  apply (mapM_any_inv _ (differ_only_at reg_idx.*1)).
  intros [k idx] s0 r0 s1 Hin _ Estep.
  apply bind_inv in Estep as [(e & E1 & _)|(v & s2 & E1 & E2)];
    unfold lift in E1; injection E1 as _ <-; [reflexivity|].
  injection E2 as _ <-. split; [by repeat split|].
  intros k' Hk'. cbn. rewrite lookup_insert_ne; [done|].
  intros ->. apply Hk'. apply list_elem_of_fmap. by exists (k', idx).
Qed.

Lemma solve_lstsq_frame t y reg_idx reg_terms s r s' :
  _solve_lstsq lstsq t y reg_idx reg_terms s = (r, s') ->
  differ_only_at reg_idx.*1 s s'.
Proof.
  unfold _solve_lstsq. intros E.
  apply bind_inv in E as [(e & E1 & _)|([p ssr] & s1 & E1 & E)];
    unfold lift in E1; injection E1 as _ <-; [reflexivity|].
  apply bind_inv in E as [(e & E2 & _)|(rs & s2 & E2 & E)].
  - by eapply store_coefficients_frame.
  - injection E as _ <-. by eapply store_coefficients_frame.
Qed.

(** A solve that returns has stored, under every name of [reg_idx], the
    entries of the solution that the name selects. *)
Lemma solve_lstsq_inv t y reg_idx reg_terms s ssr s' :
  NoDup reg_idx.*1 ->
  _solve_lstsq lstsq t y reg_idx reg_terms s = (Ok ssr, s') ->
  exists p,
    lstsq (Numpy.stack_transpose (length t) reg_terms) y = Ok (p, ssr) /\
    Forall (fun ki => exists v, getitem p ki.2 = Ok v /\
                                _parameters s' !! ki.1 = Some v) reg_idx.
Proof.
  unfold _solve_lstsq. intros Hnd E.
  apply bind_Ok_inv in E as ([p ssr'] & ? & [Hl ->]%lift_Ok_inv & E).
  apply bind_Ok_inv in E as (rs & s1 & E & [= <- <-]).
  exists p. split; [done|]. clear Hl.
  revert s rs E Hnd. induction reg_idx as [|[k idx] l IH]; intros s rs E Hnd.
  - constructor.
  - cbn [mapM] in E.
    apply bind_Ok_inv in E as ([] & s0 & E0 & E).
    apply bind_Ok_inv in E as (rs' & s2 & E & [= _ <-]).
    apply bind_Ok_inv in E0 as (v & ? & [Hv ->]%lift_Ok_inv & [= <-]).
    cbn in Hnd. apply NoDup_cons in Hnd as [Hk Hnd].
    constructor; [|by eapply IH].
    exists v. split; [done|]. cbn.
    apply store_coefficients_frame in E as [_ F].
    rewrite F by done. cbn. by rewrite lookup_insert_eq.
Qed.

Lemma setitem_idx_filled (N m : nat) p (x : R) :
  (m < N)%nat -> p !! m = Some x ->
  setitem (take m p ++ replicate (N - m) 0%R) (Idx m) (VFloat x)
  = Ok (take (S m) p ++ replicate (N - S m) 0%R).
Proof.
  intros Hm Hx. pose proof (lookup_lt_Some _ _ _ Hx) as Hlt.
  unfold setitem. rewrite length_app, length_take, length_replicate.
  destruct (Nat.ltb_spec m (m `min` length p + (N - m))) as [_|?]; [|lia].
  f_equal. rewrite insert_app_r_alt by (rewrite length_take; lia).
  rewrite length_take, (take_S_r _ _ _ Hx), <- app_assoc.
  replace (m - m `min` length p)%nat with 0%nat by lia.
  by replace (N - m)%nat with (S (N - S m)) by lia.
Qed.

Lemma setitem_slice_filled (N m b : nat) p :
  (m <= b)%nat -> (b <= N)%nat -> (b <= length p)%nat ->
  setitem (take m p ++ replicate (N - m) 0%R) (Slice m b)
          (VArray (Numpy.slice p m b))
  = Ok (take b p ++ replicate (N - b) 0%R).
Proof.
  intros Hmb HbN Hbp. unfold setitem, Numpy.slice.
  assert (length (take m p) = m) as Hm by (rewrite length_take; lia).
  rewrite !length_take, !length_drop, length_app, Hm, length_replicate.
  destruct (Nat.eqb_spec ((b - m) `min` (length p - m))
              ((b - m) `min` (m + (N - m) - m))) as [_|?]; [|lia].
  f_equal. rewrite take_app_length' by done.
  rewrite drop_app_ge by lia. rewrite Hm, drop_replicate.
  rewrite app_assoc, take_take_drop. f_equal; f_equal; lia.
Qed.

(** The loop [for k, idx in reg_idx.items(): p[idx] = self._parameters[k]]
    on stored coefficients, for a [reg_idx] that selects consecutive
    positions: it rebuilds the coefficient vector. *)
Lemma compute_y_fold (params : gmap string pyvalue) p (N : nat)
    (reg_idx : list (string * index)) (m cnt : nat) :
  Forall (fun ki => exists v, getitem p ki.2 = Ok v /\
                              params !! ki.1 = Some v) reg_idx ->
  flat_map (fun ki => positions ki.2) reg_idx = seq m cnt ->
  (m + cnt <= N)%nat -> (m + cnt <= length p)%nat ->
  foldl (fun acc '(k, idx) =>
           p ← acc;
           match params !! k with
           | Some v => setitem p idx v
           | None => Raise IndexError
           end)
        (Ok (take m p ++ replicate (N - m) 0%R)) reg_idx
  = Ok (take (m + cnt) p ++ replicate (N - (m + cnt)) 0%R).
Proof.
  intros Hall. revert m cnt.
  induction Hall as [|[k idx] l (v & Hv & Hk) _ IH]; intros m cnt Hpos HN Hp.
  - cbn in Hpos. destruct cnt; [|done]. cbn. by rewrite Nat.add_0_r.
  - cbn [foldl]. cbn in Hv, Hk. rewrite Hk. cbn [mbind result_bind].
    cbn [flat_map snd] in Hpos.
    destruct idx as [i|a b]; cbn [positions] in Hpos.
    + destruct cnt as [|cnt]; [done|]. cbn in Hpos. injection Hpos as -> Hpos.
      cbn in Hv. destruct (p !! m) as [x|] eqn:Hx; [|done]. injection Hv as <-.
      rewrite setitem_idx_filled by (done || lia).
      rewrite (IH (S m) cnt) by (done || lia).
      by replace (S m + cnt)%nat with (m + S cnt)%nat by lia.
    + cbn in Hv. injection Hv as <-.
      destruct (b - a)%nat as [|d] eqn:Hd.
      * cbn in Hpos.
        assert (setitem (take m p ++ replicate (N - m) 0%R) (Slice a b)
                  (VArray (Numpy.slice p a b))
                = Ok (take m p ++ replicate (N - m) 0%R)) as ->.
        { unfold setitem, Numpy.slice. rewrite Hd, !take_0. cbn.
          by rewrite Nat.add_0_r, take_drop. }
        by apply IH.
      * assert (a = m) as ->.
        { destruct cnt; cbn in Hpos; [done|]. by injection Hpos as -> _. }
        assert (S d <= cnt)%nat as Hcnt.
        { apply (f_equal length) in Hpos.
          rewrite length_app, !length_seq in Hpos. lia. }
        replace cnt with (S d + (cnt - S d))%nat in Hpos by lia.
        rewrite (seq_app (S d)) in Hpos. apply app_inv_head in Hpos.
        rewrite setitem_slice_filled by lia.
        replace (m + S d)%nat with b in Hpos by lia.
        rewrite (IH b (cnt - S d)%nat) by (done || lia).
        by replace (b + (cnt - S d))%nat with (m + cnt)%nat by lia.
Qed.

Lemma regressors_idx_indep cls (f : nat) t (tb : R) t' (tb' : R) :
  (regressors cls f t tb).1 = (regressors cls f t' tb').1.
Proof.
  unfold regressors, _regressor_terms_broken_trend, _regressor_terms_trend,
    _regressor_terms_no_trend.
  by destruct cls, (f =? 0)%nat.
Qed.

Lemma last_regressor_idx cls (f : nat) t (tb : R) :
  exists k i, (k, Idx i) ∈ (regressors cls f t tb).1 /\
              n_regressors cls f = S i.
Proof.
  unfold regressors, _regressor_terms_broken_trend, _regressor_terms_trend,
    _regressor_terms_no_trend, n_regressors.
  destruct cls, (Nat.eqb_spec f 0) as [->|Hf]; cbn [fst app];
    do 2 eexists; (split; [apply list_elem_of_In, in_or_app; right; by left | lia]) ||
    (split; [by repeat constructor | lia]).
Qed.

(** [_compute_y] on a model that holds the entries of [p] selected by
    [reg_idx]: the product of the design matrix and [p]. *)
Lemma compute_y_stored cls (f : nat) s' p t (tb : R) t' (tb' : R) :
  Forall (fun ki => exists v, getitem p ki.2 = Ok v /\
                              _parameters s' !! ki.1 = Some v)
         (regressors cls f t tb).1 ->
  _compute_y s' t' (regressors cls f t' tb').1 (regressors cls f t' tb').2
  = Ok (Numpy.matvec (design cls f t' tb') (take (n_regressors cls f) p)).
Proof.
  intros Hall.
  destruct (regressors_shape cls f t' tb') as (Hlen & _ & Hpos & _).
  destruct (last_regressor_idx cls f t tb) as (k & i & Hin & HN).
  assert (n_regressors cls f <= length p)%nat as Hp.
  { rewrite Forall_forall in Hall. destruct (Hall _ Hin) as (v & Hv & _).
    cbn in Hv. destruct (p !! i) eqn:Hi; [|done].
    apply lookup_lt_Some in Hi. lia. }
  rewrite (regressors_idx_indep cls f t tb t' tb') in Hall.
  unfold _compute_y. rewrite Hlen.
  pose proof (compute_y_fold (_parameters s') p (n_regressors cls f)
                _ 0 (n_regressors cls f) Hall Hpos ltac:(lia) ltac:(lia)) as E.
  rewrite take_0, Nat.sub_0_r in E. cbn [app] in E. rewrite E.
  cbn [mbind result_bind]. rewrite Nat.sub_diag. cbn [replicate].
  by rewrite app_nil_r.
Qed.

Lemma stored_holds_solution cls (f : nat) (params : gmap string pyvalue) p t
    (tb : R) :
  Forall (fun ki => exists v, getitem p ki.2 = Ok v /\
                              params !! ki.1 = Some v)
         (regressors cls f t tb).1 ->
  holds_solution cls f params p.
Proof.
  intros Hall. rewrite Forall_forall in Hall.
  assert (Hidx : forall k i, (k, Idx i) ∈ (regressors cls f t tb).1 ->
            exists x, p !! i = Some x /\ params !! k = Some (VFloat x)).
  { intros k i Hin. destruct (Hall _ Hin) as (v & Hv & Hk). cbn in *.
    destruct (p !! i) as [x|]; [|done]. injection Hv as <-. eauto. }
  assert (((f =? 0)%nat = false ->
           ("fourier_terms", Slice 0 (f * 2)) ∈ (regressors cls f t tb).1) /\
          ("intercept", Idx (2 * f)) ∈ (regressors cls f t tb).1 /\
          (cls <> LinearNoTrendFourier ->
           ("trend", Idx (2 * f + 1)) ∈ (regressors cls f t tb).1) /\
          (cls = LinearBrokenTrendFourier ->
           ("trend_change", Idx (2 * f + 2)) ∈ (regressors cls f t tb).1))
    as (H1 & H2 & H3 & H4).
  { unfold regressors, _regressor_terms_broken_trend, _regressor_terms_trend,
      _regressor_terms_no_trend.
    replace (f * 2)%nat with (2 * f)%nat by lia.
    destruct cls, (Nat.eqb_spec f 0) as [->|Hf]; cbn [fst app];
      repeat split; intros; try done; set_solver. }
  repeat split.
  - intros Hf. apply Nat.eqb_neq in Hf.
    destruct (Hall _ (H1 Hf)) as (v & Hv & Hk). cbn in *.
    injection Hv as <-. rewrite Hk. unfold Numpy.slice. cbn.
    do 3 f_equal. lia.
  - by apply Hidx.
  - intros Hc. by apply Hidx, H3.
  - intros Hc. by apply Hidx, H4.
Qed.

Lemma getitem_regressors cls (f : nat) t (tb : R) p :
  (n_regressors cls f <= length p)%nat ->
  Forall (fun '(k, idx) => exists v, getitem p idx = Ok v)
         (regressors cls f t tb).1.
Proof.
  intros Hp.
  destruct (regressors_shape cls f t tb) as (_ & _ & Hpos & _).
  apply Forall_forall. intros [k [i|a b]] Hin; [|cbn; eauto].
  assert (i ∈ seq 0 (n_regressors cls f)) as Hi.
  { rewrite <- Hpos. apply list_elem_of_In, in_flat_map.
    exists (k, Idx i). split; [by apply list_elem_of_In | by left]. }
  apply elem_of_seq in Hi. cbn.
  destruct (lookup_lt_is_Some_2 p i ltac:(lia)) as [x ->]. eauto.
Qed.

Lemma predict_stored s' p t (tb : R) t' (x : R) :
  Forall (fun ki => exists v, getitem p ki.2 = Ok v /\
                              _parameters s' !! ki.1 = Some v)
         (regressors (class_of s') (f_order s') t tb).1 ->
  (class_of s' = LinearBrokenTrendFourier -> get_t_break s' = Ok x) ->
  _predict s' t'
  = Ok (Numpy.matvec (design (class_of s') (f_order s') t' x)
          (take (n_regressors (class_of s') (f_order s')) p)).
Proof.
  intros Hall Hx.
  pose proof (compute_y_stored _ _ _ _ _ _ t' x Hall) as E.
  unfold _predict. unfold design, regressors in *.
  destruct (class_of s').
  - by destruct (_regressor_terms_no_trend (f_order s') t').
  - by destruct (_regressor_terms_trend (f_order s') t').
  - rewrite Hx by done. cbn [mbind result_bind].
    by destruct (_regressor_terms_broken_trend (f_order s') t' x).
Qed.

(** A fit of [LinearNoTrendFourier] or [LinearTrendFourier] that returns:
    the least-squares solver was run on the design matrix of the grid and
    gave a solution [p] and a non-empty residual array, whose first entry is
    what the fit returns; the parameters hold [p] under the names of the
    regressors and no other parameter was written; the predictions on any
    grid are the design matrix of that grid times [p]. *)
Theorem linear_fit_stores_solution t y s r s' (tb : R) :
  class_of s <> LinearBrokenTrendFourier ->
  _fit lstsq dual_annealing t y s = (Ok r, s') ->
  exists p ssr0 ssr,
    lstsq (design (class_of s) (f_order s) t tb) y = Ok (p, ssr0 :: ssr) /\
    r = FitSSR ssr0 /\
    holds_solution (class_of s) (f_order s) (_parameters s') p /\
    differ_only_at (regressor_names (class_of s) (f_order s)) s s' /\
    forall t',
      _predict s' t'
      = Ok (Numpy.matvec (design (class_of s) (f_order s) t' tb)
              (take (n_regressors (class_of s) (f_order s)) p)).
Proof.
  intros Hcls E. unfold _fit in E.
  apply bind_Ok_inv in E as (s0 & ? & [= <- <-] & E).
  assert (_fit_linear lstsq t y s = (Ok r, s')) as E'
    by (by destruct (class_of s)).
  clear E. unfold _fit_linear in E'.
  apply bind_Ok_inv in E' as (s0 & ? & [= <- <-] & E).
  destruct (regressors_shape (class_of s) (f_order s) t tb)
    as (_ & _ & _ & Hnames).
  assert (match class_of s with
          | LinearNoTrendFourier => _regressor_terms_no_trend (f_order s) t
          | _ => _regressor_terms_trend (f_order s) t
          end = regressors (class_of s) (f_order s) t tb) as Hreg
    by (unfold regressors; by destruct (class_of s)).
  rewrite Hreg in E. unfold design.
  destruct (regressors (class_of s) (f_order s) t tb) as [reg_idx reg_terms]
    eqn:Er.
  cbn [fst snd] in *.
  apply bind_Ok_inv in E as (ssr & s1 & Esolve & E).
  destruct ssr as [|ssr0 ssr]; [done|]. injection E as <- <-.
  pose proof (solve_lstsq_frame _ _ _ _ _ _ _ Esolve) as Hframe.
  rewrite Hnames in Hframe.
  apply solve_lstsq_inv in Esolve as (p & Hl & Hall);
    [|rewrite Hnames; apply NoDup_regressor_names].
  destruct Hframe as [Hc Hf]. pose proof Hc as (Hc1 & Hc2 & _).
  assert (Forall (fun ki => exists v, getitem p ki.2 = Ok v /\
                                      _parameters s1 !! ki.1 = Some v)
            (regressors (class_of s1) (f_order s1) t tb).1) as Hall'
    by (by rewrite Hc1, Hc2, Er).
  exists p, ssr0, ssr. split; [done|]. split; [done|]. split; [|split].
  - rewrite <- Hc1, <- Hc2. by eapply stored_holds_solution.
  - done.
  - intros t'. rewrite <- Hc1, <- Hc2.
    apply (predict_stored s1 p t tb t' tb Hall'). congruence.
Qed.

(** When the solver gives no residual (a system that is rank deficient or
    has no more rows than columns), the fit of [LinearNoTrendFourier] and
    [LinearTrendFourier] raises [IndexError], on [ssr[0]]; by then the
    parameters hold the solution, and only they were written. *)
Theorem linear_fit_without_residual_raises t y s p (tb : R) :
  class_of s <> LinearBrokenTrendFourier ->
  lstsq (design (class_of s) (f_order s) t tb) y = Ok (p, []) ->
  (n_regressors (class_of s) (f_order s) <= length p)%nat ->
  exists s',
    _fit lstsq dual_annealing t y s = (Raise IndexError, s') /\
    holds_solution (class_of s) (f_order s) (_parameters s') p /\
    differ_only_at (regressor_names (class_of s) (f_order s)) s s'.
Proof.
  intros Hcls Hl Hp.
  destruct (regressors_shape (class_of s) (f_order s) t tb)
    as (_ & _ & _ & Hnames).
  pose proof (getitem_regressors (class_of s) (f_order s) t tb p Hp) as Hget.
  unfold design in Hl.
  destruct (_solve_lstsq_Ok lstsq t y _ _ s p [] Hl Hget) as (s' & E & _).
  exists s'.
  pose proof (solve_lstsq_frame _ _ _ _ _ _ _ E) as Hframe.
  rewrite Hnames in Hframe.
  pose proof E as E'.
  apply solve_lstsq_inv in E' as (p' & Hl' & Hall);
    [|rewrite Hnames; apply NoDup_regressor_names].
  assert (p' = p) as -> by congruence.
  split; [|split; [by eapply stored_holds_solution | done]].
  unfold _fit. erewrite bind_Ok by reflexivity.
  assert (_fit_linear lstsq t y s = (Raise IndexError, s')) as Efit.
  { unfold _fit_linear. erewrite bind_Ok by reflexivity.
    assert (match class_of s with
            | LinearNoTrendFourier => _regressor_terms_no_trend (f_order s) t
            | _ => _regressor_terms_trend (f_order s) t
            end = regressors (class_of s) (f_order s) t tb) as ->
      by (unfold regressors; by destruct (class_of s)).
    destruct (regressors (class_of s) (f_order s) t tb) as [reg_idx reg_terms].
    cbn [fst snd] in E. by erewrite bind_Ok by exact E. }
  by destruct (class_of s).
Qed.

(** *** The break location *)

Lemma solve_for_location_frame t y (t_break : R) s r s' :
  solve_for_location lstsq t y t_break s = (r, s') ->
  differ_only_at (regressor_names LinearBrokenTrendFourier (f_order s)) s s'.
Proof.
  unfold solve_for_location. intros E.
  apply bind_inv in E as [(e & [= ] & _)|(s0 & ? & [= <- <-] & E)].
  pose proof (names_broken_trend (f_order s) t t_break) as Hn.
  destruct (_regressor_terms_broken_trend (f_order s) t t_break)
    as [reg_idx reg_terms]. cbn in Hn. rewrite <- Hn.
  apply bind_inv in E as [(e & E & _)|(ssr & s1 & E & E')].
  - by eapply solve_lstsq_frame.
  - apply solve_lstsq_frame in E. by destruct ssr; injection E' as _ <-.
Qed.

Lemma final_resolve_frame t y s r s' :
  final_resolve lstsq t y s = (r, s') ->
  differ_only_at (regressor_names LinearBrokenTrendFourier (f_order s)) s s'.
Proof.
  unfold final_resolve. intros E.
  apply bind_inv in E as [(e & [= ] & _)|(s0 & ? & [= <- <-] & E)].
  apply bind_inv in E as [(e & E & _)|(t_break & s1 & E & E')];
    unfold lift in E; injection E as _ <-; [reflexivity|].
  pose proof (names_broken_trend (f_order s) t t_break) as Hn.
  destruct (_regressor_terms_broken_trend (f_order s) t t_break)
    as [reg_idx reg_terms]. cbn in Hn. rewrite <- Hn.
  by eapply solve_lstsq_frame.
Qed.

Lemma replay_frame t y (l : list R) s r s' :
  mapM (solve_for_location lstsq t y) l s = (r, s') ->
  differ_only_at (regressor_names LinearBrokenTrendFourier (f_order s)) s s'.
Proof.
  apply (mapM_any_inv _ (differ_only_at _)).
  intros x s0 r0 s1 _ [(_ & Hf & _) _] E.
  apply solve_for_location_frame in E. by rewrite Hf in E.
Qed.

(** The bounds and keyword arguments that [_fit] hands to the optimizer. *)
Lemma locate_break_inv t y s res s1 :
  locate_break lstsq dual_annealing t y s = (Ok res, s1) ->
  differ_only_at ("t_break" :: regressor_names LinearBrokenTrendFourier (f_order s))
    s s1 /\
  match res with
  | None => _fit_t_break s = false /\ s1 = s
  | Some res =>
      _fit_t_break s = true /\
      exists lo hi evaluated x0,
        match _opt_bounds s with
        | Some b => b = (lo, hi)
        | None => t !! 1%nat = Some lo /\ last t = Some hi
        end /\
        dual_annealing (fun t_break => (solve_for_location lstsq t y t_break s).1)
          [(lo, hi)] (_opt_kwargs s ∪ {[ "maxiter" := AInt 500 ]})
        = Ok (evaluated, res) /\
        res_x res !! 0%nat = Some x0 /\
        _parameters s1 !! "t_break" = Some (VFloat x0)
  end.
Proof.
  intros E. unfold locate_break in E.
  apply bind_Ok_inv in E as (s0 & ? & [= <- <-] & E).
  destruct (_fit_t_break s) eqn:Hfit.
  2:{ injection E as <- <-. split; [reflexivity | done]. }
  apply bind_Ok_inv in E as (bounds & s0 & Eb & E).
  assert (s0 = s /\ exists lo hi, bounds = [(lo, hi)] /\
            match _opt_bounds s with
            | Some b => b = (lo, hi)
            | None => t !! 1%nat = Some lo /\ last t = Some hi
            end) as (-> & lo & hi & -> & Hb).
  { destruct (_opt_bounds s) as [[lo hi]|].
    - injection Eb as <- <-. split; [done|]. by exists lo, hi.
    - destruct (t !! 1%nat) as [lo|], (last t) as [hi|]; try done.
      injection Eb as <- <-. split; [done|]. by exists lo, hi. }
  apply bind_Ok_inv in E as ([evaluated r] & ? & [Hda ->]%lift_Ok_inv & E).
  apply bind_Ok_inv in E as (vs & s2 & Hreplay%replay_frame & E).
  apply bind_Ok_inv in E as (x0 & s3 & Ex & E).
  assert (s3 = s2 /\ res_x r !! 0%nat = Some x0) as [-> Hx0].
  { destruct (res_x r !! 0%nat); [by injection Ex as <- <-|done]. }
  apply bind_Ok_inv in E as ([] & s4 & [= <-] & [= <- <-]).
  split.
  - etrans.
    + eapply differ_only_at_mono; [|exact Hreplay]. set_solver.
    + split; [by repeat split|]. intros k Hk. cbn.
      rewrite lookup_insert_ne; [done|]. set_solver.
  - split; [done|]. exists lo, hi, evaluated, x0.
    split; [done|]. split; [done|]. split; [done|].
    cbn. by rewrite lookup_insert_eq.
Qed.

(** A fit of [LinearBrokenTrendFourier] that returns: the parameters hold a
    break location [x] and the solution [p] of the least-squares solve of
    the design matrix with the break at [x]; besides the break location and
    the coefficients no parameter was written; the predictions on any grid
    are the design matrix of that grid, with the break at [x], times [p].
    When the location was given, [x] is the given one and the fit returns
    the residual array of that solve; when it was fitted, the fit returns
    the optimizer's result and [x] is its [x[0]]. *)
Theorem broken_trend_fit_stores_solution t y s r s' :
  class_of s = LinearBrokenTrendFourier ->
  _fit lstsq dual_annealing t y s = (Ok r, s') ->
  exists x p ssr,
    _parameters s' !! "t_break" = Some (VFloat x) /\
    lstsq (design LinearBrokenTrendFourier (f_order s) t x) y = Ok (p, ssr) /\
    holds_solution LinearBrokenTrendFourier (f_order s) (_parameters s') p /\
    differ_only_at
      ("t_break" :: regressor_names LinearBrokenTrendFourier (f_order s)) s s' /\
    (forall t',
       _predict s' t'
       = Ok (Numpy.matvec (design LinearBrokenTrendFourier (f_order s) t' x)
               (take (n_regressors LinearBrokenTrendFourier (f_order s)) p))) /\
    match r with
    | FitOptimize res =>
        _fit_t_break s = true /\ res_x res !! 0%nat = Some x
    | FitResiduals ssr' =>
        _fit_t_break s = false /\ ssr' = ssr /\
        _parameters s !! "t_break" = Some (VFloat x)
    | FitSSR _ => False
    end.
Proof.
  intros Hcls E. unfold _fit in E.
  apply bind_Ok_inv in E as (s0 & ? & [= <- <-] & E). rewrite Hcls in E.
  unfold _fit_broken_trend in E.
  apply bind_Ok_inv in E as (res & s1 & [Hframe1 Hres]%locate_break_inv & E).
  apply bind_Ok_inv in E as (ssr & s2 & Efinal & E).
  assert (s' = s2 /\ r = match res with
                         | Some res => FitOptimize res
                         | None => FitResiduals ssr
                         end) as [-> ->]
    by (destruct res; by injection E as <- <-).
  pose proof (final_resolve_frame _ _ _ _ _ Efinal) as Hframe2.
  pose proof Hframe1 as [(Hc1 & Hf1 & _) _]. rewrite Hf1 in Hframe2.
  unfold final_resolve in Efinal.
  apply bind_Ok_inv in Efinal as (s0 & ? & [= <- <-] & Efinal).
  apply bind_Ok_inv in Efinal as (x & ? & [Hx ->]%lift_Ok_inv & Efinal).
  rewrite Hf1 in Efinal.
  destruct (regressors_shape LinearBrokenTrendFourier (f_order s) t x)
    as (_ & _ & _ & Hnames).
  unfold design. cbn [regressors] in *.
  destruct (_regressor_terms_broken_trend (f_order s) t x)
    as [reg_idx reg_terms] eqn:Er.
  cbn [fst snd] in *.
  apply solve_lstsq_inv in Efinal as (p & Hl & Hall);
    [|rewrite Hnames; apply NoDup_regressor_names].
  assert (_parameters s1 !! "t_break" = Some (VFloat x)) as Hx1.
  { unfold get_t_break in Hx.
    destruct (_parameters s1 !! "t_break") as [[]|]; try done.
    by injection Hx as ->. }
  assert (_parameters s2 !! "t_break" = Some (VFloat x)) as Hx2.
  { destruct Hframe2 as [_ F]. rewrite F; [done|].
    unfold regressor_names. destruct (f_order s =? 0)%nat; set_solver. }
  pose proof Hframe2 as [(Hc2 & Hf2 & _) _].
  assert (Forall (fun ki => exists v, getitem p ki.2 = Ok v /\
                                      _parameters s2 !! ki.1 = Some v)
            (regressors (class_of s2) (f_order s2) t x).1) as Hall'.
  { rewrite Hc2, Hf2, Hc1, Hf1, Hcls. cbn [regressors]. by rewrite Er. }
  exists x, p, ssr. split; [done|]. split; [by rewrite Er|].
  split; [|split; [|split]].
  - eapply (stored_holds_solution _ _ _ _ t x). cbn [regressors].
    by rewrite Er.
  - etrans; [exact Hframe1|].
    eapply differ_only_at_mono; [|exact Hframe2]. set_solver.
  - intros t'.
    pose proof (predict_stored s2 p t x t' x Hall') as Hp.
    rewrite Hc2, Hf2, Hc1, Hf1, Hcls in Hp. apply Hp.
    intros _. unfold get_t_break. by rewrite Hx2.
  - destruct res as [res|].
    + destruct Hres as (Hfit & lo & hi & evaluated & x0 & _ & _ & Hx0 & Hs1).
      split; [done|]. congruence.
    + destruct Hres as [Hfit ->]. done.
Qed.

(** With the break location given to [LinearBrokenTrendFourier], whatever
    the outcome of [_fit]: the optimizer plays no part in it (any other
    optimizer gives the same outcome and the same model), the given location
    is still the one stored, and what is returned is not an optimizer
    result. *)
Theorem given_break_is_kept t y s r s'
    (other_optimizer :
       (R -> result float_ext) -> list (R * R) -> gmap string pyarg ->
       result (list R * OptimizeResult)) :
  _fit_t_break s = false ->
  _fit_broken_trend lstsq dual_annealing t y s = (r, s') ->
  _fit_broken_trend lstsq other_optimizer t y s = (r, s') /\
  _parameters s' !! "t_break" = _parameters s !! "t_break" /\
  forall res, r <> Ok (FitOptimize res).
Proof.
  intros Hfit E.
  assert (Hloc : forall da, locate_break lstsq da t y s = (Ok None, s)).
  { intros da. unfold locate_break. erewrite bind_Ok by reflexivity.
    by rewrite Hfit. }
  unfold _fit_broken_trend in *.
  erewrite bind_Ok in E by apply Hloc. erewrite bind_Ok by apply Hloc.
  split; [done|].
  apply bind_inv in E as [(e & E & ->)|(ssr & s1 & E & [= <- <-])];
    apply final_resolve_frame in E as [_ F].
  - split; [|done]. apply F.
    unfold regressor_names. destruct (f_order s =? 0)%nat; set_solver.
  - split; [|done]. apply F.
    unfold regressor_names. destruct (f_order s =? 0)%nat; set_solver.
Qed.

(** With the break location to be fitted, a fit of
    [LinearBrokenTrendFourier] that returns has run the optimizer once, on
    the objective [solve_for_location] of the model as it was, on one
    interval (the bounds given to the constructor, or else from the second
    time point to the last one) and with the keyword arguments of the
    constructor, to which [maxiter = 500] is added when they do not set
    [maxiter]; it returns the optimizer's result and stores its [x[0]] as
    the break location. *)
Theorem fitted_break_from_optimizer t y s r s' :
  _fit_t_break s = true ->
  _fit_broken_trend lstsq dual_annealing t y s = (Ok r, s') ->
  exists lo hi kwargs evaluated res x0,
    match _opt_bounds s with
    | Some b => b = (lo, hi)
    | None => t !! 1%nat = Some lo /\ last t = Some hi
    end /\
    kwargs !! "maxiter" = Some (default (AInt 500) (_opt_kwargs s !! "maxiter")) /\
    (forall k, k <> "maxiter" -> kwargs !! k = _opt_kwargs s !! k) /\
    dual_annealing (fun t_break => (solve_for_location lstsq t y t_break s).1)
      [(lo, hi)] kwargs = Ok (evaluated, res) /\
    r = FitOptimize res /\
    res_x res !! 0%nat = Some x0 /\
    _parameters s' !! "t_break" = Some (VFloat x0).
Proof.
  intros Hfit E. unfold _fit_broken_trend in E.
  apply bind_Ok_inv in E as (res & s1 & [Hframe1 Hres]%locate_break_inv & E).
  apply bind_Ok_inv in E as (ssr & s2 & Efinal & E).
  destruct res as [res|]; [|destruct Hres; congruence].
  injection E as <- <-.
  destruct Hres as (_ & lo & hi & evaluated & x0 & Hb & Hda & Hx0 & Hs1).
  exists lo, hi, (_opt_kwargs s ∪ {[ "maxiter" := AInt 500 ]}), evaluated,
    res, x0.
  split; [done|]. split; [|split; [|split; [done|split; [done|split; [done|]]]]].
  - rewrite lookup_union. rewrite lookup_singleton_eq.
    by destruct (_opt_kwargs s !! "maxiter").
  - intros k Hk. rewrite lookup_union, lookup_singleton_ne by done.
    by destruct (_opt_kwargs s !! k).
  - apply final_resolve_frame in Efinal as [_ F].
    destruct Hframe1 as [(_ & Hf & _) _]. rewrite F; [done|].
    rewrite Hf. unfold regressor_names.
    destruct (f_order s =? 0)%nat; set_solver.
Qed.

(** Fitting the break location without bounds needs two time points: on a
    shorter series [_fit] raises [IndexError] (on [t[1]]), before the
    optimizer or the solver is run, and the model is as it was. *)
Theorem break_fit_needs_two_points t y s :
  _fit_t_break s = true -> _opt_bounds s = None -> (length t < 2)%nat ->
  _fit_broken_trend lstsq dual_annealing t y s = (Raise IndexError, s).
Proof.
  intros Hfit Hb Ht. unfold _fit_broken_trend, locate_break.
  unfold mbind, action_bind, get. rewrite Hfit, Hb.
  destruct t as [|t0 [|t1 t]]; [done..|cbn in Ht; lia].
Qed.

(** *** Periodicity *)

Lemma fourier_terms_period t (d k : nat) :
  _fourier_terms (map (fun x => x + INR k)%R t) d = _fourier_terms t d.
Proof.
  unfold _fourier_terms. rewrite !map_map.
  f_equal; [|f_equal]; apply map_ext; intros x.
  - replace (2 * INR d * PI * (x + INR k))%R
      with (2 * INR d * PI * x + 2 * INR (d * k) * PI)%R
      by (rewrite mult_INR; ring).
    apply cos_period.
  - replace (2 * INR d * PI * (x + INR k))%R
      with (2 * INR d * PI * x + 2 * INR (d * k) * PI)%R
      by (rewrite mult_INR; ring).
    apply sin_period.
Qed.

Lemma regressor_terms_no_trend_period (f : nat) t (k : nat) :
  _regressor_terms_no_trend f (map (fun x => x + INR k)%R t)
  = _regressor_terms_no_trend f t.
Proof.
  unfold _regressor_terms_no_trend. rewrite map_map. do 3 f_equal.
  destruct (f =? 0)%nat; [done|].
  generalize 1%nat. induction f as [|f IH]; intros a; cbn [seq flat_map]; [done|].
  by rewrite fourier_terms_period, IH.
Qed.

(** The predictions of [LinearNoTrendFourier] have period one: a whole
    number of time units later they are the same, whatever the parameters
    and whether they raise. *)
Theorem no_trend_predict_periodic s t (k : nat) :
  class_of s = LinearNoTrendFourier ->
  _predict s (map (fun x => x + INR k)%R t) = _predict s t.
Proof.
  intros Hcls. unfold _predict. rewrite Hcls.
  rewrite regressor_terms_no_trend_period.
  destruct (_regressor_terms_no_trend (f_order s) t) as [reg_idx reg_terms].
  unfold _compute_y. by rewrite length_map.
Qed.

End LinearModels.

(** An instance: the intercept-only model fitted on two points. *)
Lemma linear_fit_stores_solution_witness :
  exists p ssr0 ssr,
    Examples.lstsq (Models.design Models.LinearNoTrendFourier 0 Examples.t2 0)
      Examples.y2 = Ok (p, ssr0 :: ssr) /\
    Models.holds_solution Models.LinearNoTrendFourier 0
      (Models._parameters
         (Models._fit Examples.lstsq Examples.dual_annealing
            Examples.t2 Examples.y2 Examples.new_model).2) p.
Proof.
  assert (exists r s',
            Models._fit Examples.lstsq Examples.dual_annealing
              Examples.t2 Examples.y2 Examples.new_model = (Ok r, s'))
    as (r & s' & E) by (do 2 eexists; vm_compute; reflexivity).
  destruct (linear_fit_stores_solution Examples.lstsq Examples.dual_annealing
              Examples.t2 Examples.y2 Examples.new_model r s' 0)
    as (p & ssr0 & ssr & H1 & _ & H3 & _).
  - done.
  - exact E.
  - exists p, ssr0, ssr. rewrite E. split; [exact H1 | exact H3].
Defined.

(** An instance: the same model on one point, where the solve has no
    residual. *)
Lemma linear_fit_without_residual_raises_witness :
  exists s',
    Models._fit Examples.lstsq Examples.dual_annealing
      Examples.t1 Examples.y1 Examples.new_model
    = (Raise IndexError, s').
Proof.
  assert (exists p,
            Examples.lstsq
              (Models.design Models.LinearNoTrendFourier 0 Examples.t1 0)
              Examples.y1 = Ok (p, []) /\ length p = 1%nat)
    as (p & E & Hp) by (eexists; split; vm_compute; reflexivity).
  destruct (linear_fit_without_residual_raises Examples.lstsq
              Examples.dual_annealing Examples.t1 Examples.y1
              Examples.new_model p 0)
    as (s' & H1 & _).
  - done.
  - exact E.
  - rewrite Hp. cbn. lia.
  - by exists s'.
Defined.

(** An instance: the broken-trend model with its break given at 0, on one
    point. *)
Lemma broken_trend_fit_stores_solution_witness :
  exists x p ssr,
    Models._parameters
      (Models._fit Examples.lstsq Examples.dual_annealing
         Examples.t1 Examples.y1 Examples.broken_model).2 !! "t_break"
    = Some (VFloat x) /\
    Examples.lstsq
      (Models.design Models.LinearBrokenTrendFourier 0 Examples.t1 x)
      Examples.y1 = Ok (p, ssr).
Proof.
  assert (exists r s',
            Models._fit Examples.lstsq Examples.dual_annealing
              Examples.t1 Examples.y1 Examples.broken_model = (Ok r, s'))
    as (r & s' & E) by (do 2 eexists; vm_compute; reflexivity).
  destruct (broken_trend_fit_stores_solution Examples.lstsq
              Examples.dual_annealing Examples.t1 Examples.y1
              Examples.broken_model r s')
    as (x & p & ssr & H1 & H2 & _).
  - reflexivity.
  - exact E.
  - exists x, p, ssr. rewrite E. split; [exact H1 | exact H2].
Defined.

(** An instance: the same fit with the probing optimizer in place of the
    one that fails. *)
Lemma given_break_is_kept_witness :
  Models._fit_broken_trend Examples.lstsq Examples.probe_optimizer
    Examples.t1 Examples.y1 Examples.broken_model
  = Models._fit_broken_trend Examples.lstsq Examples.dual_annealing
      Examples.t1 Examples.y1 Examples.broken_model.
Proof.
  destruct (Models._fit_broken_trend Examples.lstsq Examples.dual_annealing
              Examples.t1 Examples.y1 Examples.broken_model) as [r s'] eqn:E.
  destruct (given_break_is_kept Examples.lstsq Examples.dual_annealing
              Examples.t1 Examples.y1 Examples.broken_model r s'
              Examples.probe_optimizer) as (H1 & _).
  - reflexivity.
  - exact E.
  - exact H1.
Defined.

(** An instance: the break location fitted within [[0, 1]] by the probing
    optimizer, on one point. *)
Lemma fitted_break_from_optimizer_witness :
  exists res x0,
    (Models._fit_broken_trend Examples.lstsq Examples.probe_optimizer
       Examples.t1 Examples.y1 Examples.bounded_model).1
    = Ok (Models.FitOptimize res) /\
    Models.res_x res !! 0%nat = Some x0 /\
    Models._parameters
      (Models._fit_broken_trend Examples.lstsq Examples.probe_optimizer
         Examples.t1 Examples.y1 Examples.bounded_model).2 !! "t_break"
    = Some (VFloat x0).
Proof.
  assert (exists r s',
            Models._fit_broken_trend Examples.lstsq Examples.probe_optimizer
              Examples.t1 Examples.y1 Examples.bounded_model = (Ok r, s'))
    as (r & s' & E) by (do 2 eexists; vm_compute; reflexivity).
  destruct (fitted_break_from_optimizer Examples.lstsq Examples.probe_optimizer
              Examples.t1 Examples.y1 Examples.bounded_model r s')
    as (lo & hi & kwargs & evaluated & res & x0 & _ & _ & _ & _ & H5 & H6 & H7).
  - reflexivity.
  - exact E.
  - exists res, x0. rewrite E. cbn [fst snd]. rewrite H5.
    split; [reflexivity|]. split; [exact H6 | exact H7].
Defined.

(** An instance: the break location to be fitted without bounds, on one
    point. *)
Lemma break_fit_needs_two_points_witness :
  Models._fit_broken_trend Examples.lstsq Examples.probe_optimizer
    Examples.t1 Examples.y1 Examples.unbounded_model
  = (Raise IndexError, Examples.unbounded_model).
Proof.
  apply break_fit_needs_two_points.
  - reflexivity.
  - reflexivity.
  - cbn. lia.
Defined.

(** An instance: the intercept-only model, three time units later. *)
Lemma no_trend_predict_periodic_witness :
  Models._predict Examples.fitted_model
    (map (fun x => (x + INR 3)%R) Examples.t2)
  = Models._predict Examples.fitted_model Examples.t2.
Proof. apply no_trend_predict_periodic. vm_compute. reflexivity. Defined.

(** ** The model equation *)

Section ModelEquation.

Import Models.

#[local] Open Scope R_scope.

Implicit Types (s : LinearModel) (t p coefs : list R).

Lemma dot_app (u1 u2 p1 p2 : list R) :
  length u1 = length p1 ->
  Numpy.dot (u1 ++ u2) (p1 ++ p2) = Numpy.dot u1 p1 + Numpy.dot u2 p2.
Proof.
  unfold Numpy.dot. revert p1.
  induction u1 as [|a u1 IH]; intros [|b p1] Hlen; cbn in *; try lia; [lra|].
  rewrite IH by lia. lra.
Qed.

Lemma nth_map_lt {A} (g : A -> R) (l : list A) (d : A) (j : nat) :
  (j < length l)%nat -> nth j (map g l) 0 = g (nth j l d).
Proof.
  intros Hj. rewrite (nth_indep _ 0 (g d)) by (by rewrite length_map).
  apply map_nth.
Qed.

Lemma dot_fourier_columns (f a : nat) t coefs (j : nat) :
  length coefs = (2 * f)%nat -> (j < length t)%nat ->
  Numpy.dot (map (fun col => nth j col 0)
               (flat_map (_fourier_terms t) (seq a f))) coefs
  = fourier_series a coefs (nth j t 0).
Proof.
  revert a coefs. induction f as [|f IH]; intros a coefs Hlen Hj.
  - by destruct coefs.
  - destruct coefs as [|c1 [|c2 coefs]]; cbn in Hlen; try lia.
    cbn [seq flat_map _fourier_terms app map fourier_series].
    change (c1 :: c2 :: coefs) with ([c1; c2] ++ coefs).
    change (?x :: ?y :: map ?g ?l) with ([x; y] ++ map g l).
    rewrite dot_app by done. rewrite IH by (done || lia).
    unfold Numpy.dot. cbn.
    rewrite !(nth_map_lt _ t 0) by done. ring.
Qed.

(** The coefficient vector that the parameters of a model stand for. *)
Lemma predict_of_coefficients s t p :
  length p = n_regressors (class_of s) (f_order s) ->
  Forall (fun ki => exists v, getitem p ki.2 = Ok v /\
                              _parameters s !! ki.1 = Some v)
         (regressors (class_of s) (f_order s) t 0).1 ->
  forall x,
    (class_of s = LinearBrokenTrendFourier -> get_t_break s = Ok x) ->
    _predict s t
    = Ok (map (fun j =>
                 Numpy.dot
                   (map (fun col => nth j col 0)
                      (regressors (class_of s) (f_order s) t x).2) p)
              (seq 0 (length t))).
Proof.
  intros Hlen Hall x Hx.
  rewrite (predict_stored s p t 0 t x Hall Hx).
  rewrite <- Hlen, firstn_all. f_equal.
  unfold Numpy.matvec, design, Numpy.stack_transpose, Numpy.transpose.
  by rewrite map_map.
Qed.

(** The predictions are those of the model equation of the docstrings:
    with the Fourier coefficients [coefs] (two per order), the intercept
    [alpha], the slope [beta] and the change of slope [delta] at [t_break]
    as parameters, [_predict] returns, at every time point, the intercept
    plus the trend, the broken trend and the truncated Fourier series.
    [LinearNoTrendFourier] has no trend and [LinearTrendFourier] no
    break. *)
Theorem predict_is_model_equation s t coefs (alpha beta delta t_break : R) :
  length coefs = (2 * f_order s)%nat ->
  (f_order s <> 0%nat -> _parameters s !! "fourier_terms" = Some (VArray coefs)) ->
  _parameters s !! "intercept" = Some (VFloat alpha) ->
  match class_of s with
  | LinearNoTrendFourier => beta = 0 /\ delta = 0
  | LinearTrendFourier =>
      _parameters s !! "trend" = Some (VFloat beta) /\ delta = 0
  | LinearBrokenTrendFourier =>
      _parameters s !! "trend" = Some (VFloat beta) /\
      _parameters s !! "trend_change" = Some (VFloat delta) /\
      _parameters s !! "t_break" = Some (VFloat t_break)
  end ->
  _predict s t = Ok (map (model_equation coefs alpha beta delta t_break) t).
Proof.
  intros Hlen Hfourier Hintercept Hcls.
  set (p := coefs ++ [alpha]
            ++ match class_of s with
               | LinearNoTrendFourier => []
               | LinearTrendFourier => [beta]
               | LinearBrokenTrendFourier => [beta; delta]
               end).
  assert (length p = n_regressors (class_of s) (f_order s)) as Hp.
  { unfold p, n_regressors. rewrite !length_app, Hlen.
    destruct (class_of s); cbn; lia. }
  assert (take (f_order s * 2) p = coefs) as Htake.
  { unfold p. apply take_app_length'. lia. }
  assert (Hidx : forall i, p !! (f_order s * 2 + i)%nat
                           = ([alpha]
                              ++ match class_of s with
                                 | LinearNoTrendFourier => []
                                 | LinearTrendFourier => [beta]
                                 | LinearBrokenTrendFourier => [beta; delta]
                                 end) !! i).
  { intros i. unfold p. rewrite lookup_app_r by lia. f_equal. lia. }
  assert (Forall (fun ki => exists v, getitem p ki.2 = Ok v /\
                                      _parameters s !! ki.1 = Some v)
            (regressors (class_of s) (f_order s) t 0).1) as Hall.
  { unfold regressors, _regressor_terms_broken_trend, _regressor_terms_trend,
      _regressor_terms_no_trend.
    assert (Hi0 := Hidx 0%nat). assert (Hi1 := Hidx 1%nat).
    assert (Hi2 := Hidx 2%nat). rewrite Nat.add_0_r in Hi0.
    destruct (Nat.eqb_spec (f_order s) 0) as [Hf|Hf].
    - rewrite Hf in *. cbn [Nat.mul Nat.add] in *.
      destruct (class_of s); cbn [fst app];
        repeat (constructor; [cbn [getitem fst snd]|]); try constructor;
        rewrite ?Hi0, ?Hi1, ?Hi2; cbn; eexists; (split; [done|]); tauto.
    - specialize (Hfourier Hf).
      destruct (class_of s); cbn [fst app];
        repeat (constructor; [cbn [getitem fst snd]|]); try constructor;
        rewrite ?Hi0, ?Hi1, ?Hi2; cbn; unfold Numpy.slice;
        rewrite ?Nat.sub_0_r, ?drop_0, ?Htake;
        eexists; (split; [done|]); tauto. }
  assert (class_of s = LinearBrokenTrendFourier -> get_t_break s = Ok t_break)
    as Hbreak.
  { intros Hb. rewrite Hb in Hcls. destruct Hcls as (_ & _ & Ht).
    unfold get_t_break. by rewrite Ht. }
  rewrite (predict_of_coefficients s t p Hp Hall t_break Hbreak).
  rewrite (map_seq_nth (model_equation coefs alpha beta delta t_break) t 0).
  f_equal. apply map_ext_in. intros j Hj%in_seq.
  assert (j < length t)%nat as Hjt by lia.
  assert (forall tail_cols tail_p,
            length tail_cols = length tail_p ->
            Numpy.dot
              (map (fun col => nth j col 0)
                 ((if (f_order s =? 0)%nat then []
                   else flat_map (_fourier_terms t) (seq 1 (f_order s)))
                  ++ tail_cols))
              (coefs ++ tail_p)
            = fourier_series 1 coefs (nth j t 0)
              + Numpy.dot (map (fun col => nth j col 0) tail_cols) tail_p)
    as Hsplit.
  { intros tail_cols tail_p _.
    assert ((if (f_order s =? 0)%nat then []
             else flat_map (_fourier_terms t) (seq 1 (f_order s)))
            = flat_map (_fourier_terms t) (seq 1 (f_order s))) as ->.
    { destruct (Nat.eqb_spec (f_order s) 0) as [->|]; done. }
    rewrite map_app, dot_app.
    - by rewrite dot_fourier_columns.
    - rewrite length_map, Hlen.
      destruct (regressors_no_trend_shape (f_order s) t) as (Hl & _).
      unfold _regressor_terms_no_trend in Hl. cbn [snd] in Hl.
      rewrite length_app in Hl. cbn in Hl.
      destruct (Nat.eqb_spec (f_order s) 0) as [->|]; [done|]. lia. }
  unfold p, regressors, _regressor_terms_broken_trend, _regressor_terms_trend,
    _regressor_terms_no_trend, model_equation.
  destruct (class_of s); cbn [snd]; rewrite <- ?app_assoc;
    rewrite Hsplit by done; unfold Numpy.dot; cbn;
    rewrite ?(nth_map_lt _ t 0) by done.
  - destruct Hcls as [-> ->]. ring.
  - destruct Hcls as [_ ->]. ring.
  - ring.
Qed.

End ModelEquation.

(** An instance: a trend model of order one with the coefficients
    [1, 2] of the Fourier terms, intercept 3 and slope 4. *)
Lemma predict_is_model_equation_witness :
  Models._predict Examples.trend_model Examples.t2
  = Ok (map (Models.model_equation [1; 2]%R 3 4 0 0) Examples.t2).
Proof.
  apply predict_is_model_equation.
  - reflexivity.
  - intros _. reflexivity.
  - reflexivity.
  - split; reflexivity.
Defined.

(** ** The engine: what a draw and a failed fit leave behind *)

Section EngineOutcomes.

Context {M : Type} `{!Base.Estimator M}.
Variable use_dask : bool.
Variable entropy : nat -> Numpy.RandomState.

Import Bootstrap.

Implicit Types (w : World (M:=M)) (m : M) (l : loc).

#[local] Existing Instance extends_preorder.

#[local] Instance writes_only_preorder l : PreOrder (writes_only (M:=M) l).
Proof.
  split.
  - intros w. by repeat split.
  - intros w1 w2 w3 (E1 & U1 & H1) (E2 & U2 & H2). repeat split.
    + congruence.
    + congruence.
    + intros l' Hl'. by rewrite H2, H1.
Qed.

Lemma read_model_any l w (r : result M) w' :
  read_model l w = (r, w') -> w' = w.
Proof.
  unfold read_model. unfold_action.
  destruct (heap w !! l) as [[m'|g]|]; by intros [= _ <-].
Qed.

Lemma on_random_state_writes_only {A} l (c : action Numpy.RandomState A)
    w r w' :
  on_random_state l c w = (r, w') -> writes_only l w w'.
Proof.
  unfold on_random_state.
  destruct (heap w !! l) as [[m'|g]|] eqn:Hl;
    try (intros [= <- <-]; reflexivity).
  destruct (c g) as [r' g']. intros [= <- <-].
  repeat split. intros l' Hl'. cbn. by rewrite lookup_insert_ne.
Qed.

Lemma generate_bootstrap_sample_writes_only (rs : option loc) w r w' :
  generate_bootstrap_sample rs w = (r, w') ->
  writes_only (default (random_state (self w)) rs) w w'.
Proof.
  unfold generate_bootstrap_sample. intros E.
  apply bind_inv in E as [(e & [= ] & _)|(w0 & ? & [= <- <-] & E)].
  apply bind_inv in E as [(e & E & _)|(m & w1 & E1 & E)].
  { apply read_model_any in E as ->. reflexivity. }
  apply read_model_any in E1 as ->.
  destruct (negb _); [injection E as _ <-; reflexivity|].
  assert (match rs with
          | Some rs0 => rs0
          | None => random_state (self w)
          end = default (random_state (self w)) rs) as Hg by (by destruct rs).
  rewrite Hg in E. clear Hg.
  set (g := default (random_state (self w)) rs) in *.
  unfold _generate_bootstrap_sample in E.
  apply bind_inv in E as [(e & [= ] & _)|(w0 & ? & [= <- <-] & E)].
  destruct (class_of (self w)); [injection E as _ <-; reflexivity | |].
  - apply bind_inv in E as [(e & E & _)|(m' & w1 & E1 & E)].
    { apply read_model_any in E as ->. reflexivity. }
    apply read_model_any in E1 as ->.
    apply bind_inv in E as [(e & E & _)|(errors & w1 & E1 & E)].
    + by eapply on_random_state_writes_only.
    + injection E as _ <-. by eapply on_random_state_writes_only.
  - apply bind_inv in E as [(e & E & _)|(m' & w1 & E1 & E)].
    { apply read_model_any in E as ->. reflexivity. }
    apply read_model_any in E1 as ->.
    apply bind_inv in E as [(e & E & _)|(errors & w1 & E1 & E)].
    + by eapply on_random_state_writes_only.
    + injection E as _ <-. by eapply on_random_state_writes_only.
Qed.

(** A call of [generate_bootstrap_sample], whatever its outcome, writes
    nothing but the state of the generator it draws from: the one it is
    given or, without one, the engine's own.  In particular a draw with a
    generator of its own leaves the engine's generator where it was, and
    the model and the engine's record are never written. *)
Theorem draw_writes_only_its_generator (rs : option loc) w r w' :
  generate_bootstrap_sample rs w = (r, w') ->
  writes_only (default (random_state (self w)) rs) w w'.
Proof. apply generate_bootstrap_sample_writes_only. Qed.

Lemma on_model_any {A} l (c : action M A) w r w' :
  on_model l c w = (r, w') ->
  (w' = w /\ forall m, heap w !! l <> Some (OModel m)) \/
  exists m m', heap w !! l = Some (OModel m) /\ c m = (r, m') /\
               w' = set_heap (insert l (OModel m')) w.
Proof.
  unfold on_model. intros E.
  apply bind_inv in E as [(e & E & _)|(m & w1 & E1 & E)].
  - left. unfold read_model in E. unfold_action.
    destruct (heap w !! l) as [[m'|g]|]; [done|by injection E as _ <-..].
  - apply read_model_inv in E1 as [Hm ->].
    destruct (c m) as [r' m'] eqn:Ec. injection E as <- <-.
    right. by exists m, m'.
Qed.

(** A draw, whatever its outcome, writes no model that existed before it
    and leaves the engine's record alone. *)
Lemma fit_sample_extends t rs w r w' :
  fit_sample t rs w = (r, w') -> extends w w'.
Proof.
  unfold fit_sample. intros E.
  apply bind_inv in E as [(e & [= ] & _)|(w0 & ? & [= <- <-] & E)].
  apply bind_inv in E as [(e & E & _)|(m & w1 & E1 & E)].
  { apply read_model_any in E as ->. reflexivity. }
  apply read_model_any in E1 as ->.
  apply bind_inv in E as [(e & [= ] & _)|(mb & w1 & [Hfresh ->]%alloc_inv & E)].
  pose proof (extends_insert_fresh w mb (OModel m) Hfresh) as Hext0.
  apply bind_inv in E as [(e & E & _)|(yb & w2 & Egen & E)].
  { etrans; [exact Hext0|]. by eapply generate_bootstrap_sample_extends. }
  apply generate_bootstrap_sample_extends in Egen.
  assert (forall o, extends w (set_heap (insert mb o) w2)) as Hmb.
  { intros o. destruct Hext0 as (E0 & K0 & D0), Egen as (E1 & K1 & D1).
    repeat split; cbn.
    - congruence.
    - intros l m' Hl. rewrite lookup_insert_ne by congruence. auto.
    - intros l Hl. destruct (decide (mb = l)) as [<-|].
      + rewrite lookup_insert_eq. eauto.
      + rewrite lookup_insert_ne by done. auto. }
  assert (extends w w2) as Hw2 by (by etrans).
  apply bind_inv in E as [(e & E & _)|([] & w3 & Efit & E)].
  { apply on_model_any in E as [[-> _]|(? & ? & _ & _ & ->)];
      [done | apply Hmb]. }
  assert (extends w w3) as Hw3.
  { apply on_model_any in Efit as [[-> _]|(? & ? & _ & _ & ->)];
      [done | apply Hmb]. }
  apply bind_inv in E as [(e & E & _)|(m_fit & w4 & E1 & E)].
  { by apply read_model_any in E as ->. }
  apply read_model_any in E1 as ->.
  by destruct (save_models (self w)); injection E as _ <-.
Qed.

Lemma draws_extends t w r w' :
  draws use_dask entropy t w = (r, w') -> extends w w'.
Proof.
  unfold draws. intros E.
  apply bind_inv in E as [(e & [= ] & _)|(w0 & ? & [= <- <-] & E)].
  destruct use_dask.
  - apply bind_inv in E as [(e & E & _)|(rss & w1 & E1 & E)].
    + eapply (mapM_any_inv _ extends); [|exact E].
      intros x s0 r0 s1 _ _ Es. unfold new_random_state in Es.
      destruct r0 as [l0|e0]; [by eapply new_random_state_extends|].
      unfold_action. unfold alloc in Es. discriminate.
    + etrans.
      * eapply (mapM_any_inv _ extends); [|exact E1].
        intros x s0 r0 s1 _ _ Es.
        destruct r0 as [l0|e0]; [by eapply new_random_state_extends|].
        unfold new_random_state, alloc in Es. unfold_action. discriminate.
      * eapply (mapM_any_inv _ extends); [|exact E].
        intros x s0 r0 s1 _ _ Es. cbv beta in Es. by eapply fit_sample_extends.
  - eapply (mapM_any_inv _ extends); [|exact E].
    intros x s0 r0 s1 _ _ Es. cbv beta in Es. by eapply fit_sample_extends.
Qed.

(** A call of the engine's [_fit] that raises records nothing: the
    distributions and the saved models are those from before the call.  The
    wrapped model, though, is in the state that its own fit on the new data
    left it in, whether the failure came from that fit or from a draw; no
    other model that existed was written. *)
Theorem failed_fit_records_nothing t y w e w' m0 :
  heap w !! model (self w) = Some (OModel m0) ->
  _fit use_dask entropy t y w = (Raise e, w') ->
  self w' = self w /\
  (exists r m1, Base.model_fit t y m0 = (r, m1) /\
                heap w' !! model (self w) = Some (OModel m1)) /\
  (forall l m, l <> model (self w) ->
     heap w !! l = Some (OModel m) -> heap w' !! l = Some (OModel m)).
Proof.
  intros Hm0 E. unfold _fit in E.
  apply bind_inv in E as [(e' & [= ] & _)|(w0 & ? & [= <- <-] & E)].
  apply bind_inv in E as [(e' & E & _)|([] & w1 & Efit & E)].
  - apply on_model_any in E as [[-> Hno]|(m & m1 & Hm & Ec & ->)].
    + by destruct (Hno m0).
    + assert (m = m0) as -> by congruence. cbn. split; [done|]. split.
      * exists (Raise e'), m1. by rewrite lookup_insert_eq.
      * intros l m Hl Hlm. by rewrite lookup_insert_ne.
  - apply on_model_inv in Efit as (m & m1 & Hm & Ec & ->).
    assert (m = m0) as -> by congruence.
    apply bind_inv in E as [(e' & E & _)|(res & w2 & _ & [= ])].
    apply draws_extends in E as (Es & K & _). cbn in *.
    split; [done|]. split.
    + exists (Ok tt), m1. split; [done|]. apply K. by rewrite lookup_insert_eq.
    + intros l m Hl Hlm. apply K. by rewrite lookup_insert_ne.
Qed.

(** *** Saved models *)

Lemma models_foldl_record_sample
    (res : list (option loc * gmap string pyvalue)) (e : BootstrapEstimator) :
  _models (foldl (fun e r => record_sample r e) e res)
  = _models e ++ (if save_models e then omap fst res else []) /\
  save_models (foldl (fun e r => record_sample r e) e res) = save_models e.
Proof.
  revert e. induction res as [|r res IH]; intros e; cbn [foldl].
  - split; [|done]. destruct (save_models e); by rewrite app_nil_r.
  - destruct (IH (record_sample r e)) as [-> ->]. cbn. split; [|done].
    destruct (save_models e); [|done].
    destruct r as [[mb|] pb]; cbn; by rewrite <- ?app_assoc.
Qed.

(** The copies that a loop of draws fits, one per draw and in the order of
    the draws: objects created by the loop, all different. *)
Lemma draws_copies {X} (f : X -> option loc) (xs : list X) t w1 res w2 m1 :
  heap w1 !! model (self w1) = Some (OModel m1) ->
  mapM (fun x => fit_sample t (f x)) xs w1 = (Ok res, w2) ->
  exists copies : list loc,
    NoDup copies /\
    Forall (fun mb => heap w1 !! mb = None) copies /\
    Forall2 (fun mb r =>
               exists yb m_fit,
                 Base.model_fit t yb m1 = (Ok tt, m_fit) /\
                 heap w2 !! mb = Some (OModel m_fit) /\
                 r = (if save_models (self w1) then Some mb else None,
                      Base.model_parameters m_fit)) copies res.
Proof.
  revert w1 res. induction xs as [|x xs IH]; intros w1 res Hm1 E.
  - cbn in E. injection E as <- <-. exists []. repeat constructor.
  - cbn [mapM] in E.
    apply bind_Ok_inv in E as (r & wa & E1 & E).
    apply bind_Ok_inv in E as (rs & wb & E2 & [= <- <-]).
    destruct (fit_sample_inv _ _ _ _ _ _ Hm1 E1)
      as ((Es & K & D) & mb & yb & m_fit & Hfresh & Hfit & Hmb & ->).
    assert (heap wa !! model (self wa) = Some (OModel m1)) as Hma
      by (rewrite Es; by apply K).
    destruct (draws_inv f xs t wa rs wb m1 Hma E2) as ((Es' & K' & D') & _ & _).
    destruct (IH wa rs Hma E2) as (copies & Hnd & Hnew & Hall).
    exists (mb :: copies). split; [|split].
    + constructor; [|done]. intros Hin.
      rewrite Forall_forall in Hnew. specialize (Hnew _ Hin). congruence.
    + constructor; [done|].
      eapply Forall_impl; [exact Hnew|]. intros mb' Hmb'. cbn in Hmb'.
      destruct (heap w1 !! mb') eqn:Hw1; [|done].
      destruct (D mb' ltac:(eauto)) as [o' Ho]. congruence.
    + constructor.
      * exists yb, m_fit. split; [done|]. split; [by apply K'|done].
      * eapply Forall2_impl; [exact Hall|]. cbn.
        intros mb' r' (yb' & m_fit' & ? & ? & ->). rewrite Es.
        by exists yb', m_fit'.
Qed.

(** Saving the models.  After a call of the engine's [_fit] that returns,
    with [save_models] the list of saved models has grown by one reference
    per draw, in the order of the draws: [n_samples] objects that the call
    created, all different from each other (and so from the wrapped model),
    each holding a copy of the fitted model refitted on a generated sample;
    the values that the call recorded for a parameter are the values of that
    parameter in the saved models.  Without [save_models] the list is as it
    was. *)
Theorem fit_saves_models t y w w' m0 :
  heap w !! model (self w) = Some (OModel m0) ->
  _fit use_dask entropy t y w = (Ok tt, w') ->
  if save_models (self w) then
    exists (m1 : M) (copies : list loc),
      Base.model_fit t y m0 = (Ok tt, m1) /\
      _models (self w') = _models (self w) ++ copies /\
      length copies = Z.to_nat (n_samples (self w)) /\
      NoDup copies /\
      Forall (fun mb =>
                heap w !! mb = None /\
                exists yb m_fit,
                  Base.model_fit t yb m1 = (Ok tt, m_fit) /\
                  heap w' !! mb = Some (OModel m_fit)) copies /\
      forall k,
        dist (self w') k
        = dist (self w) k
          ++ omap (fun mb =>
                     match heap w' !! mb with
                     | Some (OModel m) => Base.model_parameters m !! k
                     | _ => None
                     end) copies
  else _models (self w') = _models (self w).
Proof.
  intros Hm0 E.
  destruct (_fit_inv _ _ _ _ _ _ _ Hm0 E) as (m1 & w2 & res & Hfit & Edraws & ->).
  set (w1 := set_heap (insert (model (self w)) (OModel m1)) w) in *.
  assert (heap w1 !! model (self w1) = Some (OModel m1)) as Hm1
    by (cbn; by rewrite lookup_insert_eq).
  pose proof (draws_loop_inv _ _ _ _ _ _ _ Hm1 Edraws) as ((Es & _ & _) & Hlen & _).
  assert (exists copies : list loc,
            NoDup copies /\
            Forall (fun mb => heap w !! mb = None) copies /\
            Forall2 (fun mb r =>
                       exists yb m_fit,
                         Base.model_fit t yb m1 = (Ok tt, m_fit) /\
                         heap w2 !! mb = Some (OModel m_fit) /\
                         r = (if save_models (self w) then Some mb else None,
                              Base.model_parameters m_fit)) copies res)
    as (copies & Hnd & Hnew & Hall).
  { unfold draws in Edraws.
    apply bind_Ok_inv in Edraws as (w0 & ? & [= <- <-] & Edraws).
    assert (forall wa mb, extends w1 wa -> heap wa !! mb = None ->
              heap w !! mb = None) as Hback.
    { intros wa mb (_ & _ & D) Hmb.
      destruct (heap w !! mb) eqn:Hw; [|done].
      destruct (D mb) as [o' Ho]; [|congruence].
      cbn. destruct (decide (model (self w) = mb)) as [<-|].
      - rewrite lookup_insert_eq. eauto.
      - rewrite lookup_insert_ne by done. eauto. }
    destruct use_dask.
    - apply bind_Ok_inv in Edraws as (rss & wa & Erss & Edraws).
      apply (mapM_Ok_inv _ extends (fun _ _ _ => True)) in Erss
        as (Hexta & _ & _);
        [|intros ? ? ? ? _ ?%new_random_state_extends; done].
      assert (heap wa !! model (self wa) = Some (OModel m1)) as Hma.
      { destruct Hexta as (-> & K & _). by apply K. }
      destruct (draws_copies Some rss t wa res w2 m1 Hma Edraws)
        as (copies & Hnd & Hnew & Hall).
      exists copies. split; [done|]. split.
      + eapply Forall_impl; [exact Hnew|]. intros mb. by apply Hback.
      + destruct Hexta as (Ea & _). by rewrite Ea in Hall.
    - destruct (draws_copies (fun _ => None) _ t w1 res w2 m1 Hm1 Edraws)
        as (copies & Hnd & Hnew & Hall).
      exists copies. split; [done|]. split; [|done].
      eapply Forall_impl; [exact Hnew|]. intros mb.
      apply Hback. reflexivity. }
  destruct (models_foldl_record_sample res (self w2)) as [Hmodels _].
  assert (self w2 = self w) as Es' by (by rewrite Es).
  cbn [self set_self heap]. rewrite Hmodels, Es'.
  destruct (save_models (self w)) eqn:Hsave; [|by rewrite app_nil_r].
  exists m1, copies. split; [done|].
  assert (omap fst res = copies) as Hfst.
  { clear -Hall. induction Hall as [|mb r copies res (yb & m_fit & _ & _ & ->) _ IH];
      cbn; [done|]. by rewrite IH. }
  split; [by rewrite Hfst|].
  split; [by rewrite (Forall2_length _ _ _ Hall)|].
  split; [done|]. split.
  - apply Forall_forall. intros mb Hin.
    rewrite Forall_forall in Hnew. split; [by apply Hnew|].
    apply list_elem_of_lookup in Hin as [i Hi].
    destruct (Forall2_lookup_l _ _ _ _ _ Hall Hi)
      as (r & _ & yb & m_fit & ? & ? & _).
    by exists yb, m_fit.
  - intros k. rewrite dist_foldl_record_sample.
    f_equal. clear -Hall.
    induction Hall as [|mb r copies res (yb & m_fit & _ & Hmb & ->) _ IH];
      cbn; [done|].
    rewrite Hmb, IH. done.
Qed.

(** *** The base class *)

Lemma generate_bootstrap_sample_Ok_class rs w yb w' :
  generate_bootstrap_sample rs w = (Ok yb, w') ->
  class_of (self w) <> AbstractBootstrap.
Proof.
  unfold generate_bootstrap_sample. intros E Hcls.
  apply bind_Ok_inv in E as (w0 & ? & [= <- <-] & E).
  apply bind_Ok_inv in E as (m & ? & [_ ->]%read_model_inv & E).
  destruct (negb _); [done|].
  unfold _generate_bootstrap_sample in E.
  apply bind_Ok_inv in E as (w0 & ? & [= <- <-] & E).
  by rewrite Hcls in E.
Qed.

Lemma fit_sample_Ok_class t rs w r w' :
  fit_sample t rs w = (Ok r, w') -> class_of (self w) <> AbstractBootstrap.
Proof.
  unfold fit_sample. intros E.
  apply bind_Ok_inv in E as (w0 & ? & [= <- <-] & E).
  apply bind_Ok_inv in E as (m & ? & [_ ->]%read_model_inv & E).
  apply bind_Ok_inv in E as (mb & w1 & [_ ->]%alloc_inv & E).
  apply bind_Ok_inv in E as (yb & w2 & Egen & _).
  by apply generate_bootstrap_sample_Ok_class in Egen.
Qed.

(** [BootstrapEstimator] itself cannot draw.  On a fitted model its
    [generate_bootstrap_sample] raises [TypeError] (the method
    [_generate_bootstrap_sample] of the base class does not take the
    generator that it is called with, so that its [NotImplementedError] is
    never reached) and leaves everything as it was; its [_fit] returns only
    when no draw is asked for. *)
Theorem base_class_cannot_draw w :
  class_of (self w) = AbstractBootstrap ->
  (forall rs m,
     heap w !! model (self w) = Some (OModel m) ->
     Base._fitted (Base.model_base m) = true ->
     generate_bootstrap_sample rs w = (Raise TypeError, w)) /\
  (forall t y w',
     _fit use_dask entropy t y w = (Ok tt, w') -> (n_samples (self w) <= 0)%Z).
Proof.
  intros Hcls. split.
  - intros rs m Hm Hf. unfold generate_bootstrap_sample.
    erewrite bind_Ok by reflexivity.
    erewrite bind_Ok
      by (unfold read_model; erewrite bind_Ok by reflexivity; by rewrite Hm).
    rewrite Hf. cbn [negb]. unfold _generate_bootstrap_sample.
    erewrite bind_Ok by reflexivity. by rewrite Hcls.
  - intros t y w' E. unfold _fit in E.
    apply bind_Ok_inv in E as (w0 & ? & [= <- <-] & E).
    apply bind_Ok_inv in E as ([] & w1 & Efit & E).
    apply on_model_inv in Efit as (m & m1 & _ & _ & ->).
    apply bind_Ok_inv in E as (res & w2 & Edraws & _).
    unfold draws in Edraws.
    apply bind_Ok_inv in Edraws as (w0 & ? & [= <- <-] & Edraws).
    cbn [self set_heap] in Edraws.
    destruct (Z.to_nat (n_samples (self w))) as [|n] eqn:Hn; [lia|].
    exfalso. destruct use_dask.
    + apply bind_Ok_inv in Edraws as (rss & wa & Erss & Edraws).
      apply (mapM_Ok_inv _ extends (fun _ _ _ => True)) in Erss
        as ((Ea & _) & Hlen & _);
        [|intros ? ? ? ? _ ?%new_random_state_extends; done].
      destruct rss as [|l rss]; [done|]. cbn [mapM] in Edraws.
      apply bind_Ok_inv in Edraws as (r & wb & E1 & _).
      apply fit_sample_Ok_class in E1. rewrite Ea in E1. done.
    + cbn [seq mapM] in Edraws.
      apply bind_Ok_inv in Edraws as (r & wb & E1 & _).
      by apply fit_sample_Ok_class in E1.
Qed.

End EngineOutcomes.

(** An instance: a draw of the residual-resampling engine of the examples
    leaves the model object, at reference 1, as it was. *)
Lemma draw_writes_only_its_generator_witness :
  Bootstrap.heap
    (Bootstrap.generate_bootstrap_sample None
       (Examples.engine Examples.fitted_model 2 false)).2 !! 1%positive
  = Bootstrap.heap (Examples.engine Examples.fitted_model 2 false) !! 1%positive.
Proof.
  destruct (draw_writes_only_its_generator None
              (Examples.engine Examples.fitted_model 2 false)
              (Bootstrap.generate_bootstrap_sample None
                 (Examples.engine Examples.fitted_model 2 false)).1
              (Bootstrap.generate_bootstrap_sample None
                 (Examples.engine Examples.fitted_model 2 false)).2)
    as (_ & _ & H).
  - apply surjective_pairing.
  - apply H. vm_compute. discriminate.
Defined.

(** An instance: the engine of the examples on one observation, where the
    fit of the model fails. *)
Lemma failed_fit_records_nothing_witness :
  Bootstrap.self Examples.engine_failed
  = Bootstrap.self (Examples.engine Examples.new_model 2 false).
Proof.
  destruct (failed_fit_records_nothing false (fun _ => Examples.generator)
              Examples.t1 Examples.y1
              (Examples.engine Examples.new_model 2 false) IndexError
              Examples.engine_failed Examples.new_model)
    as (H & _).
  - reflexivity.
  - vm_compute. reflexivity.
  - exact H.
Defined.

(** An instance: the engine of the examples with [save_models], after two
    draws. *)
Lemma fit_saves_models_witness :
  exists copies : list Bootstrap.loc,
    Bootstrap._models (Bootstrap.self Examples.engine_saving) = copies /\
    length copies = 2%nat /\ NoDup copies.
Proof.
  pose proof (fit_saves_models false (fun _ => Examples.generator)
                Examples.t2 Examples.y2
                (Examples.engine Examples.new_model 2 true)
                Examples.engine_saving Examples.new_model) as H.
  change (Bootstrap.save_models
            (Bootstrap.self (Examples.engine Examples.new_model 2 true)))
    with true in H.
  destruct H as (m1 & copies & _ & H2 & H3 & H4 & _).
  - reflexivity.
  - vm_compute. reflexivity.
  - exists copies. split; [exact H2|]. split; [exact H3 | exact H4].
Defined.

(** An instance: an engine of the base class around the fitted model of the
    examples. *)
Lemma base_class_cannot_draw_witness :
  Bootstrap.generate_bootstrap_sample None
    (Examples.engine_of Bootstrap.AbstractBootstrap Examples.fitted_model 2 false)
  = (Raise TypeError,
     Examples.engine_of Bootstrap.AbstractBootstrap Examples.fitted_model 2 false).
Proof.
  destruct (base_class_cannot_draw false (fun _ => Examples.generator)
              (Examples.engine_of Bootstrap.AbstractBootstrap
                 Examples.fitted_model 2 false)) as (H & _).
  - reflexivity.
  - apply (H None Examples.fitted_model).
    + reflexivity.
    + vm_compute. reflexivity.
Defined.

(** ** The block bootstrap: one block, lengths, and the generator *)

Section BlockErrors.

Import Bootstrap.

Implicit Types (t residuals iid : list R) (rs : Numpy.RandomState).

Lemma array_split_one {A} (x : list A) : Numpy.array_split x 1 = Ok [x].
Proof.
  change 1%Z with (Z.of_nat 1). rewrite (array_split_reshape x 1) by lia.
  rewrite Nat.mod_1_r, Nat.div_1_r. cbn. by rewrite firstn_all.
Qed.

Lemma n_blocks_one (n : nat) (b : Z) :
  (b < 0 \/ Z.of_nat n < 2 * b)%Z -> n_blocks n b = Ok 1%Z.
Proof.
  intros Hb. unfold n_blocks.
  destruct (Z.eqb_spec b 0) as [->|Hb0]; [lia|]. f_equal.
  assert (Z.of_nat n / b <= 1)%Z; [|lia].
  destruct Hb as [Hneg|Hpos].
  - pose proof (Z.div_mod (Z.of_nat n) b Hb0).
    pose proof (Z.mod_neg_bound (Z.of_nat n) b Hneg). nia.
  - apply Z.lt_succ_r. apply Z.div_lt_upper_bound; lia.
Qed.

(** With a block size that is negative, or more than half the length of the
    series (the length itself, or more, among them), there is one block:
    [_generate_bootstrap_err] is then the method without blocks, which
    factorises the correlation matrix of the whole series, whatever the
    outcome. *)
Theorem single_block_is_full_method (b : Z) (ar_coef : option R)
    t residuals rs :
  (b < 0 \/ Z.of_nat (length t) < 2 * b)%Z ->
  _generate_bootstrap_err b ar_coef t residuals rs
  = (gamma ← lift (block_gamma ar_coef t);
     iid ← Numpy.normal (length t);
     lift (_gen_errors_block gamma t residuals iid)) rs.
Proof.
  intros Hb.
  assert (forall gamma iid,
            blockwise_errors b gamma t residuals iid
            = _gen_errors_block gamma t residuals iid) as Hone.
  { intros gamma iid. unfold blockwise_errors.
    rewrite (n_blocks_one _ _ Hb). cbn [mbind result_bind].
    rewrite !array_split_one. cbn [mbind result_bind zip zip_with mapM].
    destruct (_gen_errors_block gamma t residuals iid) as [e|]; [|done].
    cbn. by rewrite app_nil_r. }
  unfold _generate_bootstrap_err.
  unfold mbind, action_bind.
  destruct (lift (block_gamma ar_coef t) rs) as [[gamma|] rs1]; [|done].
  destruct (Numpy.normal (length t) rs1) as [[iid|] rs2]; [|done].
  by rewrite Hone.
Qed.

(** *** Lengths *)

Lemma cholesky_rec_length (n : nat) (a L : list (list R)) :
  Numpy.cholesky_rec n a = Ok L -> (n <= length a)%nat /\ length L = n.
Proof.
  revert a L. induction n as [|n IH]; intros a L; cbn [Numpy.cholesky_rec].
  - intros [= <-]. split; [lia | done].
  - destruct a as [|[|a11 row] rest]; try done.
    destruct (Rlt_dec 0 a11); [|done].
    set (l21 := map _ rest). set (a22 := zip_with _ rest l21).
    destruct (Numpy.cholesky_rec n a22) as [l22|] eqn:E; [|done].
    cbn. intros [= <-]. apply IH in E as [Hn Hl].
    assert (length a22 = length rest) as Ha.
    { unfold a22, l21. rewrite length_zip_with, length_map. lia. }
    assert (length l21 = length rest) as Hl21
      by (unfold l21; by rewrite length_map).
    cbn. rewrite length_zip_with. lia.
Qed.

Lemma length_correlation_matrix t (gamma : R) :
  length (correlation_matrix t gamma) = length t.
Proof.
  unfold correlation_matrix, Numpy.madd, Numpy.transpose, Numpy.fill_diagonal,
    Numpy.triu, Numpy.power_outer.
  rewrite length_zip_with.
  repeat rewrite ?length_imap, ?length_map, ?length_seq.
  lia.
Qed.

Lemma gen_errors_block_length (gamma : R) (tb rb iidb e : list R) :
  _gen_errors_block gamma tb rb iidb = Ok e ->
  length e = Nat.min (length tb) (length rb).
Proof.
  unfold _gen_errors_block, _cholesky_decomposition, Numpy.cholesky.
  destruct (Numpy.cholesky_rec _ _) as [L|] eqn:E; [|done].
  apply cholesky_rec_length in E as [_ HL].
  rewrite length_correlation_matrix in HL.
  cbn. intros [= <-]. unfold Numpy.vmul, Numpy.matvec.
  by rewrite length_zip_with, length_map, HL.
Qed.

Lemma normal_inv (n : nat) rs :
  exists iid,
    Numpy.normal n rs
    = (Ok iid, {| Numpy.words := Numpy.words rs; Numpy.gauss := Numpy.gauss rs;
                  Numpy.cursor := Numpy.cursor rs + n |}) /\
    length iid = n.
Proof.
  revert rs. induction n as [|n IH]; intros rs; cbn [Numpy.normal].
  - exists []. split; [|done]. destruct rs. cbn. by rewrite Nat.add_0_r.
  - destruct (IH (Numpy.advance rs)) as (iid & E & Hlen).
    exists (Numpy.gauss rs (Numpy.cursor rs) :: iid). split; [|cbn; lia].
    erewrite bind_Ok by reflexivity. erewrite bind_Ok by exact E.
    cbn. do 3 f_equal. lia.
Qed.

Lemma blocks_errors_length (gamma : R) (szs : list nat) t residuals iid errors :
  (sum_list szs <= length t)%nat -> (sum_list szs <= length residuals)%nat ->
  mapM (fun '(tb, rb, iidb) => _gen_errors_block gamma tb rb iidb)
       (zip (zip (reshape szs t) (reshape szs residuals)) (reshape szs iid))
  = Ok errors ->
  length (concat errors) = sum_list szs.
Proof.
  revert t residuals iid errors.
  induction szs as [|s szs IH]; intros t residuals iid errors Ht Hr.
  - cbn. by intros [= <-].
  - cbn [reshape zip zip_with mapM sum_list] in *.
    destruct (_gen_errors_block _ _ _ _) as [e|] eqn:Ee; [|done].
    cbn [mbind result_bind].
    destruct (mapM _ _) as [es|] eqn:Ees; [|done].
    cbn. intros [= <-]. cbn [concat]. rewrite length_app.
    apply gen_errors_block_length in Ee. rewrite !length_take in Ee.
    unfold Datatypes.id in *.
    apply IH in Ees; rewrite ?length_drop; lia.
Qed.

(** *** Increasing time grids *)

Lemma StronglySorted_take_drop (l : list R) (n : nat) :
  StronglySorted Rlt l ->
  StronglySorted Rlt (take n l) /\ StronglySorted Rlt (drop n l).
Proof.
  intros Hl. revert n. induction Hl as [|x l Hl IH Hx]; intros n.
  - destruct n; cbn; split; constructor.
  - destruct n as [|n]; cbn.
    + split; [constructor | by constructor].
    + destruct (IH n) as [Ht Hd]. split; [|done].
      constructor; [done|]. by apply Forall_take.
Qed.

Lemma cholesky_decomposition_Ok (gamma : R) t :
  (0 < gamma < 1)%R -> StronglySorted Rlt t ->
  exists L, _cholesky_decomposition t gamma = Ok L.
Proof.
  intros Hg Ht. unfold _cholesky_decomposition, Numpy.cholesky.
  rewrite length_correlation_matrix.
  rewrite correlation_matrix_kernel by (done || lra).
  apply cholesky_schur_kernel; [done | done | lra |].
  intros t1 _. lra.
Qed.

Lemma gamma_of_range (n : nat) :
  (1 <= n)%nat -> (0 < gamma_of n < 1)%R.
Proof.
  intros Hn. unfold gamma_of.
  assert (0 < INR n)%R as HN by (apply lt_0_INR; lia).
  pose proof (Rpower_gt_0 (INR n) (1 / 3)) as Hc.
  set (c := Rpower (INR n) (1 / 3)) in *.
  assert (0 < 1 / (175 / 100 * c))%R as Hx.
  { apply Rdiv_lt_0_compat; [lra|]. apply Rmult_lt_0_compat; lra. }
  pose proof (Rpower_gt_0 (1 / 100) (1 / (175 / 100 * c))) as Hth0.
  pose proof (Rpower_lt_1 (1 / 100) (1 / (175 / 100 * c)) ltac:(lra) Hx)
    as Hth1.
  set (th := Rpower (1 / 100) (1 / (175 / 100 * c))) in *.
  split; [apply Rpower_gt_0|].
  apply Rpower_lt_1; [lra|]. lra.
Qed.

Lemma blocks_errors_Ok (gamma : R) (szs : list nat) t residuals iid :
  (0 < gamma < 1)%R -> StronglySorted Rlt t ->
  exists errors,
    mapM (fun '(tb, rb, iidb) => _gen_errors_block gamma tb rb iidb)
         (zip (zip (reshape szs t) (reshape szs residuals)) (reshape szs iid))
    = Ok errors /\ length errors = length szs.
Proof.
  intros Hg. revert t residuals iid.
  induction szs as [|s szs IH]; intros t residuals iid Ht.
  - by exists [].
  - cbn [reshape zip zip_with mapM].
    destruct (StronglySorted_take_drop t s Ht) as [Htake Hdrop].
    destruct (cholesky_decomposition_Ok gamma (take s t) Hg Htake) as [L HL].
    destruct (IH (drop s t) (drop s residuals) (drop s iid) Hdrop)
      as (es & Ees & Hlen).
    exists (Numpy.vmul (Numpy.matvec L (take s iid)) (take s residuals) :: es).
    split; [|cbn; by rewrite Hlen].
    assert (_gen_errors_block gamma (take s t) (take s residuals) (take s iid)
            = Ok (Numpy.vmul (Numpy.matvec L (take s iid)) (take s residuals)))
      as -> by (unfold _gen_errors_block; by rewrite HL).
    cbn [mbind result_bind]. by rewrite Ees.
Qed.

Lemma generate_bootstrap_err_Ok (b : Z) (ar_coef : option R) t residuals rs :
  Sorted Rlt t -> b <> 0%Z -> length residuals = length t ->
  match ar_coef with
  | Some gamma => (0 < gamma < 1)%R
  | None => t <> []
  end ->
  exists errors,
    _generate_bootstrap_err b ar_coef t residuals rs
    = (Ok errors,
       {| Numpy.words := Numpy.words rs; Numpy.gauss := Numpy.gauss rs;
          Numpy.cursor := Numpy.cursor rs + length t |}) /\
    length errors = length t.
Proof.
  intros Ht Hb Hlen Har.
  assert (StronglySorted Rlt t) as Hs.
  { apply Sorted_StronglySorted; [|done]. intros x y z. apply Rlt_trans. }
  assert (exists gamma, block_gamma ar_coef t = Ok gamma /\ (0 < gamma < 1)%R)
    as (gamma & Hgamma & Hg).
  { destruct ar_coef as [g|]; [by exists g|].
    assert (1 <= length t)%nat as Hn by (destruct t; [done | cbn; lia]).
    exists (gamma_of (length t)). split; [|by apply gamma_of_range].
    by apply default_gamma_Ok. }
  destruct (normal_inv (length t) rs) as (iid & Enormal & Hiid).
  unfold _generate_bootstrap_err.
  erewrite bind_Ok by (unfold lift; by rewrite Hgamma).
  erewrite bind_Ok by exact Enormal.
  unfold lift, blockwise_errors, n_blocks.
  destruct (Z.eqb_spec b 0) as [|_]; [done|]. cbn [mbind result_bind].
  set (k := Z.to_nat (Z.max (Z.of_nat (length t) / b) 1)).
  assert (Z.max (Z.of_nat (length t) / b) 1 = Z.of_nat k) as -> by lia.
  assert (0 < k)%nat as Hk by lia.
  rewrite !array_split_reshape by done. cbn [mbind result_bind].
  rewrite Hlen, Hiid.
  set (szs := replicate (length t mod k) (S (length t / k))
              ++ replicate (k - length t mod k) (length t / k)).
  assert (sum_list szs = length t) as Hsum by (by apply section_sizes_sum).
  assert (length szs = k) as Hszs.
  { unfold szs. rewrite length_app, !length_replicate.
    pose proof (Nat.mod_upper_bound (length t) k). lia. }
  destruct (blocks_errors_Ok gamma szs t residuals iid Hg Hs)
    as (errors & Eerr & Hlerr).
  rewrite Eerr. cbn [mbind result_bind].
  exists (concat errors). split.
  - destruct errors; [cbn in Hlerr; lia | done].
  - rewrite <- Hsum. eapply blocks_errors_length; [| |exact Eerr]; lia.
Qed.

(** On a strictly increasing time grid, with as many residuals as time
    points, a block size that is not zero and a coefficient in (0, 1) (or
    the default one, for a series that is not empty),
    [_generate_bootstrap_err] returns: no factorisation fails.  It gives as
    many errors as there are time points, and has taken exactly that many
    normal draws from the generator. *)
Theorem block_bootstrap_returns (b : Z) (ar_coef : option R) t residuals rs :
  Sorted Rlt t -> b <> 0%Z -> length residuals = length t ->
  match ar_coef with
  | Some gamma => (0 < gamma < 1)%R
  | None => t <> []
  end ->
  exists errors,
    _generate_bootstrap_err b ar_coef t residuals rs
    = (Ok errors,
       {| Numpy.words := Numpy.words rs; Numpy.gauss := Numpy.gauss rs;
          Numpy.cursor := Numpy.cursor rs + length t |}) /\
    length errors = length t.
Proof. apply generate_bootstrap_err_Ok. Qed.

(** Two ways to a [ZeroDivisionError]: an empty series without a
    coefficient fails on the default one, before anything is drawn; a block
    size of zero fails on the number of blocks, after the normal draws have
    been taken from the generator. *)
Theorem bootstrap_err_zero_division (ar_coef : option R) t residuals rs :
  (forall b,
     _generate_bootstrap_err b None [] residuals rs
     = (Raise ZeroDivisionError, rs)) /\
  (forall gamma,
     block_gamma ar_coef t = Ok gamma ->
     _generate_bootstrap_err 0 ar_coef t residuals rs
     = (Raise ZeroDivisionError,
        {| Numpy.words := Numpy.words rs; Numpy.gauss := Numpy.gauss rs;
           Numpy.cursor := Numpy.cursor rs + length t |})).
Proof.
  split; [done|]. intros gamma Hgamma.
  destruct (normal_inv (length t) rs) as (iid & Enormal & _).
  unfold _generate_bootstrap_err.
  erewrite bind_Ok by (unfold lift; by rewrite Hgamma).
  by erewrite bind_Ok by exact Enormal.
Qed.

End BlockErrors.

(** An instance: two points in blocks of five. *)
Lemma single_block_is_full_method_witness :
  Bootstrap._generate_bootstrap_err 5 (Some (1 / 2)%R) [0; 1]%R [1; 1]%R
    Examples.generator
  = (gamma ← lift (Bootstrap.block_gamma (Some (1 / 2)%R) [0; 1]%R);
     iid ← Numpy.normal 2;
     lift (Bootstrap._gen_errors_block gamma [0; 1]%R [1; 1]%R iid))
      Examples.generator.
Proof.
  apply (single_block_is_full_method 5 (Some (1 / 2)%R) [0; 1]%R [1; 1]%R).
  right. cbn. lia.
Defined.

(** An instance: two points in blocks of one, with coefficient 1/2. *)
Lemma block_bootstrap_returns_witness :
  exists errors rs',
    Bootstrap._generate_bootstrap_err 1 (Some (1 / 2)%R) [0; 1]%R [1; 1]%R
      Examples.generator = (Ok errors, rs') /\
    length errors = 2%nat.
Proof.
  destruct (block_bootstrap_returns 1 (Some (1 / 2)%R) [0; 1]%R [1; 1]%R
              Examples.generator) as (errors & H1 & H2).
  - repeat constructor. lra.
  - lia.
  - reflexivity.
  - lra.
  - exists errors. eexists. split; [exact H1 | exact H2].
Defined.

(** An instance: a block size of zero on two points. *)
Lemma bootstrap_err_zero_division_witness :
  (Bootstrap._generate_bootstrap_err 0 (Some (1 / 2)%R) [0; 1]%R [1; 1]%R
     Examples.generator).1
  = Raise ZeroDivisionError.
Proof.
  destruct (bootstrap_err_zero_division (Some (1 / 2)%R) [0; 1]%R [1; 1]%R
              Examples.generator) as (_ & H).
  by rewrite (H (1 / 2)%R eq_refl).
Defined.

(** ** The engine: predictions and block draws *)

Section EngineDraws.

Context {M : Type} `{!Base.Estimator M}.
Variable use_dask : bool.
Variable entropy : nat -> Numpy.RandomState.

Import Bootstrap.

Implicit Types (w : World (M:=M)) (m : M) (l : loc).

(** After a call of the engine's [_fit] that returned, the engine predicts
    with the model as its one fit on the data left it: no draw has a part
    in the predictions. *)
Theorem engine_predicts_with_fitted_model t y w w' m0 :
  heap w !! model (self w) = Some (OModel m0) ->
  _fit use_dask entropy t y w = (Ok tt, w') ->
  exists m1,
    Base.model_fit t y m0 = (Ok tt, m1) /\
    forall t', _predict w' t' = Base.model_predict m1 t'.
Proof.
  intros Hm0 E.
  destruct (_fit_inv _ _ _ _ _ _ _ Hm0 E) as (m1 & w2 & res & Hfit & Edraws & ->).
  apply (draws_loop_inv _ _ _ _ _ _ m1) in Edraws
    as ((Es & K & D) & _ & _); [|cbn; by rewrite lookup_insert_eq].
  exists m1. split; [done|]. intros t'. unfold _predict. cbn in *.
  rewrite model_foldl_record_sample, Es.
  by rewrite (K (model (self w)) m1) by (by rewrite lookup_insert_eq).
Qed.

(** A draw of [BlockARWild].  With a fitted model whose time grid is
    strictly increasing and whose responses and predictions are as many as
    its time points, a block size that is not zero and a coefficient in
    (0, 1) (or the default one, for a series that is not empty),
    [generate_bootstrap_sample] returns: the predicted values plus one error
    per time point.  The generator has given exactly as many normal draws
    as there are time points, and the model is as it was. *)
Theorem block_draw_returns w m (rs : option loc) g (b : Z) (ar_coef : option R) :
  class_of (self w) = BlockARWild b ar_coef ->
  heap w !! model (self w) = Some (OModel m) ->
  Base._fitted (Base.model_base m) = true ->
  heap w !! default (random_state (self w)) rs = Some (ORandomState g) ->
  Sorted Rlt (Base._t (Base.model_base m)) ->
  length (Base._y (Base.model_base m)) = length (Base._t (Base.model_base m)) ->
  length (Base._y_predict (Base.model_base m))
  = length (Base._t (Base.model_base m)) ->
  b <> 0%Z ->
  match ar_coef with
  | Some gamma => (0 < gamma < 1)%R
  | None => Base._t (Base.model_base m) <> []
  end ->
  exists errors w',
    generate_bootstrap_sample rs w
    = (Ok (Numpy.vadd (Base._y_predict (Base.model_base m)) errors), w') /\
    length errors = length (Base._t (Base.model_base m)) /\
    length (Numpy.vadd (Base._y_predict (Base.model_base m)) errors)
    = length (Base._t (Base.model_base m)) /\
    heap w' !! default (random_state (self w)) rs
    = Some (ORandomState
              {| Numpy.words := Numpy.words g; Numpy.gauss := Numpy.gauss g;
                 Numpy.cursor := Numpy.cursor g
                                 + length (Base._t (Base.model_base m)) |}) /\
    heap w' !! model (self w) = Some (OModel m).
Proof.
  intros Hcls Hm Hfit Hg Ht Hy Hyp Hb Har.
  assert (length (Base.residuals (Base.model_base m))
          = length (Base._t (Base.model_base m))) as Hres.
  { unfold Base.residuals. rewrite length_zip_with. lia. }
  destruct (generate_bootstrap_err_Ok b ar_coef _ _ g Ht Hb Hres Har)
    as (errors & Eerr & Hlen).
  set (g' := {| Numpy.words := Numpy.words g; Numpy.gauss := Numpy.gauss g;
                Numpy.cursor := Numpy.cursor g
                                + length (Base._t (Base.model_base m)) |}) in *.
  set (l := default (random_state (self w)) rs) in *.
  exists errors, (set_heap (insert l (ORandomState g')) w).
  assert (l <> model (self w)) as Hne by congruence.
  split; [|split; [done|split; [|split]]].
  - unfold generate_bootstrap_sample.
    erewrite bind_Ok by reflexivity.
    erewrite bind_Ok
      by (unfold read_model; erewrite bind_Ok by reflexivity; by rewrite Hm).
    rewrite Hfit. cbn [negb].
    assert (match rs with
            | Some rs0 => rs0
            | None => random_state (self w)
            end = l) as -> by (unfold l; by destruct rs).
    unfold _generate_bootstrap_sample.
    erewrite bind_Ok by reflexivity. rewrite Hcls.
    erewrite bind_Ok
      by (unfold read_model; erewrite bind_Ok by reflexivity; by rewrite Hm).
    erewrite bind_Ok; [reflexivity|].
    unfold on_random_state. rewrite Hg. by rewrite Eerr.
  - unfold Numpy.vadd. rewrite length_zip_with. lia.
  - cbn. by rewrite lookup_insert_eq.
  - cbn. by rewrite lookup_insert_ne.
Qed.

End EngineDraws.

(** An instance: the engine of the examples after its [_fit] predicts as
    the model that this fit produced. *)
Lemma engine_predicts_with_fitted_model_witness :
  exists m1 : Models.LinearModel,
    Base.model_fit Examples.t2 Examples.y2 Examples.new_model = (Ok tt, m1) /\
    Bootstrap._predict Examples.engine_fitted_once Examples.t2
    = Base.model_predict m1 Examples.t2.
Proof.
  destruct (engine_predicts_with_fitted_model false (fun _ => Examples.generator)
              Examples.t2 Examples.y2
              (Examples.engine Examples.new_model 2 false)
              Examples.engine_fitted_once Examples.new_model)
    as (m1 & H1 & H2).
  - reflexivity.
  - vm_compute. reflexivity.
  - exists m1. split; [exact H1 | apply H2].
Defined.

(** An instance: a draw in blocks of one point, with coefficient 1/2, from
    the model of the examples fitted on two points. *)
Lemma block_draw_returns_witness :
  exists errors w',
    Bootstrap.generate_bootstrap_sample None
      (Examples.engine_of (Bootstrap.BlockARWild 1 (Some (1 / 2)%R))
         Examples.fitted_model 2 false)
    = (Ok (Numpy.vadd
             (Base._y_predict (Base.model_base Examples.fitted_model)) errors),
       w') /\
    length errors = 2%nat.
Proof.
  destruct (block_draw_returns
              (Examples.engine_of (Bootstrap.BlockARWild 1 (Some (1 / 2)%R))
                 Examples.fitted_model 2 false)
              Examples.fitted_model None Examples.generator 1
              (Some (1 / 2)%R))
    as (errors & w' & H1 & H2 & _).
  - reflexivity.
  - reflexivity.
  - vm_compute. reflexivity.
  - reflexivity.
  - change (Base._t (Base.model_base Examples.fitted_model))
      with [0; 1]%R.
    repeat constructor. lra.
  - vm_compute. reflexivity.
  - vm_compute. reflexivity.
  - lia.
  - lra.
  - exists errors, w'. split; [exact H1 | exact H2].
Defined.

(** ** Confidence intervals: the range of the bounds and of the level *)

Section QuantileRange.

#[local] Open Scope R_scope.

Lemma insert_sorted_Permutation x l : Numpy.insert_sorted x l ≡ₚ x :: l.
Proof.
  induction l as [|y l IH]; cbn; [done|].
  destruct (Rle_dec x y); [done|]. rewrite IH. apply perm_swap.
Qed.

Lemma sort_Permutation l : Numpy.sort l ≡ₚ l.
Proof.
  induction l as [|x l IH]; cbn; [done|].
  unfold Numpy.sort in IH. by rewrite insert_sorted_Permutation, IH.
Qed.

(** The quantiles of a sorted sample lie between its first and its last
    entry, which are the quantiles of orders 0 and 1. *)
Lemma quantile_sorted_range (arr : list R) (q : R) :
  StronglySorted Rle arr -> (1 <= length arr)%nat -> 0 <= q <= 1 ->
  nth 0 arr 0 <= Numpy.quantile_sorted arr q <= nth (length arr - 1) arr 0 /\
  (q = 0 -> Numpy.quantile_sorted arr q = nth 0 arr 0) /\
  (q = 1 -> Numpy.quantile_sorted arr q = nth (length arr - 1) arr 0).
Proof.
  intros Hs Hn Hq. unfold Numpy.quantile_sorted.
  set (n := length arr) in *.
  destruct (previous_index_bounds n q Hn Hq) as [Hp Hg].
  set (v := INR (n - 1) * q) in *. set (p := Z.to_nat (Zfloor v)) in *.
  rewrite lerp_eq.
  assert (nth 0 arr 0 <= nth p arr 0) as H0
    by (apply StronglySorted_nth; [done | fold n; lia]).
  assert (nth p arr 0 <= nth (Nat.min (p + 1) (n - 1)) arr 0) as H1
    by (apply StronglySorted_nth; [done | fold n; lia]).
  assert (nth (Nat.min (p + 1) (n - 1)) arr 0 <= nth (n - 1) arr 0) as H2
    by (apply StronglySorted_nth; [done | fold n; lia]).
  split; [split; nra|]. split.
  - intros ->. assert (v = 0) as Hv by (unfold v; ring).
    assert (p = 0%nat) as ->.
    { unfold p. rewrite Hv. change 0 with (IZR 0). by rewrite ZfloorZ. }
    rewrite Hv. cbn. ring.
  - intros ->. assert (v = INR (n - 1)) as Hv by (unfold v; ring).
    assert (p = (n - 1)%nat) as ->.
    { unfold p. rewrite Hv, INR_IZR_INZ, ZfloorZ. lia. }
    rewrite Hv. replace (Nat.min (n - 1 + 1) (n - 1)) with (n - 1)%nat by lia.
    ring.
Qed.

(** The least and the greatest draw of a sample, and its quantiles between
    them. *)
Lemma quantile_1d_range (a : list R) (q : R) :
  a <> [] -> 0 <= q <= 1 ->
  exists mn mx,
    mn ∈ a /\ mx ∈ a /\ (forall x, x ∈ a -> mn <= x <= mx) /\
    mn <= Numpy.quantile_1d a q <= mx /\
    Numpy.quantile_1d a 0 = mn /\ Numpy.quantile_1d a 1 = mx.
Proof.
  intros Ha Hq. unfold Numpy.quantile_1d.
  pose proof (sort_StronglySorted a) as Hs.
  pose proof (sort_Permutation a) as Hperm.
  assert (1 <= length (Numpy.sort a))%nat as Hn.
  { rewrite sort_length. destruct a; [done | cbn; lia]. }
  set (arr := Numpy.sort a) in *.
  exists (nth 0 arr 0), (nth (length arr - 1) arr 0).
  assert (forall i, (i < length arr)%nat -> nth i arr 0 ∈ a) as Hin.
  { intros i Hi. rewrite <- Hperm. apply list_elem_of_In, nth_In. lia. }
  split; [apply Hin; lia|]. split; [apply Hin; lia|]. split.
  - intros x Hx. rewrite <- Hperm in Hx.
    apply list_elem_of_In, (In_nth _ _ 0) in Hx as (i & Hi & <-).
    split; apply StronglySorted_nth; (done || lia).
  - destruct (quantile_sorted_range arr q Hs Hn Hq) as (Hr & _).
    destruct (quantile_sorted_range arr 0 Hs Hn ltac:(lra)) as (_ & H0 & _).
    destruct (quantile_sorted_range arr 1 Hs Hn ltac:(lra)) as (_ & _ & H1).
    split; [done|]. split; [by apply H0 | by apply H1].
Qed.

Lemma quantile_floats_inv (a : list R) (q : R) (x : pyvalue) :
  Numpy.quantile (map VFloat a) q = Ok x ->
  a <> [] /\ 0 <= q <= 1 /\ x = VFloat (Numpy.quantile_1d a q).
Proof.
  unfold Numpy.quantile. destruct a as [|x0 a]; [done|]. cbn [map].
  pose proof (mapM_as_float_map (x0 :: a)) as E. cbn [map] in E. rewrite E.
  destruct (Rle_dec 0 q); [|done]. destruct (Rle_dec q 1); [|done].
  by intros [= <-].
Qed.

Lemma quantile_out_of_range (v : list pyvalue) (q : R) :
  sample_shaped v -> q < 0 \/ 1 < q -> Numpy.quantile v q = Raise ValueError.
Proof.
  intros [Hne [[a ->]|(n & rows & -> & Hrows)]] Hq; unfold Numpy.quantile.
  - destruct a as [|x a]; [done|]. cbn [map].
    pose proof (mapM_as_float_map (x :: a)) as E. cbn [map] in E. rewrite E.
    destruct (Rle_dec 0 q); [|done]. destruct (Rle_dec q 1); [lra|done].
  - destruct rows as [|x0 rows]; [done|]. cbn [map].
    pose proof (mapM_as_array_map (x0 :: rows)) as E. cbn [map] in E.
    rewrite E. destruct (forallb _ _); [|done].
    destruct (Rle_dec 0 q); [|done]. destruct (Rle_dec q 1); [lra|done].
Qed.

End QuantileRange.

Section ConfidenceLevels.

Context {M : Type} `{!Base.Estimator M}.
Import Bootstrap.
Implicit Types (w : World (M:=M)).

#[local] Open Scope R_scope.

(** The bounds that [get_ci_bounds] returns for a parameter recorded as
    floats never leave the range of the recorded draws; at level 1 they are
    the least and the greatest draw, and at level 0 the lower and the upper
    bound are one value, the median. *)
Theorem ci_bounds_within_draws (c : R) w b w' (k : string) (a : list R) :
  get_ci_bounds c w = (Ok b, w') ->
  _parameter_dists (self w) !! k = Some (map VFloat a) ->
  exists lo hi mn mx,
    b !! k = Some (VFloat lo, VFloat hi) /\
    mn ∈ a /\ mx ∈ a /\ (forall x, x ∈ a -> mn <= x <= mx) /\
    mn <= lo <= mx /\ mn <= hi <= mx /\
    (c = 1 -> lo = mn /\ hi = mx) /\
    (c = 0 -> lo = hi /\ lo = Numpy.quantile_1d a (1 / 2)).
Proof.
  intros E Hk. apply get_ci_bounds_inv in E as (_ & Hs & _).
  destruct (Hs k _ Hk) as ([lo' hi'] & [Hlo Hhi]%ci_bounds_of_inv & Hb).
  apply quantile_floats_inv in Hlo as (Ha & Hq1 & ->).
  apply quantile_floats_inv in Hhi as (_ & Hq2 & ->).
  destruct (quantile_1d_range a ((1 - c) / 2) Ha Hq1)
    as (mn & mx & Hmn & Hmx & Hall & Hr1 & H0 & H1).
  destruct (quantile_1d_range a (1 - (1 - c) / 2) Ha Hq2)
    as (mn' & mx' & _ & _ & _ & Hr2 & H0' & H1').
  assert (mn' = mn) as -> by congruence.
  assert (mx' = mx) as -> by congruence.
  exists (Numpy.quantile_1d a ((1 - c) / 2)),
    (Numpy.quantile_1d a (1 - (1 - c) / 2)), mn, mx.
  split; [done|]. split; [done|]. split; [done|]. split; [done|].
  split; [done|]. split; [done|]. split.
  - intros ->. split.
    + by replace ((1 - 1) / 2) with 0 by lra.
    + by replace (1 - (1 - 1) / 2) with 1 by lra.
  - intros ->. split; f_equal; lra.
Qed.

Lemma ci_bounds_of_negated (c : R) (v : list pyvalue) (lo hi : pyvalue) :
  ci_bounds_of c v = Ok (lo, hi) -> ci_bounds_of (- c) v = Ok (hi, lo).
Proof.
  intros [Hlo Hhi]%ci_bounds_of_inv. unfold ci_bounds_of.
  replace ((1 - - c) / 2) with (1 - (1 - c) / 2) by lra.
  replace (1 - (1 - (1 - c) / 2)) with ((1 - c) / 2) by lra.
  by rewrite Hhi, Hlo.
Qed.

Lemma ci_bounds_of_Ok_signed (c : R) (v : list pyvalue) :
  sample_shaped v -> -1 <= c <= 1 -> exists b, ci_bounds_of c v = Ok b.
Proof.
  intros Hv Hc. unfold ci_bounds_of.
  destruct (quantile_Ok v ((1 - c) / 2) Hv ltac:(lra)) as [lo ->].
  destruct (quantile_Ok v (1 - (1 - c) / 2) Hv ltac:(lra)) as [hi ->].
  cbn. eauto.
Qed.

Lemma get_ci_bounds_Ok_signed (c : R) w :
  Base._fitted (base (self w)) = true ->
  (forall k v, _parameter_dists (self w) !! k = Some v -> sample_shaped v) ->
  -1 <= c <= 1 ->
  exists b, get_ci_bounds c w = (Ok b, w).
Proof.
  intros Hf Hv Hc. unfold get_ci_bounds.
  unfold mbind at 1. unfold action_bind, get. rewrite Hf. cbn [negb].
  unfold mbind at 1. unfold action_bind, lift.
  destruct (mapM_result_Ok
              (fun '(k, v) => b ← ci_bounds_of c v; Ok (k, b))
              (map_to_list (_parameter_dists (self w)))) as [cb Hcb].
  - apply Forall_forall. intros [k v] Hkv%elem_of_map_to_list.
    destruct (ci_bounds_of_Ok_signed c v (Hv k v Hkv) Hc) as [b ->]. cbn. eauto.
  - rewrite Hcb. eauto.
Qed.

(** The confidence level is not checked by [get_ci_bounds]; numpy checks the
    orders of the quantiles.  On a fitted engine whose recorded
    distributions are samples: every level in [[-1, 1]] is accepted, and
    the bounds at level [- c] are those at level [c] with lower and upper
    exchanged; a level outside [[-1, 1]] raises [ValueError], unless nothing
    is recorded, in which case every level gives the empty dictionary.  The
    engine is never changed. *)
Theorem ci_level_range w (c : R) :
  Base._fitted (base (self w)) = true ->
  (forall k v, _parameter_dists (self w) !! k = Some v -> sample_shaped v) ->
  (-1 <= c <= 1 ->
   exists b b',
     get_ci_bounds c w = (Ok b, w) /\ get_ci_bounds (- c) w = (Ok b', w) /\
     forall k lo hi, b !! k = Some (lo, hi) -> b' !! k = Some (hi, lo)) /\
  (c < -1 \/ 1 < c ->
   _parameter_dists (self w) <> ∅ ->
   get_ci_bounds c w = (Raise ValueError, w)) /\
  (_parameter_dists (self w) = ∅ -> get_ci_bounds c w = (Ok ∅, w)).
Proof.
  intros Hf Hv. split; [|split].
  - intros Hc.
    destruct (get_ci_bounds_Ok_signed c w Hf Hv Hc) as [b Hb].
    destruct (get_ci_bounds_Ok_signed (- c) w Hf Hv ltac:(lra)) as [b' Hb'].
    exists b, b'. split; [done|]. split; [done|].
    apply get_ci_bounds_inv in Hb as (_ & Hs & Hn).
    apply get_ci_bounds_inv in Hb' as (_ & Hs' & Hn').
    intros k lo hi Hk.
    destruct (_parameter_dists (self w) !! k) as [v|] eqn:Hd;
      [|rewrite (Hn k Hd) in Hk; done].
    destruct (Hs k v Hd) as (bnd & Hbnd & Hbk).
    destruct (Hs' k v Hd) as (bnd' & Hbnd' & Hbk').
    assert (bnd = (lo, hi)) as -> by congruence.
    apply ci_bounds_of_negated in Hbnd. congruence.
  - intros Hc Hne. unfold get_ci_bounds.
    unfold mbind at 1. unfold action_bind, get. rewrite Hf. cbn [negb].
    unfold mbind at 1. unfold action_bind, lift.
    destruct (map_to_list (_parameter_dists (self w))) as [|[k v] l] eqn:El.
    { by apply map_to_list_empty_iff in El. }
    assert (sample_shaped v) as Hsv.
    { apply (Hv k), elem_of_map_to_list. rewrite El. by left. }
    cbn [mapM]. unfold ci_bounds_of.
    rewrite (quantile_out_of_range v ((1 - c) / 2) Hsv) by lra. done.
  - intros He. unfold get_ci_bounds.
    unfold mbind at 1. unfold action_bind, get. rewrite Hf. cbn [negb].
    rewrite He, map_to_list_empty. done.
Qed.

End ConfidenceLevels.

Lemma engine_after_fit_samples (k : string) (v : list pyvalue) :
  Bootstrap._parameter_dists (Bootstrap.self Examples.engine_after_fit) !! k
  = Some v ->
  sample_shaped v.
Proof.
  revert k v. apply map_Forall_to_list.
  set (l := map_to_list _). vm_compute in l. subst l.
  constructor; [|constructor; [|constructor]]; cbn;
    first [ apply (sample_shaped_arrays 0 [[]; []]);
              [done | by repeat constructor]
          | match goal with
            | |- sample_shaped [VFloat ?x; VFloat ?y] =>
                by apply (sample_shaped_floats [x; y])
            end ].
Qed.

(** An instance: the bounds of the intercept at level 1, for the engine of
    the examples after its fit, are the least and the greatest of its two
    draws. *)
Lemma ci_bounds_within_draws_witness :
  exists b lo hi,
    Bootstrap.get_ci_bounds 1 Examples.engine_after_fit
    = (Ok b, Examples.engine_after_fit) /\
    b !! "intercept" = Some (VFloat lo, VFloat hi) /\
    lo ∈ Examples.intercept_draws /\ hi ∈ Examples.intercept_draws /\
    forall x, x ∈ Examples.intercept_draws -> (lo <= x <= hi)%R.
Proof.
  destruct (get_ci_bounds_Ok_signed 1 Examples.engine_after_fit)
    as [b Hb].
  - reflexivity.
  - apply engine_after_fit_samples.
  - lra.
  - destruct (ci_bounds_within_draws 1 Examples.engine_after_fit b
                Examples.engine_after_fit "intercept" Examples.intercept_draws)
      as (lo & hi & mn & mx & H1 & H2 & H3 & H4 & _ & _ & H7 & _).
    + exact Hb.
    + vm_compute. reflexivity.
    + destruct (H7 eq_refl) as [-> ->].
      exists b, mn, mx. repeat split; try assumption; by apply H4.
Defined.

(** An instance: the levels 1/2 and -1/2 for the engine of the examples
    after its fit. *)
Lemma ci_level_range_witness :
  exists b b',
    Bootstrap.get_ci_bounds (1 / 2) Examples.engine_after_fit
    = (Ok b, Examples.engine_after_fit) /\
    Bootstrap.get_ci_bounds (- (1 / 2)) Examples.engine_after_fit
    = (Ok b', Examples.engine_after_fit) /\
    forall k lo hi, b !! k = Some (lo, hi) -> b' !! k = Some (hi, lo).
Proof.
  destruct (ci_level_range Examples.engine_after_fit (1 / 2)) as (H & _).
  - reflexivity.
  - apply engine_after_fit_samples.
  - apply H. lra.
Defined.

(** ** Kernel regression *)

Section KernelRegression.

Import Kernel.

#[local] Open Scope R_scope.

Implicit Types (self s : KernelTrend) (t y : list R) (tau : option (list R)).

Lemma epanechnikov_kernel_facts (u : R) :
  0 <= epanechnikov_kernel u <= 3 / 4 /\
  epanechnikov_kernel (- u) = epanechnikov_kernel u /\
  epanechnikov_kernel 0 = 3 / 4 /\
  (epanechnikov_kernel u = 0 <-> 1 <= Rabs u).
Proof.
  unfold epanechnikov_kernel.
  split; [|split; [|split]].
  - destruct (Rle_dec (Rabs u) 1) as [Hu|Hu]; [|lra].
    unfold Rabs in Hu. destruct (Rcase_abs u); nra.
  - rewrite Rabs_Ropp. by replace ((- u) ^ 2) with (u ^ 2) by ring.
  - rewrite Rabs_R0. destruct (Rle_dec 0 1); lra.
  - unfold Rabs. destruct (Rcase_abs u); destruct (Rle_dec _ 1);
      split; intros; nra.
Qed.

(** The Epanechnikov kernel is even, takes its values in [[0, 3/4]], its
    greatest value at 0, and vanishes exactly where [|u| >= 1]. *)
Theorem epanechnikov_kernel_shape (u : R) :
  0 <= epanechnikov_kernel u <= 3 / 4 /\
  epanechnikov_kernel (- u) = epanechnikov_kernel u /\
  epanechnikov_kernel 0 = 3 / 4 /\
  (epanechnikov_kernel u = 0 <-> 1 <= Rabs u).
Proof. apply epanechnikov_kernel_facts. Qed.

Lemma sum_nonneg (l : list R) :
  Forall (fun x => 0 <= x) l -> 0 <= foldr Rplus 0 l.
Proof. induction 1; cbn; lra. Qed.

Lemma sum_pos (l : list R) :
  Forall (fun x => 0 <= x) l -> Exists (fun x => 0 < x) l ->
  0 < foldr Rplus 0 l.
Proof.
  intros Hall Hex. induction Hall as [|x l Hx Hall IH]; [by inversion Hex|].
  pose proof (sum_nonneg l Hall). cbn.
  inversion Hex as [? ? Hpos|? ? Hrest]; subst; [lra|].
  specialize (IH Hrest). lra.
Qed.

(** A mean with weights that are not negative lies where the values lie. *)
Lemma weighted_mean_bounds (wts y : list R) (lo hi : R) :
  length wts = length y -> Forall (fun x => 0 <= x) wts ->
  0 < foldr Rplus 0 wts -> Forall (fun v => lo <= v <= hi) y ->
  lo <= Numpy.dot wts y / foldr Rplus 0 wts <= hi.
Proof.
  intros Hlen Hw Hsum Hy.
  assert (lo * foldr Rplus 0 wts <= Numpy.dot wts y <= hi * foldr Rplus 0 wts)
    as Hb.
  { clear Hsum. revert y Hlen Hy. unfold Numpy.dot.
    induction Hw as [|x wts Hx Hw IH]; intros [|v y] Hlen Hy; cbn in *;
      try lia; [lra|].
    inversion Hy as [|? ? Hv Hy']; subst.
    specialize (IH y ltac:(lia) Hy'). nra. }
  set (S := foldr Rplus 0 wts) in *. set (D := Numpy.dot wts y) in *.
  assert (0 < / S) as Hinv by (by apply Rinv_0_lt_compat).
  unfold Rdiv. split.
  - replace lo with (lo * S * / S) by (field; lra).
    apply Rmult_le_compat_r; lra.
  - replace hi with (hi * S * / S) by (field; lra).
    apply Rmult_le_compat_r; lra.
Qed.

(** The local-constant estimator with a kernel that is not negative: every
    estimate is a weighted mean of the responses. *)
Lemma local_constant_weighted_mean self t y tau (bandwidth lo hi : R) :
  _parameters self !! "bandwidth" = Some (VFloat bandwidth) ->
  (forall u, 0 <= kernel_func self u) ->
  length y = length t ->
  Forall (fun x => Exists (fun tj => 0 < kernel_func self ((x - tj) / bandwidth)) t)
         (default t tau) ->
  Forall (fun v => lo <= v <= hi) y ->
  exists m,
    _local_constant self t y tau = Ok m /\
    length m = length (default t tau) /\
    Forall (fun v => lo <= v <= hi) m.
Proof.
  intros Hbw Hk Hlen Hnear Hy. unfold _local_constant, get_bandwidth.
  rewrite Hbw. cbn [mbind result_bind].
  destruct (Nat.eqb_spec (length y) (length t)) as [_|]; [|done].
  assert (match tau with
          | Some tau0 => tau0
          | None => t
          end = default t tau) as -> by (by destruct tau).
  eexists. split; [done|].
  unfold subtract_outer, row_sums, Numpy.matvec. rewrite !map_map.
  rewrite zip_with_map_map, length_map. split; [done|].
  apply Forall_map. eapply Forall_impl; [exact Hnear|].
  intros x Hx. cbn.
  apply weighted_mean_bounds.
  - by rewrite !length_map.
  - apply Forall_map, Forall_forall. intros tj _. apply Hk.
  - apply sum_pos.
    + apply Forall_map, Forall_forall. intros tj _. apply Hk.
    + apply Exists_exists in Hx as (tj & Hin & Hpos).
      apply Exists_exists. exists (kernel_func self ((x - tj) / bandwidth)).
      split; [|done]. apply list_elem_of_fmap. exists ((x - tj)). split; [done|].
      apply list_elem_of_fmap. by exists tj.
  - done.
Qed.

Lemma epanechnikov_kernel_pos (d bandwidth : R) :
  bandwidth <> 0 -> Rabs d < Rabs bandwidth ->
  0 < epanechnikov_kernel (d / bandwidth).
Proof.
  intros Hb Hd.
  destruct (epanechnikov_kernel_facts (d / bandwidth)) as ([H0 _] & _ & _ & Hz).
  destruct (Req_dec (epanechnikov_kernel (d / bandwidth)) 0) as [E|]; [|lra].
  apply Hz in E. exfalso.
  unfold Rdiv in E. rewrite Rabs_mult, Rabs_inv in E.
  assert (0 < Rabs bandwidth) as Hpos by (by apply Rabs_pos_lt).
  assert (Rabs d * / Rabs bandwidth < 1); [|lra].
  apply (Rmult_lt_reg_r (Rabs bandwidth)); [done|].
  rewrite Rmult_assoc, Rinv_l by lra. lra.
Qed.

Lemma local_constant_epanechnikov self t y tau (bandwidth lo hi : R) :
  kernel_func self = epanechnikov_kernel ->
  _parameters self !! "bandwidth" = Some (VFloat bandwidth) ->
  bandwidth <> 0 ->
  length y = length t ->
  Forall (fun x => Exists (fun tj => Rabs (x - tj) < Rabs bandwidth) t)
         (default t tau) ->
  Forall (fun v => lo <= v <= hi) y ->
  exists m,
    _local_constant self t y tau = Ok m /\
    length m = length (default t tau) /\
    Forall (fun v => lo <= v <= hi) m.
Proof.
  intros Hkernel Hbw Hb Hlen Hnear Hy.
  apply (local_constant_weighted_mean self t y tau bandwidth); try done.
  - intros u. rewrite Hkernel.
    by destruct (epanechnikov_kernel_facts u) as ([? _] & _).
  - eapply Forall_impl; [exact Hnear|]. intros x Hx. cbn in *.
    eapply Exists_impl; [exact Hx|]. intros tj Htj. cbn in *.
    rewrite Hkernel. by apply epanechnikov_kernel_pos.
Qed.

(** With the Epanechnikov kernel and a bandwidth that is not zero, at
    points [tau] that each have a time point nearer than the bandwidth, the
    local-constant estimator returns one estimate per point of [tau], and no
    estimate leaves the range of the responses: constant responses are
    reproduced. *)
Theorem local_constant_within_responses self t y tau (bandwidth lo hi : R) :
  kernel_func self = epanechnikov_kernel ->
  _parameters self !! "bandwidth" = Some (VFloat bandwidth) ->
  bandwidth <> 0 ->
  length y = length t ->
  Forall (fun x => Exists (fun tj => Rabs (x - tj) < Rabs bandwidth) t)
         (default t tau) ->
  Forall (fun v => lo <= v <= hi) y ->
  exists m,
    _local_constant self t y tau = Ok m /\
    length m = length (default t tau) /\
    Forall (fun v => lo <= v <= hi) m.
Proof. apply local_constant_epanechnikov. Qed.

(** The fit of [KernelTrend] with the Epanechnikov kernel and a bandwidth
    that is not zero, on a series whose first and last time points differ
    and which has as many responses as time points: it returns, having
    stored the scaled time grid and, as [trend], one value per time point,
    none outside the range of the responses; the other parameters are as
    they were. *)
Theorem kernel_fit_trend_within_responses s t y (bandwidth t0 tn lo hi : R) :
  kernel_func s = epanechnikov_kernel ->
  _parameters s !! "bandwidth" = Some (VFloat bandwidth) ->
  bandwidth <> 0 ->
  head t = Some t0 -> last t = Some tn -> t0 <> tn ->
  length y = length t ->
  Forall (fun v => lo <= v <= hi) y ->
  exists s' trend,
    _fit t y s = (Ok tt, s') /\
    _parameters s' = <["trend" := VArray trend]> (_parameters s) /\
    _t_scaled s' = Some (map (fun x => (x - t0) / (tn - t0)) t) /\
    length trend = length t /\
    Forall (fun v => lo <= v <= hi) trend.
Proof.
  intros Hkernel Hbw Hb Ht0 Htn _ Hlen Hy.
  set (ts := map (fun x => (x - t0) / (tn - t0)) t).
  assert (scaled t t = Ok ts) as Hscaled
    by (unfold scaled; by rewrite Ht0, Htn).
  destruct (local_constant_epanechnikov (set_t_scaled ts s) ts y None
              bandwidth lo hi) as (trend & Elc & Hltrend & Htrend);
    try done.
  - unfold ts. by rewrite length_map.
  - cbn. apply Forall_forall. intros x Hx. apply Exists_exists.
    exists x. split; [done|].
    rewrite Rminus_diag, Rabs_R0. by apply Rabs_pos_lt.
  - exists (set_parameters (insert "trend" (VArray trend)) (set_t_scaled ts s)),
      trend.
    split; [|split; [done|split; [done|split; [|done]]]].
    + unfold _fit. erewrite bind_Ok by (unfold lift; by rewrite Hscaled).
      erewrite bind_Ok by reflexivity. erewrite bind_Ok by reflexivity.
      by erewrite bind_Ok by (unfold lift; by rewrite Elc).
    + cbn in Hltrend. unfold ts in Hltrend. by rewrite length_map in Hltrend.
Qed.

(** After a fit that returned, predicting on the data's own time grid gives
    back the stored trend: it is the same computation. *)
Theorem kernel_predict_on_fitted_grid s t y s' :
  Base._t (base s) = t -> Base._y (base s) = y ->
  _fit t y s = (Ok tt, s') ->
  exists trend,
    _parameters s' !! "trend" = Some (VArray trend) /\
    _predict s' t = Predicted (Ok trend).
Proof.
  intros Hbt Hby E. unfold _fit in E.
  apply bind_Ok_inv in E as (ts & ? & [Hts ->]%lift_Ok_inv & E).
  apply bind_Ok_inv in E as ([] & s1 & [= <-] & E).
  apply bind_Ok_inv in E as (s0 & ? & [= <- <-] & E).
  apply bind_Ok_inv in E as (trend & ? & [Hlc ->]%lift_Ok_inv & [= <-]).
  exists trend. split; [cbn; by rewrite lookup_insert_eq|].
  unfold _predict. cbn [base set_parameters set_t_scaled _t_scaled].
  rewrite Hbt, Hts, Hby. f_equal. rewrite <- Hlc.
  unfold _local_constant, get_bandwidth. cbn.
  by rewrite lookup_insert_ne.
Qed.

(** A [KernelTrend] built without a bandwidth cannot be fitted: on a series
    that is not empty its fit raises [TypeError], on the division by the
    bandwidth [None], whatever the kernel; no parameter is written. *)
Theorem kernel_fit_without_bandwidth (kernel : kernel_arg) s t y :
  init kernel None = Ok s -> t <> [] ->
  exists s',
    _fit t y s = (Raise TypeError, s') /\ _parameters s' = _parameters s.
Proof.
  intros Hinit Ht.
  assert (_parameters s !! "bandwidth" = Some VNone) as Hbw.
  { unfold init in Hinit.
    destruct kernel as [name|f|]; cbn in Hinit;
      [destruct (valid_kernels !! name); cbn in Hinit| |];
      try done; injection Hinit as <-; cbn; by rewrite lookup_singleton_eq. }
  assert (exists ts, scaled t t = Ok ts) as [ts Hts].
  { unfold scaled. destruct t as [|t0 t]; [done|]. cbn [head].
    destruct (last (t0 :: t)) eqn:El; [eauto|].
    by apply last_None in El. }
  exists (set_t_scaled ts s). split; [|done].
  unfold _fit. erewrite bind_Ok by (unfold lift; by rewrite Hts).
  erewrite bind_Ok by reflexivity. erewrite bind_Ok by reflexivity.
  unfold _local_constant, get_bandwidth. cbn [_parameters set_t_scaled].
  by rewrite Hbw.
Qed.

End KernelRegression.

(** An instance: two points one unit apart, with bandwidth 1. *)
Lemma local_constant_within_responses_witness :
  exists m,
    Kernel._local_constant Examples.kernel_model Examples.t2 Examples.y2 None
    = Ok m /\
    length m = 2%nat /\ Forall (fun v => (1 <= v <= 3)%R) m.
Proof.
  destruct (local_constant_within_responses Examples.kernel_model
              Examples.t2 Examples.y2 None 1 1 3) as (m & H1 & H2 & H3).
  - reflexivity.
  - reflexivity.
  - lra.
  - reflexivity.
  - cbn. unfold Examples.t2.
    constructor; [|constructor; [|constructor]].
    + apply Exists_cons_hd. rewrite Rminus_diag, Rabs_R0, Rabs_R1. lra.
    + apply Exists_cons_tl, Exists_cons_hd.
      rewrite Rminus_diag, Rabs_R0, Rabs_R1. lra.
  - unfold Examples.y2. repeat constructor; lra.
  - exists m. split; [exact H1|]. split; [exact H2 | exact H3].
Defined.

(** An instance: the fit of that model on the two points. *)
Lemma kernel_fit_trend_within_responses_witness :
  exists s' trend,
    Kernel._fit Examples.t2 Examples.y2 Examples.kernel_model = (Ok tt, s') /\
    Kernel._parameters s' !! "trend" = Some (VArray trend) /\
    length trend = 2%nat /\ Forall (fun v => (1 <= v <= 3)%R) trend.
Proof.
  destruct (kernel_fit_trend_within_responses Examples.kernel_model
              Examples.t2 Examples.y2 1 0 1 1 3)
    as (s' & trend & H1 & H2 & _ & H4 & H5).
  - reflexivity.
  - reflexivity.
  - lra.
  - reflexivity.
  - reflexivity.
  - lra.
  - reflexivity.
  - unfold Examples.y2. repeat constructor; lra.
  - exists s', trend. split; [exact H1|]. split; [|split; [exact H4 | exact H5]].
    rewrite H2. apply lookup_insert_eq.
Defined.

(** An instance: the model holding the two points, after its fit. *)
Lemma kernel_predict_on_fitted_grid_witness :
  exists trend,
    Kernel._predict
      (Kernel._fit Examples.t2 Examples.y2 Examples.kernel_model_with_data).2
      Examples.t2
    = Kernel.Predicted (Ok trend).
Proof.
  destruct (kernel_predict_on_fitted_grid Examples.kernel_model_with_data
              Examples.t2 Examples.y2
              (Kernel._fit Examples.t2 Examples.y2
                 Examples.kernel_model_with_data).2)
    as (trend & _ & H).
  - reflexivity.
  - reflexivity.
  - vm_compute. reflexivity.
  - by exists trend.
Defined.

(** An instance: the default [KernelTrend()], on two points. *)
Lemma kernel_fit_without_bandwidth_witness :
  exists s s',
    Kernel.init (Kernel.KernelName "epanechnikov") None = Ok s /\
    Kernel._fit Examples.t2 Examples.y2 s = (Raise TypeError, s').
Proof.
  assert (exists s, Kernel.init (Kernel.KernelName "epanechnikov") None = Ok s)
    as [s Hs] by (eexists; vm_compute; reflexivity).
  destruct (kernel_fit_without_bandwidth (Kernel.KernelName "epanechnikov")
              s Examples.t2 Examples.y2) as (s' & H & _).
  - exact Hs.
  - done.
  - exists s, s'. split; [exact Hs | exact H].
Defined.

(** ** The engine's generator and the generators of the draws *)

Section DrawGenerators.

Context {M : Type} `{!Base.Estimator M}.
Variable use_dask : bool.
Variable entropy : nat -> Numpy.RandomState.

Import Bootstrap.

Implicit Types (w : World (M:=M)) (m : M) (l : loc).

#[local] Existing Instance extends_preorder.

Lemma new_random_states_inv {X} (xs : list X) w rss wa l o :
  mapM (fun _ => new_random_state entropy) xs w = (Ok rss, wa) ->
  heap w !! l = Some o ->
  heap wa !! l = Some o /\
  entropy_used wa = (entropy_used w + length xs)%nat /\
  Forall (fun rs => rs <> l) rss.
Proof.
  revert w rss. induction xs as [|x xs IH]; intros w rss E Hl.
  - cbn in E. injection E as <- <-. split; [done|]. split; [cbn; lia|constructor].
  - cbn [mapM] in E.
    apply bind_Ok_inv in E as (rs & w1 & E1 & E).
    apply bind_Ok_inv in E as (rss' & w2 & E2 & [= <- <-]).
    unfold new_random_state in E1.
    apply bind_Ok_inv in E1 as (w0 & ? & [= <- <-] & E1).
    apply bind_Ok_inv in E1 as ([] & w0 & [= <-] & E1).
    apply alloc_inv in E1 as [Hfresh ->]. cbn in Hfresh.
    assert (rs <> l) as Hne by congruence.
    destruct (IH _ _ E2) as (Hl' & Hu & Hall).
    { cbn. by rewrite lookup_insert_ne. }
    split; [done|]. split; [cbn in *; lia|]. by constructor.
Qed.

(** A draw uses no entropy of the operating system and writes no generator
    but the one it draws from. *)
Lemma fit_sample_generators t rs w r w' :
  fit_sample t rs w = (Ok r, w') ->
  entropy_used w' = entropy_used w /\
  forall l g, heap w !! l = Some (ORandomState g) ->
              l <> default (random_state (self w)) rs ->
              heap w' !! l = Some (ORandomState g).
Proof.
  unfold fit_sample. intros E.
  apply bind_Ok_inv in E as (w0 & ? & [= <- <-] & E).
  apply bind_Ok_inv in E as (m & ? & [Hm ->]%read_model_inv & E).
  apply bind_Ok_inv in E as (mb & w1 & [Hfresh ->]%alloc_inv & E).
  apply bind_Ok_inv in E as (yb & w2 & Egen & E).
  apply bind_Ok_inv in E as ([] & w3 & Efit & E).
  apply bind_Ok_inv in E as (m_fit & ? & [_ ->]%read_model_inv & E).
  apply on_model_inv in Efit as (m' & m'' & _ & _ & ->).
  apply generate_bootstrap_sample_writes_only in Egen as (_ & Hu & Hh).
  assert (w' = set_heap (insert mb (OModel m'')) w2) as ->
    by (destruct (save_models (self w)); by injection E as _ <-).
  cbn in *. split; [done|].
  intros l g Hl Hne. assert (mb <> l) as Hmb by congruence.
  rewrite lookup_insert_ne by done. rewrite Hh by done.
  by rewrite lookup_insert_ne.
Qed.

Lemma draws_generators {X} (f : X -> option loc) (xs : list X) t w res w' l g :
  mapM (fun x => fit_sample t (f x)) xs w = (Ok res, w') ->
  heap w !! l = Some (ORandomState g) ->
  Forall (fun x => l <> default (random_state (self w)) (f x)) xs ->
  entropy_used w' = entropy_used w /\ heap w' !! l = Some (ORandomState g).
Proof.
  revert w res. induction xs as [|x xs IH]; intros w res E Hl Hall.
  - cbn in E. by injection E as _ <-.
  - cbn [mapM] in E.
    apply bind_Ok_inv in E as (r & w1 & E1 & E).
    apply bind_Ok_inv in E as (rs' & w2 & E2 & [= _ <-]).
    inversion Hall as [|? ? Hx Hxs]; subst.
    pose proof (fit_sample_extends _ _ _ _ _ E1) as (Es & _).
    apply fit_sample_generators in E1 as [Hu Hkeep].
    destruct (IH _ _ E2) as [Hu' Hl'].
    + by apply Hkeep.
    + by rewrite Es.
    + split; [congruence | done].
Qed.

Lemma draws_entropy {X} (f : X -> option loc) (xs : list X) t w res w' :
  mapM (fun x => fit_sample t (f x)) xs w = (Ok res, w') ->
  entropy_used w' = entropy_used w.
Proof.
  revert w res. induction xs as [|x xs IH]; intros w res E.
  - cbn in E. by injection E as _ <-.
  - cbn [mapM] in E.
    apply bind_Ok_inv in E as (r & w1 & E1 & E).
    apply bind_Ok_inv in E as (rs' & w2 & E2 & [= _ <-]).
    apply fit_sample_generators in E1 as [Hu _].
    rewrite (IH _ _ E2). done.
Qed.

(** Where the randomness of the draws comes from.  Without dask, a call of
    the engine's [_fit] that returns has created no generator: the draws
    come from the engine's own generator, so that they are determined by its
    state.  With dask, every draw has a generator of its own, seeded by the
    operating system: [n_samples] such generators were created, and the
    engine's own generator is in the state it was in, so that the seed given
    to the engine has no part in the draws. *)
Theorem draws_and_the_engine_generator t y w w' m0 g :
  heap w !! model (self w) = Some (OModel m0) ->
  heap w !! random_state (self w) = Some (ORandomState g) ->
  _fit use_dask entropy t y w = (Ok tt, w') ->
  if use_dask then
    heap w' !! random_state (self w) = Some (ORandomState g) /\
    entropy_used w' = (entropy_used w + Z.to_nat (n_samples (self w)))%nat
  else entropy_used w' = entropy_used w.
Proof.
  intros Hm0 Hg E.
  destruct (_fit_inv _ _ _ _ _ _ _ Hm0 E) as (m1 & w2 & res & Hfit & Edraws & ->).
  assert (random_state (self w) <> model (self w)) as Hne by congruence.
  unfold draws in Edraws.
  apply bind_Ok_inv in Edraws as (w0 & ? & [= <- <-] & Edraws).
  cbn [self set_heap set_self heap entropy_used] in *.
  destruct use_dask.
  - apply bind_Ok_inv in Edraws as (rss & wa & Erss & Edraws).
    pose proof Erss as Hext.
    apply (mapM_Ok_inv _ extends (fun _ _ _ => True)) in Hext
      as ((Ea & _) & _ & _);
      [|intros ? ? ? ? _ ?%new_random_state_extends; done].
    apply (new_random_states_inv _ _ _ _ (random_state (self w))
             (ORandomState g)) in Erss as (Hga & Hua & Hrss);
      [|cbn; by rewrite lookup_insert_ne].
    rewrite length_seq in Hua. cbn in Hua, Ea.
    apply (draws_generators Some rss t wa res w2 (random_state (self w)) g)
      in Edraws as [Hu Hl]; [|done|].
    + split; [done | lia].
    + eapply Forall_impl; [exact Hrss|]. cbn. intros rs Hrs. congruence.
  - by apply draws_entropy in Edraws.
Qed.

End DrawGenerators.

(** An instance: the engine of the examples with dask, after two draws. *)
Lemma draws_and_the_engine_generator_witness :
  Bootstrap.entropy_used
    (Bootstrap._fit true (fun _ => Examples.generator) Examples.t2 Examples.y2
       (Examples.engine Examples.new_model 2 false)).2
  = 2%nat.
Proof.
  pose proof (draws_and_the_engine_generator true (fun _ => Examples.generator)
                Examples.t2 Examples.y2
                (Examples.engine Examples.new_model 2 false)
                (Bootstrap._fit true (fun _ => Examples.generator)
                   Examples.t2 Examples.y2
                   (Examples.engine Examples.new_model 2 false)).2
                Examples.new_model Examples.generator) as H.
  cbv beta iota in H. destruct H as [_ H].
  - reflexivity.
  - vm_compute. reflexivity.
  - vm_compute. reflexivity.
  - exact H.
Defined.

(** ** Fitting again *)

Section Refit.

Import Models.

Variable lstsq : list (list R) -> list R -> result (list R * list R).
Variable dual_annealing :
  (R -> result float_ext) -> list (R * R) -> gmap string pyarg ->
  result (list R * OptimizeResult).

Implicit Types (s : LinearModel) (t y p : list R).

(** Storing a solution in a model that holds it already changes nothing. *)
Lemma store_coefficients_again p (reg_idx : list (string * index)) s :
  Forall (fun ki => exists v, getitem p ki.2 = Ok v /\
                              _parameters s !! ki.1 = Some v) reg_idx ->
  exists rs,
    mapM (fun '(k, idx) =>
            v ← lift (getitem p idx);
            modify (set_parameters (insert k v))) reg_idx s = (Ok rs, s).
Proof.
  induction 1 as [|[k idx] l (v & Hv & Hk) _ [rs IH]]; cbn [mapM].
  - by exists [].
  - exists (tt :: rs). cbn in Hv, Hk.
    assert (set_parameters (insert k v) s = s) as Hs.
    { destruct s. unfold set_parameters. cbn in *. f_equal.
      by apply insert_id. }
    erewrite bind_Ok;
      [|erewrite bind_Ok by (unfold lift; by rewrite Hv);
        unfold modify; by rewrite Hs].
    by erewrite bind_Ok by exact IH.
Qed.

Lemma solve_lstsq_again t y reg_idx reg_terms s ssr s' :
  NoDup reg_idx.*1 ->
  _solve_lstsq lstsq t y reg_idx reg_terms s = (Ok ssr, s') ->
  _solve_lstsq lstsq t y reg_idx reg_terms s' = (Ok ssr, s').
Proof.
  intros Hnd E.
  destruct (solve_lstsq_inv _ _ _ _ _ _ _ _ Hnd E) as (p & Hl & Hall).
  destruct (store_coefficients_again p reg_idx s' Hall) as [rs Hrs].
  unfold _solve_lstsq.
  erewrite bind_Ok by (unfold lift; by rewrite Hl). cbv beta iota.
  by erewrite bind_Ok by exact Hrs.
Qed.

Lemma fit_linear_again t y s r s' :
  class_of s <> LinearBrokenTrendFourier ->
  _fit_linear lstsq t y s = (Ok r, s') ->
  _fit_linear lstsq t y s' = (Ok r, s').
Proof.
  intros Hnb E.
  pose proof (fit_linear_names _ _ _ _ _ _ Hnb E) as [(Hc & Hf & _) _].
  unfold _fit_linear in E |- *.
  apply bind_Ok_inv in E as (s0 & ? & [= <- <-] & E).
  erewrite bind_Ok by reflexivity. rewrite Hc, Hf.
  assert (NoDup (match class_of s with
                 | LinearNoTrendFourier => _regressor_terms_no_trend (f_order s) t
                 | _ => _regressor_terms_trend (f_order s) t
                 end).1.*1) as Hnd.
  { destruct (class_of s); [rewrite names_no_trend|rewrite names_trend|done];
      apply NoDup_regressor_names. }
  destruct (match class_of s with
            | LinearNoTrendFourier => _regressor_terms_no_trend (f_order s) t
            | _ => _regressor_terms_trend (f_order s) t
            end) as [reg_idx reg_terms].
  apply bind_Ok_inv in E as (ssr & s1 & Esolve & E).
  destruct ssr as [|ssr0 ssr]; [done|]. injection E as <- <-.
  apply solve_lstsq_again in Esolve; [|done].
  by erewrite bind_Ok by exact Esolve.
Qed.

Lemma final_resolve_again t y s ssr s' :
  final_resolve lstsq t y s = (Ok ssr, s') ->
  final_resolve lstsq t y s' = (Ok ssr, s').
Proof.
  intros E.
  pose proof (final_resolve_frame _ _ _ _ _ _ E) as [(_ & Hf & _) F].
  unfold final_resolve in E |- *.
  apply bind_Ok_inv in E as (s0 & ? & [= <- <-] & E).
  apply bind_Ok_inv in E as (x & ? & [Hx ->]%lift_Ok_inv & E).
  erewrite bind_Ok by reflexivity.
  assert (get_t_break s' = Ok x) as Hx2.
  { unfold get_t_break in *. rewrite F; [done|].
    unfold regressor_names. destruct (f_order s =? 0)%nat; set_solver. }
  erewrite bind_Ok by (unfold lift; by rewrite Hx2).
  rewrite Hf.
  pose proof (names_broken_trend (f_order s) t x) as Hn.
  destruct (_regressor_terms_broken_trend (f_order s) t x)
    as [reg_idx reg_terms].
  apply solve_lstsq_again in E; [done|].
  cbn in Hn; rewrite Hn; apply NoDup_regressor_names.
Qed.

(** Fitting again on the same data changes nothing.  When [_fit] of a
    linear model has returned (for [LinearBrokenTrendFourier], with the
    break location given), calling it again on the same data returns the
    same value and leaves the model exactly as the first call left it. *)
Theorem refit_is_idempotent t y s r s' :
  (class_of s = LinearBrokenTrendFourier -> _fit_t_break s = false) ->
  _fit lstsq dual_annealing t y s = (Ok r, s') ->
  _fit lstsq dual_annealing t y s' = (Ok r, s').
Proof.
  intros Hgiven E. unfold _fit in *.
  apply bind_Ok_inv in E as (s0 & ? & [= <- <-] & E).
  erewrite bind_Ok by reflexivity.
  destruct (class_of s) eqn:Hcls.
  - assert (class_of s <> LinearBrokenTrendFourier) as Hnb by congruence.
    pose proof (fit_linear_names _ _ _ _ _ _ Hnb E) as [(Hc & _) _].
    rewrite Hc, Hcls. by apply (fit_linear_again t y s).
  - assert (class_of s <> LinearBrokenTrendFourier) as Hnb by congruence.
    pose proof (fit_linear_names _ _ _ _ _ _ Hnb E) as [(Hc & _) _].
    rewrite Hc, Hcls. by apply (fit_linear_again t y s).
  - specialize (Hgiven eq_refl).
    unfold _fit_broken_trend in E.
    apply bind_Ok_inv in E as (res & s1 & [_ Hres]%locate_break_inv & E).
    destruct res as [res|]; [destruct Hres; congruence|].
    destruct Hres as [_ ->].
    apply bind_Ok_inv in E as (ssr & s2 & Efinal & [= <- <-]).
    pose proof (final_resolve_frame _ _ _ _ _ _ Efinal)
      as [(Hc & Hf & Hb & _) F].
    rewrite Hc, Hcls. unfold _fit_broken_trend.
    assert (locate_break lstsq dual_annealing t y s2 = (Ok None, s2)) as Hloc.
    { unfold locate_break. erewrite bind_Ok by reflexivity.
      by rewrite Hb, Hgiven. }
    erewrite bind_Ok by exact Hloc.
    by erewrite bind_Ok by exact (final_resolve_again _ _ _ _ _ Efinal).
Qed.

End Refit.

(** An instance: the intercept-only model of the examples, fitted twice on
    two points. *)
Lemma refit_is_idempotent_witness :
  Models._fit Examples.lstsq Examples.dual_annealing Examples.t2 Examples.y2
    (Models._fit Examples.lstsq Examples.dual_annealing Examples.t2 Examples.y2
       Examples.new_model).2
  = Models._fit Examples.lstsq Examples.dual_annealing Examples.t2 Examples.y2
      Examples.new_model.
Proof.
  assert (exists r s',
            Models._fit Examples.lstsq Examples.dual_annealing
              Examples.t2 Examples.y2 Examples.new_model = (Ok r, s'))
    as (r & s' & E) by (do 2 eexists; vm_compute; reflexivity).
  rewrite E. cbn [snd].
  apply (refit_is_idempotent Examples.lstsq Examples.dual_annealing
           Examples.t2 Examples.y2 Examples.new_model r s').
  - discriminate.
  - exact E.
Defined.
